(** * The sunxi FEL loader (fel.c): a shallow embedding and its properties

    The host program talks to the boot ROM of an Allwinner SoC over two USB
    bulk endpoints.  Everything the program does is sequential, so it is
    embedded as functions in a state-and-exit monad over a [world]: the
    process-wide variables of fel.c, the bytes the device is going to
    deliver on its IN endpoint, and logs of the bulk transfers and of the
    messages printed. *)

From Stdlib Require Import ZArith List String Ascii Lia Bool.
From stdpp Require Import base numbers list.
From Equations Require Import Equations.
Import ListNotations.
Open Scope Z_scope.

(** ** Machine integers and byte buffers *)

(** [uint32_t] and (LP64) [size_t] arithmetic wraps around. *)
Definition u32 (x : Z) : Z := x mod 2 ^ 32.
Definition sz (x : Z) : Z := x mod 2 ^ 64.

(** [~x] of an [int] constant, converted to [uint32_t] by the [&] with an
    unsigned operand. *)
Definition not32 (x : Z) : Z := u32 (Z.lnot x).

(** Bytes are integers in [0, 256). *)
Definition byte_of_ascii (c : ascii) : Z := Z.of_N (N_of_ascii c).

Fixpoint bytes_of_string (s : string) : list Z :=
  match s with
  | EmptyString => []
  | String c s' => byte_of_ascii c :: bytes_of_string s'
  end.

(** [htole16] / [htole32] followed by a store: the bytes that end up in
    memory, and so on the wire, on a host of either endianness. *)
Definition htole16 (x : Z) : list Z :=
  [Z.land x 255; Z.land (Z.shiftr x 8) 255].

Definition htole32 (x : Z) : list Z :=
  [Z.land x 255; Z.land (Z.shiftr x 8) 255;
   Z.land (Z.shiftr x 16) 255; Z.land (Z.shiftr x 24) 255].

Definition words_to_bytes (ws : list Z) : list Z := flat_map htole32 ws.

(** [le32toh(buf32[i])]: the little-endian word at byte offset [4 * i]. *)
Definition le32toh_at (buf : list Z) (i : nat) : Z :=
  let b k := nth (4 * i + k)%nat buf 0 in
  Z.lor (b 0%nat) (Z.lor (Z.shiftl (b 1%nat) 8)
        (Z.lor (Z.shiftl (b 2%nat) 16) (Z.shiftl (b 3%nat) 24))).

Definition bytes_to_words (buf : list Z) (n : nat) : list Z :=
  map (le32toh_at buf) (seq 0 n).

(** ** SoC records (soc_info.h) *)

Record sram_swap_buffers := mk_swap {
  buf1 : Z;
  buf2 : Z;
  size : Z
}.

(** Modelled from the spec: soc_info.h is not part of the sources; the
    record has the fields fel.c reads.  [swap_buffers] is a pointer in C
    ([None] is NULL); the array it points to ends at its first entry of
    size 0. *)
Record soc_info_t := mk_soc {
  soc_id : Z;
  spl_addr : Z;
  scratch_addr : Z;
  thunk_addr : Z;
  thunk_size : Z;
  needs_l2en : bool;
  mmu_tt_addr : Z;
  sid_addr : Z;
  rvbar_reg : Z;
  swap_buffers : option (list sram_swap_buffers)
}.

(** Modelled from the spec: struct aw_fel_version (common.h), the decoded
    32-byte reply to a version request. *)
Record aw_fel_version := mk_version {
  v_signature : list Z;
  v_soc_id : Z;
  v_unknown_0a : Z;
  v_protocol : Z;
  v_unknown_12 : Z;
  v_unknown_13 : Z;
  v_scratchpad : Z;
  v_pad0 : Z;
  v_pad1 : Z
}.

(** ** The world and the monad *)

(** One event per call of [usb_bulk_send] / [usb_bulk_recv] that moves at
    least one byte: the call stands for its loop of libusb transfers. *)
Inductive usb_event :=
| BulkOut (data : list Z)
| BulkIn (len : nat).

Inductive endpoint := EP_OUT | EP_IN.

Record world := mk_world {
  uboot_entry : Z;                 (* static uint32_t uboot_entry *)
  uboot_size : Z;                  (* static uint32_t uboot_size *)
  verbose : bool;                  (* static bool verbose *)
  soc_cache : option soc_info_t;   (* static result of aw_fel_get_soc_info *)
  dev_in : list Z;                 (* what the device will send on EP_IN *)
  usb_log : list usb_event;        (* bulk transfers performed so far *)
  err_log : list string;           (* stderr *)
  out_log : list string            (* stdout *)
}.

Inductive result (A : Type) :=
| Ok (a : A)
| Exit (code : Z)      (* exit(code) *)
| Abort.               (* a failed assert *)
Arguments Ok {A} a.
Arguments Exit {A} code.
Arguments Abort {A}.

Definition M (A : Type) : Type := world -> result A * world.

Definition ret {A} (a : A) : M A := fun w => (Ok a, w).

Definition bind {A B} (p : M A) (k : A -> M B) : M B :=
  fun w =>
    match p w with
    | (Ok a, w1) => k a w1
    | (Exit c, w1) => (Exit c, w1)
    | (Abort, w1) => (Abort, w1)
    end.

Notation "x <- p ;; k" := (bind p (fun x => k))
  (at level 100, p at next level, right associativity).
Notation "p ;; k" := (bind p (fun _ => k))
  (at level 100, right associativity).

Definition exit {A} (code : Z) : M A := fun w => (Exit code, w).

Definition assert (b : bool) : M unit :=
  fun w => if b then (Ok tt, w) else (Abort, w).

Definition get_world : M world := fun w => (Ok w, w).

Definition set_uboot (entry sz : Z) : M unit := fun w =>
  (Ok tt, mk_world entry sz (verbose w) (soc_cache w) (dev_in w)
                   (usb_log w) (err_log w) (out_log w)).

Definition set_soc_cache (s : soc_info_t) : M unit := fun w =>
  (Ok tt, mk_world (uboot_entry w) (uboot_size w) (verbose w) (Some s)
                   (dev_in w) (usb_log w) (err_log w) (out_log w)).

Definition eprintf (msg : string) : M unit := fun w =>
  (Ok tt, mk_world (uboot_entry w) (uboot_size w) (verbose w) (soc_cache w)
                   (dev_in w) (usb_log w) (err_log w ++ [msg]) (out_log w)).

Definition printf (msg : string) : M unit := fun w =>
  (Ok tt, mk_world (uboot_entry w) (uboot_size w) (verbose w) (soc_cache w)
                   (dev_in w) (usb_log w) (err_log w) (out_log w ++ [msg])).

Definition pr_info (msg : string) : M unit :=
  w <- get_world ;; if verbose w then printf msg else ret tt.

(** ** USB transport *)

(** A bulk transfer to the OUT endpoint. *)
Definition libusb_out (data : list Z) : M unit := fun w =>
  (Ok tt, mk_world (uboot_entry w) (uboot_size w) (verbose w) (soc_cache w)
                   (dev_in w) (usb_log w ++ [BulkOut data])
                   (err_log w) (out_log w)).

(** A bulk transfer of [n] bytes from the IN endpoint; [None] is a libusb
    error (the device has nothing more to say before the timeout). *)
Definition libusb_in (n : nat) : M (option (list Z)) := fun w =>
  if decide (n <= length (dev_in w))%nat
  then (Ok (Some (take n (dev_in w))),
        mk_world (uboot_entry w) (uboot_size w) (verbose w) (soc_cache w)
                 (drop n (dev_in w)) (usb_log w ++ [BulkIn n])
                 (err_log w) (out_log w))
  else (Ok None, w).

Definition usb_error (caption : string) (exitcode : Z) : M unit :=
  eprintf caption ;;
  if exitcode =? 0 then ret tt else exit exitcode.

(** [usb_bulk_send(usb, ep, data, length, progress)]; the result is the
    buffer [data] after the call.  The direction of a bulk transfer is that
    of its endpoint, and [aw_usb_read] calls this function on EP_IN.  The
    progress callback is not modelled. *)
Definition usb_bulk_send (ep : endpoint) (data : list Z) (length : Z)
    (progress : bool) : M (list Z) :=
  if length <=? 0 then ret data
  else match ep with
       | EP_OUT => libusb_out (take (Z.to_nat length) data) ;; ret data
       | EP_IN =>
           r <- libusb_in (Z.to_nat length) ;;
           match r with
           | Some d => ret d
           | None => usb_error "usb_bulk_send()" 2 ;; ret data
           end
       end.

(** [usb_bulk_recv(usb, ep, data, length)], only ever called on EP_IN. *)
Definition usb_bulk_recv (length : Z) : M (list Z) :=
  if length <=? 0 then ret []
  else
    r <- libusb_in (Z.to_nat length) ;;
    match r with
    | Some d => ret d
    | None => usb_error "usb_bulk_recv()" 2 ;; ret []
    end.

(** ** AW-USB framing *)

Definition AW_USB_READ : Z := 0x11.
Definition AW_USB_WRITE : Z := 0x12.

(** The packed 32-byte [struct aw_usb_request]. *)
Definition aw_usb_request (type length : Z) : list Z :=
  bytes_of_string "AWUC" ++ [0; 0; 0; 0]
  ++ htole32 length ++ htole32 0x0c000000
  ++ htole16 type ++ htole32 length ++ repeat 0 10.

Definition aw_send_usb_request (type length : Z) : M unit :=
  usb_bulk_send EP_OUT (aw_usb_request type length) 32 false ;; ret tt.

(** [strcmp(buf, "AWUS") == 0] on the 13 bytes received: the tag and the
    NUL after it. *)
Definition aw_read_usb_response : M unit :=
  buf <- usb_bulk_recv 13 ;;
  assert (bool_decide (take 5 buf = bytes_of_string "AWUS" ++ [0])).

Definition aw_usb_write (data : list Z) (len : Z) (progress : bool) : M unit :=
  aw_send_usb_request AW_USB_WRITE len ;;
  usb_bulk_send EP_OUT data len progress ;;
  aw_read_usb_response.

Definition aw_usb_read (len : Z) : M (list Z) :=
  aw_send_usb_request AW_USB_READ len ;;
  data <- usb_bulk_send EP_IN [] len false ;;
  aw_read_usb_response ;;
  ret data.

(** ** FEL commands *)

Definition AW_FEL_VERSION : Z := 0x001.
Definition AW_FEL_1_WRITE : Z := 0x101.
Definition AW_FEL_1_EXEC : Z := 0x102.
Definition AW_FEL_1_READ : Z := 0x103.

(** The 16-byte [struct aw_fel_request]; [pad] is zero-initialised. *)
Definition aw_fel_request (type addr length : Z) : list Z :=
  htole32 type ++ htole32 addr ++ htole32 length ++ htole32 0.

Definition aw_send_fel_request (type addr length : Z) : M unit :=
  aw_usb_write (aw_fel_request type addr length) 16 false.

Definition aw_read_fel_status : M unit :=
  aw_usb_read 8 ;; ret tt.

Definition decode_version (buf : list Z) : aw_fel_version :=
  mk_version (take 8 buf)
    (Z.land (Z.shiftr (le32toh_at buf 2) 8) 0xFFFF)
    (le32toh_at buf 3)
    (Z.land (le32toh_at buf 4) 0xFFFF)
    (nth 18 buf 0) (nth 19 buf 0)
    (Z.land (le32toh_at buf 5) 0xFFFF)
    (le32toh_at buf 6) (le32toh_at buf 7).

Definition aw_fel_get_version : M aw_fel_version :=
  aw_send_fel_request AW_FEL_VERSION 0 0 ;;
  buf <- aw_usb_read 32 ;;
  aw_read_fel_status ;;
  ret (decode_version buf).

Definition aw_fel_read (offset len : Z) : M (list Z) :=
  aw_send_fel_request AW_FEL_1_READ offset len ;;
  buf <- aw_usb_read len ;;
  aw_read_fel_status ;;
  ret buf.

Definition aw_fel_write (buf : list Z) (offset len : Z) : M unit :=
  aw_send_fel_request AW_FEL_1_WRITE offset len ;;
  aw_usb_write buf len false ;;
  aw_read_fel_status.

Definition aw_fel_execute (offset : Z) : M unit :=
  aw_send_fel_request AW_FEL_1_EXEC offset 0 ;;
  aw_read_fel_status.

(** [aw_write_buffer]: the user-level write, behind the guard against
    overwriting a loaded U-Boot.  [uboot_entry + uboot_size] is [uint32_t]
    arithmetic; [offset + len] is [size_t] arithmetic.  The elapsed time it
    returns is not modelled. *)
Definition aw_write_buffer (buf : list Z) (offset len : Z) (progress : bool)
    : M unit :=
  w <- get_world ;;
  if (0 <? uboot_size w)
     && (offset <=? u32 (uboot_entry w + uboot_size w))
     && (uboot_entry w <=? sz (offset + len))
  then
    eprintf "ERROR: Attempt to overwrite U-Boot! Request 0x%08X-0x%08X overlaps 0x%08X-0x%08X." ;;
    exit 1
  else
    aw_send_fel_request AW_FEL_1_WRITE offset len ;;
    aw_usb_write buf len progress ;;
    aw_read_fel_status.

(** ** Image headers *)

(** [be32toh(buf32[i])]: the big-endian word at byte offset [4 * i]. *)
Definition be32toh_at (buf : list Z) (i : nat) : Z :=
  let b k := nth (4 * i + k)%nat buf 0 in
  Z.lor (b 3%nat) (Z.lor (Z.shiftl (b 2%nat) 8)
        (Z.lor (Z.shiftl (b 1%nat) 16) (Z.shiftl (b 0%nat) 24))).

Definition IH_MAGIC : Z := 0x27051956.
Definition IH_ARCH_ARM : Z := 2.
Definition IH_TYPE_INVALID : Z := 0.
Definition IH_TYPE_FIRMWARE : Z := 5.
Definition IH_TYPE_ARCH_MISMATCH : Z := -1.
Definition HEADER_SIZE : Z := 32 + 32.

Definition get_image_type (buf : list Z) (len : Z) : Z :=
  if len <=? HEADER_SIZE then IH_TYPE_INVALID
  else if negb (be32toh_at buf 0 =? IH_MAGIC) then IH_TYPE_INVALID
  else if negb (nth 29 buf 0 =? IH_ARCH_ARM) then IH_TYPE_ARCH_MISMATCH
  else nth 30 buf 0.

(** ** Loops *)

(** [for (...) body(x)] over the values [l] of the loop variable. *)
Fixpoint for_each {A} (body : A -> M unit) (l : list A) : M unit :=
  match l with
  | [] => ret tt
  | x :: l' => body x ;; for_each body l'
  end.

(** The indices [lo, lo + 1, ..., hi - 1] of a counting loop. *)
Definition range (lo hi : Z) : list Z := seqZ lo (hi - lo).

(** [a[i] = f(a[i])] on an array held as a list. *)
Definition update (f : Z -> Z) (i : Z) (a : list Z) : list Z :=
  alter f (Z.to_nat i) a.

(** ** ARM thunks *)

Definition cp_opcode (l coproc opc1 crn crm opc2 : Z) : Z :=
  Z.lor 0xEE000000 (Z.lor (Z.shiftl l 20) (Z.lor (Z.shiftl 1 4)
    (Z.lor (Z.shiftl (Z.land opc1 7) 21)
    (Z.lor (Z.shiftl (Z.land crn 15) 16)
    (Z.lor (Z.shiftl (Z.land coproc 15) 8)
    (Z.lor (Z.shiftl (Z.land opc2 7) 5) (Z.land crm 15))))))).

Definition mrc_code (coproc opc1 crn crm opc2 : Z) : list Z :=
  [ cp_opcode 1 coproc opc1 crn crm opc2; (* mrc coproc, opc1, r0, crn, crm, opc2 *)
    0xe58f0000;                           (* str r0, [pc] *)
    0xe12fff1e ].                         (* bx  lr *)

Definition mcr_code (coproc opc1 crn crm opc2 val : Z) : list Z :=
  [ 0xe59f000c;                           (* ldr r0, [pc, #12] *)
    cp_opcode 0 coproc opc1 crn crm opc2; (* mcr coproc, opc1, r0, crn, crm, opc2 *)
    0xf57ff04f;                           (* dsb sy *)
    0xf57ff06f;                           (* isb sy *)
    0xe12fff1e;                           (* bx  lr *)
    val ].

Definition aw_read_arm_cp_reg (soc : soc_info_t)
    (coproc opc1 crn crm opc2 : Z) : M Z :=
  aw_fel_write (words_to_bytes (mrc_code coproc opc1 crn crm opc2))
               (scratch_addr soc) 12 ;;
  aw_fel_execute (scratch_addr soc) ;;
  val <- aw_fel_read (u32 (scratch_addr soc + 12)) 4 ;;
  ret (le32toh_at val 0).

Definition aw_write_arm_cp_reg (soc : soc_info_t)
    (coproc opc1 crn crm opc2 val : Z) : M unit :=
  aw_fel_write (words_to_bytes (mcr_code coproc opc1 crn crm opc2 val))
               (scratch_addr soc) 24 ;;
  aw_fel_execute (scratch_addr soc).

Definition LCODE_ARM_WORDS : Z := 12.
Definition LCODE_ARM_SIZE : Z := Z.shiftl LCODE_ARM_WORDS 2.
Definition LCODE_MAX_TOTAL : Z := 0x100.
Definition LCODE_MAX_WORDS : Z := LCODE_MAX_TOTAL - LCODE_ARM_WORDS.

Definition readl_code (addr count : Z) : list Z :=
  [ 0xe59f0020;                   (* ldr  r0, [pc, #32] ; ldr r0,[read_addr]  *)
    0xe28f1024;                   (* add  r1, pc, #36   ; adr r1, read_data   *)
    0xe59f201c;                   (* ldr  r2, [pc, #28] ; ldr r2,[read_count] *)
    0xe3520000 + LCODE_MAX_WORDS; (* cmp   r2, #LCODE_MAX_WORDS *)
    0xc3a02000 + LCODE_MAX_WORDS; (* movgt r2, #LCODE_MAX_WORDS *)
    0xe2522001;                   (* subs r2, r2, #1 *)
    0x412fff1e;                   (* bxmi lr *)
    0xe4903004;                   (* ldr  r3, [r0], #4 *)
    0xe4813004;                   (* str  r3, [r1], #4 *)
    0xeafffffa;                   (* b    read_loop *)
    addr;                         (* read_addr *)
    count ].                      (* read_count *)

Definition writel_code (addr count : Z) : list Z :=
  [ 0xe59f0020;                   (* ldr  r0, [pc, #32] ; ldr r0,[write_addr]  *)
    0xe28f1024;                   (* add  r1, pc, #36   ; adr r1, write_data   *)
    0xe59f201c;                   (* ldr  r2, [pc, #28] ; ldr r2,[write_count] *)
    0xe3520000 + LCODE_MAX_WORDS; (* cmp   r2, #LCODE_MAX_WORDS *)
    0xc3a02000 + LCODE_MAX_WORDS; (* movgt r2, #LCODE_MAX_WORDS *)
    0xe2522001;                   (* subs r2, r2, #1 *)
    0x412fff1e;                   (* bxmi lr *)
    0xe4913004;                   (* ldr  r3, [r1], #4 *)
    0xe4803004;                   (* str  r3, [r0], #4 *)
    0xeafffffa;                   (* b    write_loop *)
    addr;                         (* write_addr *)
    count ].                      (* write_count *)

Definition l2en_code : list Z :=
  [ 0xee112f30; 0xe3822002; 0xee012f30; 0xe12fff1e ].

Definition stackinfo_code : list Z :=
  [ 0xe10f0000; 0xe3c0101f; 0xe3811012; 0xe121f001; 0xe1a0100d;
    0xe121f000; 0xe58f1004; 0xe58fd004; 0xe12fff1e ].

Definition mmu_disable_code : list Z :=
  [ 0xee110f10;   (* mrc 15, 0, r0, cr1, cr0, {0} *)
    0xe3c00001;   (* bic r0, r0, #1 *)
    0xe3c00a01;   (* bic r0, r0, #4096 *)
    0xe3c00b02;   (* bic r0, r0, #2048 *)
    0xee010f10;   (* mcr 15, 0, r0, cr1, cr0, {0} *)
    0xe12fff1e ]. (* bx  lr *)

Definition mmu_enable_code : list Z :=
  [ 0xe3a00000; 0xee080f17; 0xee070f15; 0xee070fd5; 0xf57ff04f; 0xf57ff06f;
    0xee110f10; 0xe3800001; 0xe3800a01; 0xe3800b02; 0xee010f10; 0xe12fff1e ].

Definition aw_enable_l2_cache (soc : soc_info_t) : M unit :=
  aw_fel_write (words_to_bytes l2en_code) (scratch_addr soc) 16 ;;
  aw_fel_execute (scratch_addr soc).

Definition aw_get_stackinfo (soc : soc_info_t) : M (Z * Z) :=
  aw_fel_write (words_to_bytes stackinfo_code) (scratch_addr soc) 36 ;;
  aw_fel_execute (scratch_addr soc) ;;
  results <- aw_fel_read (u32 (scratch_addr soc + 0x24)) 8 ;;
  ret (le32toh_at results 0, le32toh_at results 1).

Definition aw_get_ttbr0 (soc : soc_info_t) : M Z :=
  aw_read_arm_cp_reg soc 15 0 2 0 0.
Definition aw_get_ttbcr (soc : soc_info_t) : M Z :=
  aw_read_arm_cp_reg soc 15 0 2 0 2.
Definition aw_get_dacr (soc : soc_info_t) : M Z :=
  aw_read_arm_cp_reg soc 15 0 3 0 0.
Definition aw_get_sctlr (soc : soc_info_t) : M Z :=
  aw_read_arm_cp_reg soc 15 0 1 0 0.
Definition aw_set_ttbr0 (soc : soc_info_t) (ttbr0 : Z) : M unit :=
  aw_write_arm_cp_reg soc 15 0 2 0 0 ttbr0.
Definition aw_set_ttbcr (soc : soc_info_t) (ttbcr : Z) : M unit :=
  aw_write_arm_cp_reg soc 15 0 2 0 2 ttbcr.
Definition aw_set_dacr (soc : soc_info_t) (dacr : Z) : M unit :=
  aw_write_arm_cp_reg soc 15 0 3 0 0 dacr.
Definition aw_set_sctlr (soc : soc_info_t) (sctlr : Z) : M unit :=
  aw_write_arm_cp_reg soc 15 0 1 0 0 sctlr.

(** ** The MMU translation table *)

Definition aw_generate_mmu_translation_table : list Z :=
  let tbl := map (fun i => Z.lor 0x00000DE2 (u32 (Z.shiftl i 20))) (range 0 4096) in
  let tbl := update (fun e => Z.lor e 0x1000) 0x000 tbl in
  update (fun e => Z.lor e 0x1000) 0xFFF tbl.

(** The mask of the SCTLR check: [~((0x7 << 11) | (1 << 6) | 1)]. *)
Definition SCTLR_MASK : Z :=
  not32 (Z.lor (Z.lor (Z.shiftl 0x7 11) (Z.shiftl 1 6)) 1).

(** The body of the sanity-check loop over the table read from the device. *)
Definition check_tt_entry (tbl : list Z) (i : Z) : M unit :=
  let e := nth (Z.to_nat i) tbl 0 in
  (if negb (Z.land (Z.shiftr e 1) 1 =? 1) || negb (Z.land (Z.shiftr e 18) 1 =? 0)
   then eprintf "MMU: not a section descriptor" ;; exit 1
   else ret tt) ;;
  (if negb (Z.shiftr e 20 =? i)
   then eprintf "MMU: not a direct mapping" ;; exit 1
   else ret tt).

Definition aw_backup_and_disable_mmu (soc : soc_info_t) : M (option (list Z)) :=
  sctlr <- aw_get_sctlr soc ;;
  (if negb (Z.land sctlr SCTLR_MASK =? 0x00C50038)
   then eprintf "Unexpected SCTLR (%08X)" ;; exit 1
   else ret tt) ;;
  if Z.land sctlr 1 =? 0
  then pr_info "MMU is not enabled by BROM" ;; ret None
  else
    dacr <- aw_get_dacr soc ;;
    (if negb (dacr =? 0x55555555)
     then eprintf "Unexpected DACR (%08X)" ;; exit 1
     else ret tt) ;;
    ttbcr <- aw_get_ttbcr soc ;;
    (if negb (ttbcr =? 0x00000000)
     then eprintf "Unexpected TTBCR (%08X)" ;; exit 1
     else ret tt) ;;
    ttbr0 <- aw_get_ttbr0 soc ;;
    (if negb (Z.land ttbr0 0x3FFF =? 0)
     then eprintf "Unexpected TTBR0 (%08X)" ;; exit 1
     else ret tt) ;;
    pr_info "Reading the MMU translation table from 0x%08X" ;;
    raw <- aw_fel_read ttbr0 (16 * 1024) ;;
    let tbl := bytes_to_words raw 4096 in
    for_each (check_tt_entry tbl) (range 0 4096) ;;
    pr_info "Disabling I-cache, MMU and branch prediction..." ;;
    aw_fel_write (words_to_bytes mmu_disable_code) (scratch_addr soc) 24 ;;
    aw_fel_execute (scratch_addr soc) ;;
    pr_info " done." ;;
    ret (Some tbl).

Definition DRAM_BASE : Z := 0x40000000.
Definition DRAM_SIZE : Z := 0x80000000.

(** [(7 << 12) | (1 << 3) | (1 << 2)]: the TEX, C and B bits of a section
    descriptor. *)
Definition TEXCB : Z := Z.lor (Z.lor (Z.shiftl 7 12) (Z.shiftl 1 3)) (Z.shiftl 1 2).

(** The two loops of [aw_restore_and_enable_mmu] that rewrite the table
    before it is converted to little-endian and uploaded. *)
Definition restore_dram_entry (tbl : list Z) (i : Z) : list Z :=
  let tbl := update (fun e => Z.land e (not32 TEXCB)) i tbl in
  update (fun e => Z.lor e (Z.shiftl 1 12)) i tbl.

Definition restore_rewrite (tbl : list Z) : list Z :=
  let tbl := foldl restore_dram_entry tbl
              (range (Z.shiftr DRAM_BASE 20)
                     (Z.shiftr (u32 (DRAM_BASE + DRAM_SIZE)) 20)) in
  let tbl := update (fun e => Z.land e (not32 TEXCB)) 0xFFF tbl in
  update (fun e => Z.lor e (Z.lor (Z.lor (Z.shiftl 1 12) (Z.shiftl 1 3))
                                  (Z.shiftl 1 2))) 0xFFF tbl.

Definition aw_restore_and_enable_mmu (soc : soc_info_t) (tbl : list Z) : M unit :=
  ttbr0 <- aw_get_ttbr0 soc ;;
  pr_info "Setting write-combine mapping for DRAM." ;;
  pr_info "Setting cached mapping for BROM." ;;
  let tbl := restore_rewrite tbl in
  pr_info "Writing back the MMU translation table." ;;
  aw_fel_write (words_to_bytes tbl) ttbr0 (16 * 1024) ;;
  pr_info "Enabling I-cache, MMU and branch prediction..." ;;
  aw_fel_write (words_to_bytes mmu_enable_code) (scratch_addr soc) 48 ;;
  aw_fel_execute (scratch_addr soc) ;;
  pr_info " done.".

(** ** The U-Boot image *)

Definition aw_fel_write_uboot_image (buf : list Z) (len : Z) : M unit :=
  if len <=? HEADER_SIZE then ret tt
  else
    let image_type := get_image_type buf len in
    (if image_type <=? IH_TYPE_INVALID
     then
       (if image_type =? IH_TYPE_INVALID
        then eprintf "Invalid U-Boot image: bad size or signature"
        else if image_type =? IH_TYPE_ARCH_MISMATCH
        then eprintf "Invalid U-Boot image: wrong architecture"
        else eprintf "Invalid U-Boot image: error code %d") ;;
       exit 1
     else ret tt) ;;
    (if negb (image_type =? IH_TYPE_FIRMWARE)
     then eprintf "U-Boot image type mismatch: expected IH_TYPE_FIRMWARE, got %02X" ;;
          exit 1
     else ret tt) ;;
    let data_size := be32toh_at buf 3 in
    let load_addr := be32toh_at buf 4 in
    (if negb (data_size =? sz (len - HEADER_SIZE))
     then eprintf "U-Boot image data size mismatch: expected %zu, got %u" ;;
          exit 1
     else ret tt) ;;
    pr_info "Writing image, %u bytes @ 0x%08X." ;;
    aw_write_buffer (drop (Z.to_nat HEADER_SIZE) buf) load_addr data_size false ;;
    set_uboot load_addr data_size.

(** ** Functions that need the SoC record *)

Section Loader.

(** [get_soc_info_from_version] (soc_info.c) and the words of
    fel-to-spl-thunk.h are not part of the sources: they are parameters. *)
Variable get_soc_info_from_version : aw_fel_version -> soc_info_t.
Variable fel_to_spl_thunk : list Z.

Definition aw_fel_get_soc_info : M soc_info_t :=
  w <- get_world ;;
  match soc_cache w with
  | Some s => ret s
  | None =>
      buf <- aw_fel_get_version ;;
      let s := get_soc_info_from_version buf in
      set_soc_cache s ;;
      ret s
  end.

(** The word count after the truncation at the head of [aw_fel_readl_n] and
    [aw_fel_writel_n]. *)
Definition truncate_count (who : string) (count : Z) : M Z :=
  if LCODE_MAX_WORDS <? count
  then eprintf who ;; ret LCODE_MAX_WORDS
  else ret count.

(** [aw_fel_readl_n(usb, addr, dst, count)]; the result is the list of
    words stored to [dst]. *)
Definition aw_fel_readl_n (addr count : Z) : M (list Z) :=
  if count =? 0 then ret []
  else
    count <- truncate_count
      "ERROR: Max. word count exceeded, truncating aw_fel_readl_n() transfer"
      count ;;
    soc <- aw_fel_get_soc_info ;;
    assert (LCODE_MAX_WORDS <? 256) ;;
    let arm_code := readl_code addr count in
    assert (4 * Z.of_nat (length arm_code) =? LCODE_ARM_SIZE) ;;
    aw_fel_write (words_to_bytes arm_code) (scratch_addr soc)
                 (4 * Z.of_nat (length arm_code)) ;;
    aw_fel_execute (scratch_addr soc) ;;
    buffer <- aw_fel_read (u32 (scratch_addr soc + LCODE_ARM_SIZE)) (4 * count) ;;
    ret (bytes_to_words buffer (Z.to_nat count)).

Definition aw_fel_readl (addr : Z) : M Z :=
  val <- aw_fel_readl_n addr 1 ;; ret (nth 0 val 0).

(** [uint32_t arm_code[LCODE_MAX_TOTAL]]: the code, then zeros, then the
    copy loop over the source buffer. *)
Definition writel_buffer (addr count : Z) (src : list Z) : list Z :=
  let arm_code :=
    writel_code addr count
    ++ repeat 0 (Z.to_nat (LCODE_MAX_TOTAL - LCODE_ARM_WORDS)) in
  foldl (fun a i => <[Z.to_nat (LCODE_ARM_WORDS + i) := nth (Z.to_nat i) src 0]> a)
        arm_code (range 0 count).

Definition aw_fel_writel_n (addr : Z) (src : list Z) (count : Z) : M unit :=
  if count =? 0 then ret tt
  else
    count <- truncate_count
      "ERROR: Max. word count exceeded, truncating aw_fel_writel_n() transfer"
      count ;;
    soc <- aw_fel_get_soc_info ;;
    assert (LCODE_MAX_WORDS <? 256) ;;
    let arm_code := writel_buffer addr count src in
    aw_fel_write (words_to_bytes arm_code) (scratch_addr soc)
                 ((LCODE_ARM_WORDS + count) * 4) ;;
    aw_fel_execute (scratch_addr soc).

Definition aw_fel_writel (addr val : Z) : M unit :=
  aw_fel_writel_n addr [val] 1.

(** The wrappers for large transfers: [while (count > 0)] with [count]
    decreasing by [n >= 1] in every round. *)
Equations? fel_readl_n (addr count : Z) : M (list Z)
    by wf (Z.to_nat count) lt :=
  fel_readl_n addr count with decide (0 < count) => {
    | left _ :=
        let n := if LCODE_MAX_WORDS <? count then LCODE_MAX_WORDS else count in
        d <- aw_fel_readl_n addr n ;;
        rest <- fel_readl_n (u32 (addr + n * 4)) (count - n) ;;
        ret (d ++ rest);
    | right _ := ret [] }.
Proof.
  subst n. unfold LCODE_MAX_WORDS, LCODE_MAX_TOTAL, LCODE_ARM_WORDS.
  destruct (_ <? _) eqn:E; [apply Z.ltb_lt in E|]; lia.
Qed.

Equations? fel_writel_n (addr : Z) (src : list Z) (count : Z) : M unit
    by wf (Z.to_nat count) lt :=
  fel_writel_n addr src count with decide (0 < count) => {
    | left _ :=
        let n := if LCODE_MAX_WORDS <? count then LCODE_MAX_WORDS else count in
        aw_fel_writel_n addr src n ;;
        fel_writel_n (u32 (addr + n * 4)) (drop (Z.to_nat n) src) (count - n);
    | right _ := ret tt }.
Proof.
  subst n. unfold LCODE_MAX_WORDS, LCODE_MAX_TOTAL, LCODE_ARM_WORDS.
  destruct (_ <? _) eqn:E; [apply Z.ltb_lt in E|]; lia.
Qed.

(** ** The SPL loader *)

Definition SPL_LEN_LIMIT : Z := 0x8000.

(** Lines 941-961: the eGON header, the length and the checksum.  The
    result is [spl_len]. *)
Definition spl_check_header (buf : list Z) (len : Z) : M Z :=
  (if (len <? 32)
      || negb (bool_decide (take 8 (drop 4 buf) = bytes_of_string "eGON.BT0"))
   then eprintf "SPL: eGON header is not found" ;; exit 1
   else ret tt) ;;
  let spl_checksum := u32 (2 * le32toh_at buf 3 - 0x5F0A6C39) in
  let spl_len := le32toh_at buf 4 in
  (if (len <? spl_len) || negb (spl_len mod 4 =? 0)
   then eprintf "SPL: bad length in the eGON header" ;; exit 1
   else ret tt) ;;
  let len := spl_len in
  let spl_checksum :=
    foldl (fun c i => u32 (c - le32toh_at buf i)) spl_checksum
          (seq 0 (Z.to_nat (len / 4))) in
  (if negb (spl_checksum =? 0)
   then eprintf "SPL: checksum check failed" ;; exit 1
   else ret tt) ;;
  ret spl_len.

(** Lines 971-993: back up the translation table, or set up a new one. *)
Definition spl_mmu_setup (soc : soc_info_t) : M (option (list Z)) :=
  tbl <- aw_backup_and_disable_mmu soc ;;
  match tbl with
  | Some t => ret (Some t)
  | None =>
      if negb (mmu_tt_addr soc =? 0)
      then
        (if negb (Z.land (mmu_tt_addr soc) 0x3FFF =? 0)
         then eprintf "SPL: 'mmu_tt_addr' must be 16K aligned" ;; exit 1
         else ret tt) ;;
        pr_info "Generating the new MMU translation table at 0x%08X" ;;
        aw_set_dacr soc 0x55555555 ;;
        aw_set_ttbcr soc 0x00000000 ;;
        aw_set_ttbr0 soc (mmu_tt_addr soc) ;;
        ret (Some aw_generate_mmu_translation_table)
      else ret None
  end.

(** The variables the upload loop works on: [cur_addr], [buf], [len],
    [spl_len_limit] and the loop counter [i]. *)
Record spl_cursor := mk_cursor {
  cur_addr : Z;
  cur_buf : list Z;
  cur_len : Z;
  spl_len_limit : Z;
  swap_i : nat
}.

(** One write of the loop: [tmp] bytes at [dest], then the cursor moves. *)
Definition spl_write (dest tmp : Z) (c : spl_cursor) : M spl_cursor :=
  let tmp := if cur_len c <? tmp then u32 (cur_len c) else tmp in
  aw_fel_write (cur_buf c) dest tmp ;;
  ret (mk_cursor (u32 (cur_addr c + tmp)) (drop (Z.to_nat tmp) (cur_buf c))
                 (cur_len c - tmp) (spl_len_limit c) (swap_i c)).

(** Lines 1001-1016: the two conditional writes of the loop body, first up
    to [buf1] at the cursor, then the swapped bytes at [buf2]. *)
Definition swap_entry (sb : sram_swap_buffers) (c : spl_cursor) : M spl_cursor :=
  c <- (if (0 <? cur_len c) && (cur_addr c <? buf1 sb)
        then spl_write (cur_addr c) (u32 (buf1 sb - cur_addr c)) c
        else ret c) ;;
  (if (0 <? cur_len c) && (cur_addr c =? buf1 sb)
   then spl_write (buf2 sb) (size sb) c
   else ret c).

(** Lines 995-1017: [for (i = 0; swap_buffers[i].size; i++)]. *)
Fixpoint spl_swap_loop (soc : soc_info_t) (swaps : list sram_swap_buffers)
    (c : spl_cursor) : M spl_cursor :=
  match swaps with
  | [] => ret c
  | sb :: swaps' =>
      if size sb =? 0 then ret c
      else
        let limit :=
          if (spl_addr soc <=? buf2 sb)
             && (buf2 sb <? u32 (spl_addr soc + spl_len_limit c))
          then u32 (buf2 sb - spl_addr soc)
          else spl_len_limit c in
        c <- swap_entry sb
               (mk_cursor (cur_addr c) (cur_buf c) (cur_len c) limit (swap_i c)) ;;
        spl_swap_loop soc swaps'
          (mk_cursor (cur_addr c) (cur_buf c) (cur_len c) (spl_len_limit c)
                     (S (swap_i c)))
  end.

(** Lines 995-1032: the loop, the size limit and the rest of the SPL. *)
Definition spl_upload (soc : soc_info_t) (swaps : list sram_swap_buffers)
    (buf : list Z) (spl_len : Z) : M spl_cursor :=
  c <- spl_swap_loop soc swaps
         (mk_cursor (spl_addr soc) buf spl_len SPL_LEN_LIMIT 0) ;;
  let limit :=
    if thunk_addr soc <? spl_len_limit c then thunk_addr soc
    else spl_len_limit c in
  (if limit <? spl_len
   then eprintf "SPL: too large (need %d, have %d)" ;; exit 1
   else ret tt) ;;
  (if 0 <? cur_len c
   then aw_fel_write (cur_buf c) (cur_addr c) (cur_len c)
   else ret tt) ;;
  ret c.

Definition swap_words (sb : sram_swap_buffers) : list Z :=
  [buf1 sb; buf2 sb; size sb].

(** Lines 1034-1058: the FEL-to-SPL thunk, followed by [spl_addr] and the
    first [i + 1] entries of the swap list (the last one is the sentinel). *)
Definition spl_thunk (soc : soc_info_t) (swaps : list sram_swap_buffers)
    (i : nat) : M unit :=
  let thunk_size' :=
    sz (4 * Z.of_nat (length fel_to_spl_thunk) + 4 + (Z.of_nat i + 1) * 12) in
  (if thunk_size soc <? thunk_size'
   then eprintf "SPL: bad thunk size (need %d, have %d)" ;; exit 1
   else ret tt) ;;
  let thunk_buf :=
    fel_to_spl_thunk ++ [spl_addr soc]
    ++ flat_map swap_words (take (S i) (swaps ++ [mk_swap 0 0 0])) in
  pr_info "=> Executing the SPL..." ;;
  aw_fel_write (words_to_bytes thunk_buf) (thunk_addr soc) thunk_size' ;;
  aw_fel_execute (thunk_addr soc) ;;
  pr_info " done.".

(** The 250 ms sleep after the thunk is not modelled. *)
Definition aw_fel_write_and_execute_spl (buf : list Z) (len : Z) : M unit :=
  soc <- aw_fel_get_soc_info ;;
  match swap_buffers soc with
  | None => eprintf "SPL: Unsupported SoC type" ;; exit 1
  | Some swaps =>
      spl_len <- spl_check_header buf len ;;
      (if needs_l2en soc
       then pr_info "Enabling the L2 cache" ;; aw_enable_l2_cache soc
       else ret tt) ;;
      sp <- aw_get_stackinfo soc ;;
      pr_info "Stack pointers: sp_irq=0x%08X, sp=0x%08X" ;;
      tbl <- spl_mmu_setup soc ;;
      c <- spl_upload soc swaps buf spl_len ;;
      spl_thunk soc swaps (swap_i c) ;;
      header_signature <- aw_fel_read (u32 (spl_addr soc + 4)) 8 ;;
      (if negb (bool_decide (header_signature = bytes_of_string "eGON.FEL"))
       then eprintf "SPL: failure code '%s'" ;; exit 1
       else ret tt) ;;
      match tbl with
      | Some t => aw_restore_and_enable_mmu soc t
      | None => ret tt
      end
  end.

Definition aw_fel_process_spl_and_uboot (buf : list Z) (size : Z) : M unit :=
  aw_fel_write_and_execute_spl buf size ;;
  if SPL_LEN_LIMIT <? size
  then aw_fel_write_uboot_image (drop (Z.to_nat SPL_LEN_LIMIT) buf)
                                (sz (size - SPL_LEN_LIMIT))
  else ret tt.

End Loader.

(** ** AW-USB transactions and FEL operations as seen on the bus *)

(** An AW-USB transaction: the 32-byte framing request, the payload in the
    direction the request names (no transfer for an empty payload), and the
    13-byte status. *)
Inductive aw_txn :=
| AwWrite (len : Z) (data : list Z)
| AwRead (len : Z).

Definition txn_events (t : aw_txn) : list usb_event :=
  match t with
  | AwWrite len data =>
      BulkOut (aw_usb_request AW_USB_WRITE len)
      :: (if len <=? 0 then [] else [BulkOut (take (Z.to_nat len) data)])
      ++ [BulkIn 13]
  | AwRead len =>
      BulkOut (aw_usb_request AW_USB_READ len)
      :: (if len <=? 0 then [] else [BulkIn (Z.to_nat len)])
      ++ [BulkIn 13]
  end.

Inductive fel_op :=
| FelVersion
| FelRead (offset len : Z)
| FelWrite (buf : list Z) (offset len : Z)
| FelExecute (offset : Z).

Definition run_fel_op (op : fel_op) : M unit :=
  match op with
  | FelVersion => aw_fel_get_version ;; ret tt
  | FelRead offset len => aw_fel_read offset len ;; ret tt
  | FelWrite buf offset len => aw_fel_write buf offset len
  | FelExecute offset => aw_fel_execute offset
  end.

(** The transactions of an operation: the request, the payload if the
    operation has one, the FEL status. *)
Definition fel_op_txns (op : fel_op) : list aw_txn :=
  match op with
  | FelVersion =>
      [AwWrite 16 (aw_fel_request AW_FEL_VERSION 0 0); AwRead 32; AwRead 8]
  | FelRead offset len =>
      [AwWrite 16 (aw_fel_request AW_FEL_1_READ offset len); AwRead len; AwRead 8]
  | FelWrite buf offset len =>
      [AwWrite 16 (aw_fel_request AW_FEL_1_WRITE offset len); AwWrite len buf;
       AwRead 8]
  | FelExecute offset =>
      [AwWrite 16 (aw_fel_request AW_FEL_1_EXEC offset 0); AwRead 8]
  end.

Definition fel_events (op : fel_op) : list usb_event :=
  flat_map txn_events (fel_op_txns op).

(** Framing requests in a log, by sub-request. *)
Definition is_framing (type : Z) (e : usb_event) : bool :=
  match e with
  | BulkOut d =>
      bool_decide (length d = 32%nat)
      && bool_decide (take 4 d = bytes_of_string "AWUC")
      && bool_decide (take 2 (drop 16 d) = htole16 type)
  | BulkIn _ => false
  end.

Definition count_framing (type : Z) (log : list usb_event) : nat :=
  length (filter (fun e => is_framing type e = true) log).

(** ** A device that answers *)

(** What a device in FEL mode sends back during one operation: the AW-USB
    status after every transaction, the payload of a read, and the 8-byte FEL
    status. *)
Definition awus : list Z := bytes_of_string "AWUS" ++ repeat 0 9.
Definition fel_status : list Z := repeat 0 8.

Definition reply_write : list Z := awus ++ awus ++ fel_status ++ awus.
Definition reply_exec : list Z := awus ++ fel_status ++ awus.
Definition reply_read (data : list Z) : list Z :=
  awus ++ data ++ awus ++ fel_status ++ awus.

(** The answers to a coprocessor register read. *)
Definition reply_cp_read (val : Z) : list Z :=
  reply_write ++ reply_exec ++ reply_read (htole32 val).
Definition reply_cp_write : list Z := reply_write ++ reply_exec.

(** A world in which nothing has happened yet and the device will send
    [input]. *)
Definition initial_world (cache : option soc_info_t) (input : list Z) : world :=
  mk_world 0 0 false cache input [] [] [].

(** The A10 entry of the SoC table, for examples. *)
Definition a10_swap_buffers : list sram_swap_buffers :=
  [ mk_swap 0x1C00 0xA400 0x0400;
    mk_swap 0x5C00 0xA800 0x1400;
    mk_swap 0x7C00 0xBC00 0x0400;
    mk_swap 0 0 0 ].

Definition a10_soc_info : soc_info_t :=
  mk_soc 0x1623 0 0x1000 0xA200 0x200 false 0 0x01C23800 0
         (Some a10_swap_buffers).


(** ** The overwrite guard, in words *)

(** A mkimage firmware image for ARM: the 64-byte header (magic, data size
    at word 3, load address at word 4, architecture and type at bytes 29 and
    30) and the data. *)
Definition be32 (x : Z) : list Z :=
  [Z.land (Z.shiftr x 24) 255; Z.land (Z.shiftr x 16) 255;
   Z.land (Z.shiftr x 8) 255; Z.land x 255].

Definition uboot_image (load_addr : Z) (data : list Z) : list Z :=
  be32 IH_MAGIC ++ repeat 0 8 ++ be32 (Z.of_nat (length data)) ++ be32 load_addr
  ++ repeat 0 8 ++ [0; IH_ARCH_ARM; IH_TYPE_FIRMWARE; 0] ++ repeat 0 32 ++ data.

(** Two address ranges [a, a + alen) and [b, b + blen) have a byte in
    common. *)
Definition ranges_intersect (a alen b blen : Z) : Prop :=
  exists x, a <= x < a + alen /\ b <= x < b + blen.

Definition overwrite_message : string :=
  "ERROR: Attempt to overwrite U-Boot! Request 0x%08X-0x%08X overlaps 0x%08X-0x%08X.".

(** What a rejected write looks like: exit status 1, the message on stderr,
    and nothing on the bus. *)
Definition rejected (r : result unit * world) (w : world) : Prop :=
  fst r = Exit 1
  /\ usb_log (snd r) = usb_log w /\ dev_in (snd r) = dev_in w
  /\ err_log (snd r) = err_log w ++ [overwrite_message].

(** ** Section descriptors, in words *)

(** ** Bits of section descriptors *)
Definition texcb_bit (n : Z) : bool :=
  (n =? 2) || (n =? 3) || (n =? 12) || (n =? 13) || (n =? 14).

(** A first-level descriptor of the shape the backup path accepts at index
    [i]: a section (bit 1 set, bit 18 clear) that maps megabyte [i] to
    itself. *)
Definition section_shape (i e : Z) : Prop :=
  Z.land (Z.shiftr e 1) 1 = 1 /\ Z.land (Z.shiftr e 18) 1 = 0 /\
  Z.shiftr e 20 = i.

Definition table_shape (tbl : list Z) : Prop :=
  forall i, 0 <= i < 4096 -> section_shape i (nth (Z.to_nat i) tbl 0).

(** What the restore path does to the entry at index [i]. *)
Definition dram_entry (e : Z) : Z :=
  Z.lor (Z.land e (not32 TEXCB)) (Z.shiftl 1 12).

Definition brom_entry (e : Z) : Z :=
  Z.lor (Z.land e (not32 TEXCB))
        (Z.lor (Z.lor (Z.shiftl 1 12) (Z.shiftl 1 3)) (Z.shiftl 1 2)).

Definition restore_entry (i e : Z) : Z :=
  if (0x400 <=? i) && (i <? 0xC00) then dram_entry e
  else if i =? 0xFFF then brom_entry e
  else e.

Definition section_shapeb (i e : Z) : bool :=
  (Z.land (Z.shiftr e 1) 1 =? 1) && (Z.land (Z.shiftr e 18) 1 =? 0)
  && (Z.shiftr e 20 =? i).

Definition table_shapeb (tbl : list Z) : bool :=
  forallb (fun i => section_shapeb i (nth (Z.to_nat i) tbl 0)) (range 0 4096).

(** The entry of the flat table for megabyte [i]: a section with domain
    15 and AP 11 that maps the megabyte to itself, TEX, C and B all 0. *)
Definition flat_entry (i : Z) : Z := Z.lor 0x00000DE2 (Z.shiftl i 20).

(** ** Coprocessor accesses as seen on the bus *)



(** Reading one: the thunk is written and executed, and the word it stored
    behind itself is read back. *)
Definition get_cp_events (soc : soc_info_t) (coproc opc1 crn crm opc2 : Z)
    : list usb_event :=
  fel_events (FelWrite (words_to_bytes (mrc_code coproc opc1 crn crm opc2))
                       (scratch_addr soc) 12)
  ++ fel_events (FelExecute (scratch_addr soc))
  ++ fel_events (FelRead (u32 (scratch_addr soc + 12)) 4).

(** A SoC whose boot ROM leaves the MMU off and whose record names a place
    for a translation table, for examples. *)
Definition mmu_off_soc_info : soc_info_t :=
  mk_soc 0x1689 0x10000 0x11000 0x1A200 0x200 false 0x44000 0x01C14200
         0x017000A0
         (Some [mk_swap 0x11800 0x18000 0x800; mk_swap 0x15C00 0x18800 0x8000;
                mk_swap 0 0 0]).

(** A device whose SCTLR reads 0x00C50038 (MMU off) and that goes along
    with three coprocessor register writes. *)
Definition mmu_off_world : world :=
  initial_world None
    (reply_cp_read 0x00C50038 ++ reply_cp_write ++ reply_cp_write
     ++ reply_cp_write).

(** ** Fatal exits *)

(** [fatal r w]: the run [r] ended in [exit(1)] after printing one more
    line on stderr, and nothing was transferred after the state [w]. *)
Definition fatal {A} (r : result A * world) (w : world) : Prop :=
  fst r = Exit 1
  /\ usb_log (snd r) = usb_log w /\ dev_in (snd r) = dev_in w
  /\ exists msg, err_log (snd r) = err_log w ++ [msg].

(** [quiet r w]: the run ended without any transfer after the state [w]. *)
Definition quiet {A} (r : result A * world) (w : world) : Prop :=
  usb_log (snd r) = usb_log w /\ dev_in (snd r) = dev_in w.

(** A device with the MMU on: SCTLR, DACR, TTBCR and TTBR0 read as the boot
    ROM of an A10 leaves them, the table at 0x20000 is a flat one, and the
    thunk that turns the MMU off is accepted. *)
Definition mmu_on_world : world :=
  initial_world None
    (reply_cp_read 0x00C51839 ++ reply_cp_read 0x55555555 ++ reply_cp_read 0
     ++ reply_cp_read 0x20000
     ++ reply_read (words_to_bytes aw_generate_mmu_translation_table)
     ++ reply_write ++ reply_exec).

(** ** The eGON header, in words *)

(** The sum of the first [n] little-endian words of a buffer. *)
Definition sum_words (buf : list Z) (n : nat) : Z :=
  fold_right Z.add 0 (bytes_to_words buf n).

(** What the loader asks of an SPL of [len] bytes: the tag, a length that
    fits and is a multiple of 4, and the checksum. *)
Definition egon_valid (buf : list Z) (len : Z) : Prop :=
  32 <= len
  /\ take 8 (drop 4 buf) = bytes_of_string "eGON.BT0"
  /\ le32toh_at buf 4 <= len
  /\ le32toh_at buf 4 mod 4 = 0
  /\ (2 * le32toh_at buf 3 - 0x5F0A6C39
      - sum_words buf (Z.to_nat (le32toh_at buf 4 / 4))) mod 2 ^ 32 = 0.

Definition egon_validb (buf : list Z) (len : Z) : bool :=
  (32 <=? len)
  && bool_decide (take 8 (drop 4 buf) = bytes_of_string "eGON.BT0")
  && (le32toh_at buf 4 <=? len)
  && (le32toh_at buf 4 mod 4 =? 0)
  && ((2 * le32toh_at buf 3 - 0x5F0A6C39
       - sum_words buf (Z.to_nat (le32toh_at buf 4 / 4))) mod 2 ^ 32 =? 0).

(** ** The upload through the swap buffers, in words *)

(** A write of [bytes] at [dest]; nothing is sent for no bytes. *)
Definition write_item (dest : Z) (bytes : list Z) : list (Z * list Z) :=
  match bytes with
  | [] => []
  | _ => [(dest, bytes)]
  end.

(** The swap entries in order, on the bytes [spl] still to be written and
    the cursor [cur]: the bytes up to [buf1] go to the cursor, the next
    [size] bytes (or what is left of them) go to [buf2], and the cursor
    moves past [buf1] by that amount.  The result is the writes, the cursor
    and the bytes left after the list. *)
Fixpoint loop_plan (swaps : list sram_swap_buffers) (cur : Z) (spl : list Z)
    : list (Z * list Z) * (Z * list Z) :=
  match swaps with
  | [] => ([], (cur, spl))
  | sb :: swaps' =>
      if size sb =? 0 then ([], (cur, spl))
      else
        let head := take (Z.to_nat (buf1 sb - cur)) spl in
        let spl := drop (Z.to_nat (buf1 sb - cur)) spl in
        let swapped := take (Z.to_nat (size sb)) spl in
        let spl := drop (Z.to_nat (size sb)) spl in
        let '(ws, fin) :=
          loop_plan swaps' (buf1 sb + Z.of_nat (length swapped)) spl in
        (write_item cur head ++ write_item (buf2 sb) swapped ++ ws, fin)
  end.


Definition plan_events (plan : list (Z * list Z)) : list usb_event :=
  flat_map (fun item =>
              fel_events (FelWrite (snd item) (fst item)
                                   (Z.of_nat (length (snd item)))))
           plan.

(** The entries up to the sentinel are in ascending order from [lo] on and
    do not overlap: every [buf1] is at or after the end of the entry before
    it. *)
Fixpoint swaps_ascending (lo : Z) (swaps : list sram_swap_buffers) : Prop :=
  match swaps with
  | [] => True
  | sb :: swaps' =>
      size sb = 0
      \/ (lo <= buf1 sb /\ 0 < size sb /\ buf1 sb + size sb < 2 ^ 32
          /\ swaps_ascending (buf1 sb + size sb) swaps')
  end.

(** The size limit that [spl_upload] arrives at: the swap entries, then
    the thunk. *)
Fixpoint swap_limit (soc : soc_info_t) (swaps : list sram_swap_buffers)
    (limit : Z) : Z :=
  match swaps with
  | [] => limit
  | sb :: swaps' =>
      if size sb =? 0 then limit
      else swap_limit soc swaps'
             (if (spl_addr soc <=? buf2 sb)
                 && (buf2 sb <? u32 (spl_addr soc + limit))
              then u32 (buf2 sb - spl_addr soc) else limit)
  end.

Definition upload_limit (soc : soc_info_t) (swaps : list sram_swap_buffers) : Z :=
  let limit := swap_limit soc swaps SPL_LEN_LIMIT in
  if thunk_addr soc <? limit then thunk_addr soc else limit.

(** The SoC of the swap-buffer scenario: SPL at 0 and one swap entry. *)
Definition one_swap : list sram_swap_buffers :=
  [mk_swap 0x2000 0xA000 0x400; mk_swap 0 0 0].

Definition one_swap_soc_info : soc_info_t :=
  mk_soc 0x1625 0 0x1000 0xB000 0x200 false 0 0x01C23800 0 (Some one_swap).


(** An SPL image of [len] bytes (a multiple of 4, at least 32) filled with
    [fill], with its eGON header and checksum. *)
Definition egon_image (len : Z) (fill : Z) : list Z :=
  let blank :=
    htole32 0xea000016 ++ bytes_of_string "eGON.BT0" ++ htole32 0
    ++ htole32 len ++ repeat fill (Z.to_nat (len - 20)) in
  let stored := u32 (0x5F0A6C39 + sum_words blank (Z.to_nat (len / 4))) in
  htole32 0xea000016 ++ bytes_of_string "eGON.BT0" ++ htole32 stored
  ++ htole32 len ++ repeat fill (Z.to_nat (len - 20)).


(** ** Large transfers, in words *)

(** The rounds of a transfer of [count] words from [addr] on: round [k]
    moves the words [244 * k] and following, at most 244 of them.  A round
    is its address and its word count. *)
Definition rounds (addr count : Z) : list (Z * Z) :=
  map (fun k => (u32 (addr + 4 * (LCODE_MAX_WORDS * k)),
                 Z.min LCODE_MAX_WORDS (count - LCODE_MAX_WORDS * k)))
      (range 0 ((count + LCODE_MAX_WORDS - 1) / LCODE_MAX_WORDS)).

(** The addresses of the words of one round, and of a whole transfer. *)
Definition word_addrs (addr count : Z) : list Z :=
  map (fun j => u32 (addr + 4 * j)) (range 0 count).

Definition round_addrs (r : Z * Z) : list Z := word_addrs (fst r) (snd r).

(** The words each round takes from the source buffer of a write. *)
Fixpoint rounds_data (rs : list (Z * Z)) (src : list Z) : list (list Z) :=
  match rs with
  | [] => []
  | r :: rs' =>
      take (Z.to_nat (snd r)) src :: rounds_data rs' (drop (Z.to_nat (snd r)) src)
  end.

Section Rounds.
Variable get_soc_info_from_version : aw_fel_version -> soc_info_t.

(** The rounds one after the other, each a call of [aw_fel_readl_n] or
    [aw_fel_writel_n]. *)
Fixpoint read_rounds (rs : list (Z * Z)) : M (list Z) :=
  match rs with
  | [] => ret []
  | r :: rs' =>
      d <- aw_fel_readl_n get_soc_info_from_version (fst r) (snd r) ;;
      rest <- read_rounds rs' ;;
      ret (d ++ rest)
  end.

Fixpoint write_rounds (rs : list (Z * Z)) (src : list Z) : M unit :=
  match rs with
  | [] => ret tt
  | r :: rs' =>
      aw_fel_writel_n get_soc_info_from_version (fst r) src (snd r) ;;
      write_rounds rs' (drop (Z.to_nat (snd r)) src)
  end.
End Rounds.

(** ** What a run does *)

(** The process-wide variables and [stderr] are where they were. *)
Definition same_host (w w' : world) : Prop :=
  uboot_entry w' = uboot_entry w /\ uboot_size w' = uboot_size w /\
  verbose w' = verbose w /\ soc_cache w' = soc_cache w /\
  err_log w' = err_log w.

(** [does p evs]: whenever [p] runs to completion, it has performed the
    bulk transfers [evs], in this order and no others, and has left the
    process-wide variables alone. *)
Definition does {A} (p : M A) (evs : list usb_event) : Prop :=
  forall w a w', p w = (Ok a, w') ->
    usb_log w' = usb_log w ++ evs /\ same_host w w'.

(** [returns p v]: whenever [p] runs to completion, its result is [v]. *)
Definition returns {A} (p : M A) (v : A) : Prop :=
  forall w a w', p w = (Ok a, w') -> a = v.

(** ** Word transfers through the scratch area, in words *)

(** What resolving the SoC record costs on the bus: a version request the
    first time, nothing once the record is cached. *)
Definition probe_events (w : world) : list usb_event :=
  match soc_cache w with
  | Some _ => []
  | None => fel_events FelVersion
  end.

Definition readl_warning : string :=
  "ERROR: Max. word count exceeded, truncating aw_fel_readl_n() transfer".
Definition writel_warning : string :=
  "ERROR: Max. word count exceeded, truncating aw_fel_writel_n() transfer".

(** [only_usb_exit p]: if [p] ends in [exit], the status is 2, that of a
    failed USB transfer. *)
Definition only_usb_exit {A} (p : M A) : Prop :=
  forall w c w', p w = (Exit c, w') -> c = 2.

(** The transfers of one [aw_fel_readl_n] of [n] words once the SoC record
    is known: the 12 code words uploaded to [scratch_addr], the execute, and
    [n] words read back from right behind the code. *)
Definition readl_events (soc : soc_info_t) (addr n : Z) : list usb_event :=
  fel_events (FelWrite (words_to_bytes (readl_code addr n)) (scratch_addr soc)
                       LCODE_ARM_SIZE)
  ++ fel_events (FelExecute (scratch_addr soc))
  ++ fel_events (FelRead (u32 (scratch_addr soc + LCODE_ARM_SIZE)) (4 * n)).

(** The scratch image of one [aw_fel_writel_n] of [n] words: the 12 code
    words and the first [n] words of [src]. *)
Definition writel_payload (addr n : Z) (src : list Z) : list Z :=
  words_to_bytes (writel_code addr n ++ take (Z.to_nat n) src).

Definition writel_events (soc : soc_info_t) (addr : Z) (src : list Z) (n : Z)
    : list usb_event :=
  fel_events (FelWrite (writel_payload addr n src) (scratch_addr soc)
                       (4 * (LCODE_ARM_WORDS + n)))
  ++ fel_events (FelExecute (scratch_addr soc)).

(** [upto p evs]: however [p] ends, the bulk transfers it has performed are
    an initial part of [evs], and [stderr] has only grown. *)
Definition upto {A} (p : M A) (evs : list usb_event) : Prop :=
  forall w r w', p w = (r, w') ->
    (exists k, usb_log w' = usb_log w ++ take k evs)
    /\ (exists msgs, err_log w' = err_log w ++ msgs).

(** The warning of a truncated transfer. *)
Definition truncation (count : Z) (msg : string) : list string :=
  if LCODE_MAX_WORDS <? count then [msg] else [].

(** What a run of [aw_fel_readl_n] or [aw_fel_writel_n] from [w] looks like,
    however it ends in [r] and [w']: the transfers on the bus are an initial
    part of the probe followed by the transfers [evs soc] of the SoC record
    in use, and [stderr] has the warning [warn] before anything else; a run
    that returns has performed all of them and printed nothing more. *)
Definition scratch_run {A} (evs : soc_info_t -> list usb_event)
    (warn : list string) (w : world) (r : result A) (w' : world) : Prop :=
  exists soc k msgs,
    (forall s, soc_cache w = Some s -> soc = s)
    /\ usb_log w' = usb_log w ++ take k (probe_events w ++ evs soc)
    /\ err_log w' = err_log w ++ warn ++ msgs
    /\ (forall v, r = Ok v ->
          soc_cache w' = Some soc
          /\ usb_log w' = usb_log w ++ probe_events w ++ evs soc
          /\ msgs = []).

(** A device that accepts one upload to the scratch area and one execute,
    on a host that knows its SoC. *)
Definition scratch_write_world : world :=
  initial_world (Some a10_soc_info) (reply_write ++ reply_exec).

(** * The commands of the tool *)

(** ** Formatted output *)

(** The newline that ends a line of output. *)
Definition nl : string := String (ascii_of_nat 10) EmptyString.

Definition hex_digit (d : Z) : ascii :=
  nth (Z.to_nat d) (list_ascii_of_string "0123456789abcdef") "0"%char.

(** The [k] low hexadecimal digits of [n], most significant first. *)
Fixpoint hex_fixed (k : nat) (n : Z) : string :=
  match k with
  | O => EmptyString
  | S k' => String.append (hex_fixed k' (n / 16))
                          (String (hex_digit (n mod 16)) EmptyString)
  end.

(** The number of hexadecimal digits of [n]; one digit for 0. *)
Definition hex_width (n : Z) : nat :=
  if n <=? 0 then 1%nat else Z.to_nat (Z.log2 n / 4 + 1).

(** [%0kx] of an unsigned value: its digits, padded with zeros to at least
    [k] of them. *)
Definition hex_min (k : nat) (n : Z) : string :=
  hex_fixed (Nat.max k (hex_width n)) n.

(** [isprint] in the "C" locale; the program never calls [setlocale]. *)
Definition isprint (c : Z) : bool := (0x20 <=? c) && (c <=? 0x7E).

Definition char_of_byte (c : Z) : string :=
  String (ascii_of_N (Z.to_N c)) EmptyString.

(** The pieces a line is printed in, one after the other. *)
Definition pieces (l : list string) : string := String.concat EmptyString l.

(** The two columns of a line of [hexdump] for the offset [j]: the 16 byte
    slots and the 16 character slots. *)
Definition hex_slot (data : list Z) (size j i : Z) : string :=
  if j + i <? size
  then String.append (hex_min 2 (nth (Z.to_nat (j + i)) data 0)) " "
  else "__ "%string.

Definition char_slot (data : list Z) (size j i : Z) : string :=
  if size <=? j + i then "."%string
  else if isprint (nth (Z.to_nat (j + i)) data 0)
       then char_of_byte (nth (Z.to_nat (j + i)) data 0)
       else "."%string.

(** One line of [hexdump]: the text written by the body of its outer loop
    for the offset [j]. *)
Definition hexdump_line (data : list Z) (offset size j : Z) : string :=
  pieces ([String.append (hex_min 8 (sz (offset + j))) ": "]
          ++ map (hex_slot data size j) (range 0 16)
          ++ [" "%string]
          ++ map (char_slot data size j) (range 0 16)
          ++ [nl]).

(** [hexdump(data, offset, size)]: [for (j = 0; j < size; j += 16)], from
    [j] on.  What one round of the loop writes to [stdout] is one entry of
    [out_log]. *)
Equations? hexdump_from (data : list Z) (offset size j : Z) : M unit
    by wf (Z.to_nat (size - j)) lt :=
  hexdump_from data offset size j with decide (j < size) => {
    | left _ :=
        printf (hexdump_line data offset size j) ;;
        hexdump_from data offset size (j + 16);
    | right _ := ret tt }.
Proof. lia. Qed.

Definition hexdump (data : list Z) (offset size : Z) : M unit :=
  hexdump_from data offset size 0.

Definition aw_fel_hexdump (offset size : Z) : M unit :=
  buf <- aw_fel_read offset size ;;
  hexdump buf offset size.

(** The characters of a byte buffer, and [%.8s]: those before the first
    NUL among the first eight. *)
Definition string_of_bytes (l : list Z) : string :=
  fold_right (fun b s => String (ascii_of_N (Z.to_N b)) s) EmptyString l.

Fixpoint until_nul (l : list Z) : list Z :=
  match l with
  | [] => []
  | b :: l' => if b =? 0 then [] else b :: until_nul l'
  end.

(** [aw_fel_dump]: [fwrite] of the bytes read; nothing is written for no
    bytes. *)
Definition aw_fel_dump (offset size : Z) : M unit :=
  buf <- aw_fel_read offset size ;;
  if size =? 0 then ret tt else printf (string_of_bytes buf).

(** The [switch] of [aw_fel_print_version]. *)
Definition soc_name (soc_id : Z) : string :=
  if soc_id =? 0x1623 then "A10"
  else if soc_id =? 0x1625 then "A13"
  else if soc_id =? 0x1633 then "A31"
  else if soc_id =? 0x1651 then "A20"
  else if soc_id =? 0x1650 then "A23"
  else if soc_id =? 0x1689 then "A64"
  else if soc_id =? 0x1639 then "A80"
  else if soc_id =? 0x1667 then "A33"
  else if soc_id =? 0x1673 then "A83T"
  else if soc_id =? 0x1680 then "H3"
  else if soc_id =? 0x1718 then "H5"
  else "unknown".

Definition aw_fel_print_version : M unit :=
  buf <- aw_fel_get_version ;;
  printf (pieces
    [ string_of_bytes (until_nul (take 8 (v_signature buf)));
      " soc="%string; hex_min 8 (v_soc_id buf);
      "("%string; soc_name (v_soc_id buf); ") "%string;
      hex_min 8 (v_unknown_0a buf);
      " ver="%string; hex_min 4 (v_protocol buf);
      " "%string; hex_min 2 (v_unknown_12 buf);
      " "%string; hex_min 2 (v_unknown_13 buf);
      " scratchpad="%string; hex_min 8 (v_scratchpad buf);
      " "%string; hex_min 8 (v_pad0 buf);
      " "%string; hex_min 8 (v_pad1 buf); nl ]).

(** [aw_fel_fill]: a buffer of [size] bytes set to [value] by [memset], then
    the guarded write. *)
Definition aw_fel_fill (offset size value : Z) : M unit :=
  aw_write_buffer (repeat value (Z.to_nat size)) offset size false.

(** ** Passing boot information through the SPL header *)

Definition IH_TYPE_SCRIPT : Z := 6.
Definition SPL_MIN_VERSION : Z := 1.
Definition SPL_MAX_VERSION : Z := 1.

Definition have_sunxi_spl (spl_addr : Z) : M bool :=
  spl_signature <- aw_fel_read (u32 (spl_addr + 0x14)) 4 ;;
  if negb (bool_decide (take 3 spl_signature = bytes_of_string "SPL"))
  then ret false
  else if nth 3 spl_signature 0 <? SPL_MIN_VERSION
  then
    eprintf "sunxi SPL version mismatch: found 0x%02X < required minimum 0x%02X" ;;
    eprintf "You need to update your U-Boot (mksunxiboot) to a more recent version." ;;
    ret false
  else if SPL_MAX_VERSION <? nth 3 spl_signature 0
  then
    eprintf "sunxi SPL version mismatch: found 0x%02X > maximum supported 0x%02X" ;;
    eprintf "You need a more recent version of this (sunxi-tools) fel utility." ;;
    ret false
  else ret true.

(** [is_uEnv]: the magic of a uEnv.txt-style file. *)
Definition is_uEnv (buffer : list Z) (size : Z) : bool :=
  if size <=? 6 then false
  else bool_decide (take 6 buffer = bytes_of_string "#=uEnv").

(** The thunk of [aw_rmr_request], its three parameters in the last words. *)
Definition rmr_code (rvbar_reg entry_point rmr_mode : Z) : list Z :=
  [ 0xe59f0028;   (* ldr r0, [rvbar_reg] *)
    0xe59f1028;   (* ldr r1, [entry_point] *)
    0xe5801000;   (* str r1, [r0] *)
    0xf57ff04f;   (* dsb sy *)
    0xf57ff06f;   (* isb sy *)
    0xe59f101c;   (* ldr r1, [rmr_mode] *)
    0xee1c0f50;   (* mrc 15, 0, r0, cr12, cr0, {2} *)
    0xe1800001;   (* orr r0, r0, r1 *)
    0xee0c0f50;   (* mcr 15, 0, r0, cr12, cr0, {2} *)
    0xf57ff06f;   (* isb sy *)
    0xe320f003;   (* loop: wfi *)
    0xeafffffd;   (* b <loop> *)
    rvbar_reg;
    entry_point;
    rmr_mode ].

(** The format of the error message of [aw_rmr_request], two lines in one
    [fprintf]. *)
Definition rmr_message : string :=
  pieces [ "ERROR: Can't issue RMR request!"%string; nl;
           "RVBAR is not supported or unknown for your SoC (id=%04X)."%string ].

Section Commands.

Variable get_soc_info_from_version : aw_fel_version -> soc_info_t.

Definition pass_fel_information (script_address uEnv_length : Z) : M unit :=
  soc <- aw_fel_get_soc_info get_soc_info_from_version ;;
  b <- have_sunxi_spl (spl_addr soc) ;;
  if b
  then
    pr_info "Passing boot info via sunxi SPL: script address = 0x%08X, uEnv length = %u" ;;
    aw_fel_write (words_to_bytes [script_address; uEnv_length])
                 (u32 (spl_addr soc + 0x18)) 8
  else ret tt.

Definition aw_rmr_request (entry_point : Z) (aarch64 : bool) : M unit :=
  soc <- aw_fel_get_soc_info get_soc_info_from_version ;;
  if rvbar_reg soc =? 0
  then
    eprintf rmr_message
  else
    let rmr_mode := Z.lor (Z.shiftl 1 1) (if aarch64 then 1 else 0) in
    let arm_code := rmr_code (rvbar_reg soc) entry_point rmr_mode in
    aw_fel_write (words_to_bytes arm_code) (scratch_addr soc)
                 (4 * Z.of_nat (length arm_code)) ;;
    pr_info "Store entry point 0x%08X to RVBAR 0x%08X, and request warm reset with RMR mode %u..." ;;
    aw_fel_execute (scratch_addr soc) ;;
    pr_info " done.".

(** [aw_fel_print_sid]: the four words of the SID, [%08x] each, with colons
    between them. *)
Definition aw_fel_print_sid : M unit :=
  soc <- aw_fel_get_soc_info get_soc_info_from_version ;;
  if negb (sid_addr soc =? 0)
  then
    pr_info "SID key (e-fuses) at 0x%08X" ;;
    key <- aw_fel_readl_n get_soc_info_from_version (sid_addr soc) 4 ;;
    for_each (fun i => printf (String.append (hex_min 8 (nth (Z.to_nat i) key 0))
                                             (if i <? 3 then ":"%string else nl)))
             (range 0 4)
  else
    printf "SID registers for your SoC (id=%04X) are unknown or inaccessible.".

(** The body of the transfer loop of [file_upload] for one file, given by
    the address parsed from its argument and by its contents as [load_file]
    returns them. *)
Definition upload_one (progress : bool) (file : Z * list Z) : M unit :=
  let offset := fst file in
  let buf := snd file in
  let size := Z.of_nat (length buf) in
  if 0 <? size
  then
    aw_write_buffer buf offset size progress ;;
    (if get_image_type buf size =? IH_TYPE_SCRIPT
     then pass_fel_information offset 0
     else ret tt) ;;
    (if is_uEnv buf size
     then pass_fel_information offset (u32 size)
     else ret tt)
  else ret tt.

(** [file_upload(handle, count, argc, argv, callback)] on files that exist:
    [files] are the pairs of [argv], address first.  The sizes that
    [file_size] adds up only feed the progress display, which is not
    modelled.  The result is the number of files processed, the loop
    counter after [count] rounds, for a [count] in the range of that
    counter, below 2^32. *)
Definition file_upload (count argc : Z) (files : list (Z * list Z))
    (progress : bool) : M Z :=
  if argc <? sz (count * 2)
  then eprintf "error: too few arguments for uploading %zu files" ;; exit 1
  else
    for_each (upload_one progress) (take (Z.to_nat count) files) ;;
    ret count.

End Commands.

(** ** What a run leaves alone *)

(** [steady p]: however [p] ends, the recorded U-Boot region and the
    verbosity are what they were, and a SoC record that was cached still
    is. *)
Definition steady_step (w w' : world) : Prop :=
  uboot_entry w' = uboot_entry w /\ uboot_size w' = uboot_size w
  /\ verbose w' = verbose w
  /\ (forall s, soc_cache w = Some s -> soc_cache w' = Some s).

Definition steady {A} (p : M A) : Prop :=
  forall w r w', p w = (r, w') -> steady_step w w'.

(** [silent p]: with [verbose] off, [p] writes nothing to [stdout]. *)
Definition silent {A} (p : M A) : Prop :=
  forall w r w', p w = (r, w') -> verbose w = false ->
    out_log w' = out_log w /\ verbose w' = false.

(** ** The U-Boot image, in words *)

(** The header the loader accepts in a buffer of [len] bytes: the mkimage
    magic, the ARM architecture, the firmware type, and a data size that is
    exactly what follows the 64 bytes of the header. *)
Definition firmware_header (buf : list Z) (len : Z) : Prop :=
  be32toh_at buf 0 = IH_MAGIC
  /\ nth 29 buf 0 = IH_ARCH_ARM
  /\ nth 30 buf 0 = IH_TYPE_FIRMWARE
  /\ be32toh_at buf 3 = sz (len - HEADER_SIZE).

(** An image of four data bytes for 0x4A000000 and what the device says to
    its upload. *)
Definition small_image : list Z := uboot_image 0x4A000000 [1; 2; 3; 4].
Definition small_image_world : world := initial_world None reply_write.

(** A host that has recorded a U-Boot of 0x80000 bytes at 0x4A000000, and a
    device that accepts one write. *)
Definition loaded_world : world :=
  mk_world 0x4A000000 0x80000 false None reply_write [] [] [].

(** The 13 bytes of an AW-USB status that [aw_read_usb_response] accepts:
    the tag, the NUL after it, and eight bytes that are not looked at. *)
Definition awus_ok (r : list Z) : Prop :=
  length r = 13%nat /\ take 5 r = bytes_of_string "AWUS" ++ [0].

(** The state after [n] more bytes were taken from the device, in one bulk
    transfer. *)
Definition after_in (n : nat) (w : world) : world :=
  mk_world (uboot_entry w) (uboot_size w) (verbose w) (soc_cache w)
           (drop n (dev_in w)) (usb_log w ++ [BulkIn n]) (err_log w) (out_log w).

Definition after_out (data : list Z) (w : world) : world :=
  mk_world (uboot_entry w) (uboot_size w) (verbose w) (soc_cache w)
           (dev_in w) (usb_log w ++ [BulkOut data]) (err_log w) (out_log w).

(** The signature of a "sunxi" SPL header in a version this tool supports. *)
Definition sunxi_spl_v1 (sig : list Z) : Prop :=
  take 3 sig = bytes_of_string "SPL" /\ nth 3 sig 0 = 1.


(** What [have_sunxi_spl] prints for the signature it has read: nothing for
    a foreign header or a supported one, two lines for a version it does
    not support. *)
Definition spl_version_complaint (sig : list Z) : list string :=
  if negb (bool_decide (take 3 sig = bytes_of_string "SPL")) then []
  else if nth 3 sig 0 <? SPL_MIN_VERSION
  then [ "sunxi SPL version mismatch: found 0x%02X < required minimum 0x%02X"%string;
         "You need to update your U-Boot (mksunxiboot) to a more recent version."%string ]
  else if SPL_MAX_VERSION <? nth 3 sig 0
  then [ "sunxi SPL version mismatch: found 0x%02X > maximum supported 0x%02X"%string;
         "You need a more recent version of this (sunxi-tools) fel utility."%string ]
  else [].

(** A device whose SPL area holds the header of a sunxi SPL, version 1, and
    that accepts one write after the read; the host knows its SoC. *)
Definition sunxi_spl_world : world :=
  initial_world (Some a10_soc_info)
    (reply_read (bytes_of_string "SPL" ++ [1]) ++ reply_write).

(** A device that has some other header there. *)
Definition boot0_world : world :=
  initial_world (Some a10_soc_info) (reply_read [0; 0; 0; 0]).

(** ** Warm reset, fill and upload, in words *)

(** An A64, whose record names the RVBAR register, and a device that
    accepts the thunk. *)
Definition a64_soc_info : soc_info_t :=
  mk_soc 0x1689 0x10000 0x11000 0x1A200 0x200 false 0x44000 0x01C14200
         0x017000A0 None.

Definition a64_world : world :=
  initial_world (Some a64_soc_info) (reply_write ++ reply_exec).

(** The transfers of a FEL write of [size] bytes all equal to [value]. *)
Definition fill_events (offset size value : Z) : list usb_event :=
  txn_events (AwWrite 16 (aw_fel_request AW_FEL_1_WRITE offset size))
  ++ [BulkOut (aw_usb_request AW_USB_WRITE size);
      BulkOut (repeat value (Z.to_nat size));
      BulkIn 13]
  ++ txn_events (AwRead 8).

(** A file that is neither a boot script nor uEnv-style data. *)
Definition plain_file (file : Z * list Z) : Prop :=
  get_image_type (snd file) (Z.of_nat (length (snd file))) <> IH_TYPE_SCRIPT
  /\ is_uEnv (snd file) (Z.of_nat (length (snd file))) = false.

(** The write of one file; nothing for an empty one. *)
Definition file_events (file : Z * list Z) : list usb_event :=
  match snd file with
  | [] => []
  | _ => fel_events (FelWrite (snd file) (fst file) (Z.of_nat (length (snd file))))
  end.

(** ** Words and bytes *)

Definition is_word (x : Z) : Prop := 0 <= x < 2 ^ 32.
Definition is_byte (b : Z) : Prop := 0 <= b < 256.

(** ** The hex dump, in words *)

(** The offsets of the lines of a dump of [size] bytes. *)
Definition hexdump_offsets (size : Z) : list Z :=
  map (fun k => 16 * k) (range 0 ((size + 15) / 16)).

Definition printed (lines : list string) (w : world) : world :=
  mk_world (uboot_entry w) (uboot_size w) (verbose w) (soc_cache w)
           (dev_in w) (usb_log w) (err_log w) (out_log w ++ lines).

(** ** The SPL loader, in words *)


(** An SPL image of 0x9000 bytes, more than any SoC has room for, and a
    device that accepts the two writes of the swap loop. *)
Definition oversized_buf : list Z := repeat 0x5A (Z.to_nat 0x9000).
Definition oversized_world : world :=
  initial_world None (reply_write ++ reply_write).

(** ** The SID, in words *)

Definition sid_unknown_message : string :=
  "SID registers for your SoC (id=%04X) are unknown or inaccessible.".

(** The four pieces [aw_fel_print_sid] prints for the key. *)
Definition sid_pieces (key : list Z) : list string :=
  [ String.append (hex_min 8 (nth 0 key 0)) ":";
    String.append (hex_min 8 (nth 1 key 0)) ":";
    String.append (hex_min 8 (nth 2 key 0)) ":";
    String.append (hex_min 8 (nth 3 key 0)) nl ].

(** A device that answers the read of the four SID words of an A10. *)
Definition sid_world : world :=
  initial_world (Some a10_soc_info)
    (reply_write ++ reply_exec
     ++ reply_read (words_to_bytes [0x16236747; 0x80a9500f; 0x51005500; 0x03c1a0fe])).

(** A device that goes along with the upload of an SPL of 0x3000 bytes to
    the SoC of the swap-buffer scenario: the stack pointers, an SCTLR with
    the MMU off, three writes, the thunk, and the signature that the SPL
    leaves behind when it returns to FEL. *)
Definition spl_run_world : world :=
  initial_world (Some one_swap_soc_info)
    (reply_write ++ reply_exec ++ reply_read (repeat 0 8)
     ++ reply_cp_read 0x00C50038
     ++ reply_write ++ reply_write ++ reply_write
     ++ reply_write ++ reply_exec
     ++ reply_read (bytes_of_string "eGON.FEL")).

(** ** A device that does not answer *)

(** The state after a FEL request was sent to a device that then stays
    silent: the framing request and the request are on the bus, and
    [usb_error] has printed its caption. *)
Definition after_silence (type addr len : Z) (w : world) : world :=
  mk_world (uboot_entry w) (uboot_size w) (verbose w) (soc_cache w) (dev_in w)
           (usb_log w ++ [BulkOut (aw_usb_request AW_USB_WRITE 16);
                          BulkOut (aw_fel_request type addr len)])
           (err_log w ++ ["usb_bulk_recv()"%string]) (out_log w).

Definition fel_op_request (op : fel_op) : list Z :=
  match op with
  | FelVersion => aw_fel_request AW_FEL_VERSION 0 0
  | FelRead offset len => aw_fel_request AW_FEL_1_READ offset len
  | FelWrite _ offset len => aw_fel_request AW_FEL_1_WRITE offset len
  | FelExecute offset => aw_fel_request AW_FEL_1_EXEC offset 0
  end.

(** ** Coprocessor instructions, in words *)

(** The field of [m] bits at bit [k] of an instruction word. *)
Definition bits_at (k m : Z) (op : Z) : Z := Z.land (Z.shiftr op k) (Z.ones m).

(** ** The endpoints of the device *)

(** The fields of [struct libusb_endpoint_descriptor] that are read. *)
Record endpoint_descriptor := mk_endpoint {
  bmAttributes : Z;
  bEndpointAddress : Z
}.

(** A configuration descriptor: its interfaces, their alternate settings,
    and the endpoints of each. *)
Definition config_descriptor := list (list (list endpoint_descriptor)).

Section Endpoints.

(** The constants of libusb.h are not part of the sources. *)
Variable LIBUSB_TRANSFER_TYPE_MASK : Z.
Variable LIBUSB_TRANSFER_TYPE_BULK : Z.
Variable LIBUSB_ENDPOINT_DIR_MASK : Z.
Variable LIBUSB_ENDPOINT_IN : Z.

Definition is_bulk (ep : endpoint_descriptor) : bool :=
  Z.land (bmAttributes ep) LIBUSB_TRANSFER_TYPE_MASK =? LIBUSB_TRANSFER_TYPE_BULK.

Definition is_in (ep : endpoint_descriptor) : bool :=
  Z.land (bEndpointAddress ep) LIBUSB_ENDPOINT_DIR_MASK =? LIBUSB_ENDPOINT_IN.

(** The body of the innermost loop, on the pair of
    [AW_USB_FEL_BULK_EP_IN] and [AW_USB_FEL_BULK_EP_OUT]. *)
Definition visit_endpoint (eps : Z * Z) (ep : endpoint_descriptor) : Z * Z :=
  if negb (is_bulk ep) then eps
  else if is_in ep then (bEndpointAddress ep, snd eps)
  else (fst eps, bEndpointAddress ep).

(** [aw_fel_get_endpoint]: [config] is what
    [libusb_get_active_config_descriptor] gives, an error code or the
    descriptor; the result is the return value and the two variables. *)
Definition aw_fel_get_endpoint (config : Z + config_descriptor) (eps : Z * Z)
    : Z * (Z * Z) :=
  match config with
  | inl ret => (ret, eps)
  | inr c =>
      (0, foldl (fun eps iface =>
                   foldl (fun eps setting => foldl visit_endpoint eps setting)
                         eps iface)
                eps c)
  end.

(** All endpoints of a configuration, in the order the loops visit them. *)
Definition all_endpoints (c : config_descriptor) : list endpoint_descriptor :=
  concat (concat c).

(** The address of the last endpoint that satisfies [p], or [d]. *)
Definition last_address (p : endpoint_descriptor -> bool) (d : Z)
    (l : list endpoint_descriptor) : Z :=
  default d (last (map bEndpointAddress (List.filter p l))).

End Endpoints.

(** * Properties *)

(** ** The monad *)

Lemma bind_ok {A B} (p : M A) (k : A -> M B) w a w1 :
  p w = (Ok a, w1) -> bind p k w = k a w1.
Proof. unfold bind. intros ->. reflexivity. Qed.

Lemma bind_exit {A B} (p : M A) (k : A -> M B) w c w1 :
  p w = (Exit c, w1) -> bind p k w = (Exit c, w1).
Proof. unfold bind. intros ->. reflexivity. Qed.

Lemma bind_inv {A B} (p : M A) (k : A -> M B) w b w' :
  bind p k w = (Ok b, w') ->
  exists a w1, p w = (Ok a, w1) /\ k a w1 = (Ok b, w').
Proof.
  unfold bind. destruct (p w) as [[a|c|] w1]; intros H; try discriminate.
  exists a, w1. split; [reflexivity | exact H].
Qed.

Lemma bind_assoc {A B C} (p : M A) (k : A -> M B) (h : B -> M C) w :
  bind (bind p k) h w = bind p (fun a => bind (k a) h) w.
Proof. unfold bind. destruct (p w) as [[a|c|] w1]; reflexivity. Qed.

Lemma same_host_refl w : same_host w w.
Proof. repeat split. Qed.

Lemma same_host_trans w1 w2 w3 :
  same_host w1 w2 -> same_host w2 w3 -> same_host w1 w3.
Proof.
  unfold same_host. intros (?&?&?&?&?) (?&?&?&?&?).
  repeat split; congruence.
Qed.

Lemma does_ret {A} (a : A) : does (ret a) [].
Proof.
  intros w a' w' H. inversion H; subst.
  rewrite app_nil_r. split; [reflexivity | apply same_host_refl].
Qed.

Lemma does_exit {A} c evs : does (@exit A c) evs.
Proof. intros w a w' H. discriminate. Qed.

Lemma does_bind {A B} (p : M A) (k : A -> M B) e1 e2 :
  does p e1 -> (forall a, does (k a) e2) -> does (bind p k) (e1 ++ e2).
Proof.
  intros Hp Hk w b w' H.
  apply bind_inv in H as (a & w1 & H1 & H2).
  apply Hp in H1 as [L1 S1]. apply Hk in H2 as [L2 S2].
  split; [ | eapply same_host_trans; eassumption].
  rewrite L2, L1, app_assoc. reflexivity.
Qed.

Lemma does_bind_nil {A B} (p : M A) (k : A -> M B) e :
  does p [] -> (forall a, does (k a) e) -> does (bind p k) e.
Proof. intros Hp Hk. apply (does_bind p k [] e Hp Hk). Qed.

Lemma does_assert b : does (assert b) [].
Proof.
  intros w a w' H. unfold assert in H. destruct b; inversion H; subst.
  rewrite app_nil_r. split; [reflexivity | apply same_host_refl].
Qed.

Lemma does_pr_info msg : does (pr_info msg) [].
Proof.
  intros w a w' H. unfold pr_info, bind, get_world, printf, ret in H.
  destruct (verbose w) eqn:V; inversion H; subst; simpl;
    rewrite app_nil_r; (split; [reflexivity | repeat split; simpl; auto]).
Qed.

Lemma does_usb_error caption c evs : c <> 0 -> does (usb_error caption c) evs.
Proof.
  intros Hc w a w' H. unfold usb_error, bind, eprintf, exit in H.
  destruct (c =? 0) eqn:E; [apply Z.eqb_eq in E; contradiction | discriminate].
Qed.

(** ** USB transport and AW-USB framing *)

Lemma does_libusb_in n w d w' :
  libusb_in n w = (Ok (Some d), w') ->
  usb_log w' = usb_log w ++ [BulkIn n] /\ same_host w w' /\
  dev_in w = d ++ dev_in w' /\ length d = n.
Proof.
  unfold libusb_in. destruct (decide _) as [Hle|]; intros H; inversion H; subst.
  simpl. repeat split.
  - symmetry. apply take_drop.
  - rewrite length_take. lia.
Qed.

Lemma does_bulk_out data len progress :
  does (usb_bulk_send EP_OUT data len progress)
       (if len <=? 0 then [] else [BulkOut (take (Z.to_nat len) data)]).
Proof.
  unfold usb_bulk_send. destruct (len <=? 0); [apply does_ret|].
  intros w a w' H. unfold bind, libusb_out, ret in H. inversion H; subst.
  simpl. split; [reflexivity | repeat split].
Qed.

Lemma does_bulk_in data len progress :
  does (usb_bulk_send EP_IN data len progress)
       (if len <=? 0 then [] else [BulkIn (Z.to_nat len)]).
Proof.
  unfold usb_bulk_send. destruct (len <=? 0); [apply does_ret|].
  intros w a w' H. apply bind_inv in H as ([d|] & w1 & H1 & H2).
  - apply does_libusb_in in H1 as (L & S & _). inversion H2; subst. auto.
  - exfalso. revert H2.
    unfold bind, usb_error, bind, eprintf, exit. simpl. discriminate.
Qed.

Lemma does_bulk_recv len :
  does (usb_bulk_recv len) (if len <=? 0 then [] else [BulkIn (Z.to_nat len)]).
Proof.
  unfold usb_bulk_recv. destruct (len <=? 0); [apply does_ret|].
  intros w a w' H. apply bind_inv in H as ([d|] & w1 & H1 & H2).
  - apply does_libusb_in in H1 as (L & S & _). inversion H2; subst. auto.
  - exfalso. revert H2.
    unfold bind, usb_error, bind, eprintf, exit. simpl. discriminate.
Qed.

Lemma does_aw_send_usb_request type len :
  does (aw_send_usb_request type len) [BulkOut (aw_usb_request type len)].
Proof.
  unfold aw_send_usb_request.
  replace [BulkOut (aw_usb_request type len)]
    with ((if 32 <=? 0 then []
           else [BulkOut (take (Z.to_nat 32) (aw_usb_request type len))]) ++ [])
    by reflexivity.
  apply does_bind; [apply does_bulk_out | intros; apply does_ret].
Qed.

Lemma does_aw_read_usb_response : does aw_read_usb_response [BulkIn 13].
Proof.
  unfold aw_read_usb_response.
  change [BulkIn 13] with ((if 13 <=? 0 then [] else [BulkIn (Z.to_nat 13)]) ++ []).
  apply does_bind; [apply does_bulk_recv | intros; apply does_assert].
Qed.

Lemma does_aw_usb_write data len progress :
  does (aw_usb_write data len progress) (txn_events (AwWrite len data)).
Proof.
  unfold aw_usb_write, txn_events.
  apply (does_bind _ _ [_] _ (does_aw_send_usb_request _ _)); intros _.
  apply does_bind; [apply does_bulk_out | intros _; apply does_aw_read_usb_response].
Qed.

Lemma does_aw_usb_read len :
  does (aw_usb_read len) (txn_events (AwRead len)).
Proof.
  unfold aw_usb_read, txn_events.
  apply (does_bind _ _ [_] _ (does_aw_send_usb_request _ _)); intros _.
  apply does_bind; [apply does_bulk_in | intros d].
  rewrite <- (app_nil_r [BulkIn 13]).
  apply does_bind; [apply does_aw_read_usb_response | intros; apply does_ret].
Qed.

(** ** FEL operations *)

Lemma does_aw_send_fel_request type addr len :
  does (aw_send_fel_request type addr len)
       (txn_events (AwWrite 16 (aw_fel_request type addr len))).
Proof. apply does_aw_usb_write. Qed.

Lemma does_aw_read_fel_status : does aw_read_fel_status (txn_events (AwRead 8)).
Proof.
  unfold aw_read_fel_status. rewrite <- (app_nil_r (txn_events _)).
  apply does_bind; [apply does_aw_usb_read | intros; apply does_ret].
Qed.

Lemma does_aw_fel_get_version : does aw_fel_get_version (fel_events FelVersion).
Proof.
  unfold aw_fel_get_version, fel_events, fel_op_txns, flat_map.
  apply does_bind; [apply does_aw_send_fel_request | intros _].
  apply does_bind; [apply does_aw_usb_read | intros buf].
  apply does_bind; [apply does_aw_read_fel_status | intros; apply does_ret].
Qed.

Lemma does_aw_fel_read offset len :
  does (aw_fel_read offset len) (fel_events (FelRead offset len)).
Proof.
  unfold aw_fel_read, fel_events, fel_op_txns, flat_map.
  apply does_bind; [apply does_aw_send_fel_request | intros _].
  apply does_bind; [apply does_aw_usb_read | intros buf].
  apply does_bind; [apply does_aw_read_fel_status | intros; apply does_ret].
Qed.

Lemma does_aw_fel_write buf offset len :
  does (aw_fel_write buf offset len) (fel_events (FelWrite buf offset len)).
Proof.
  unfold aw_fel_write, fel_events, fel_op_txns, flat_map.
  apply does_bind; [apply does_aw_send_fel_request | intros _].
  apply does_bind; [apply does_aw_usb_write | intros _].
  rewrite app_nil_r. apply does_aw_read_fel_status.
Qed.

Lemma does_aw_fel_execute offset :
  does (aw_fel_execute offset) (fel_events (FelExecute offset)).
Proof.
  unfold aw_fel_execute, fel_events, fel_op_txns, flat_map.
  apply does_bind; [apply does_aw_send_fel_request | intros _].
  rewrite app_nil_r. apply does_aw_read_fel_status.
Qed.

(** C9, as amended.  Whenever a FEL operation (version, read, write,
    execute) runs to completion, the transfers it adds to the bus are exactly
    those of its AW-USB transactions, back to back: first an AW-USB WRITE
    transaction carrying the 16-byte FEL request, then the payload
    transaction if the operation has one (an AW-USB READ for version and
    read, an AW-USB WRITE for write, none for execute), and last an AW-USB
    READ transaction for the 8-byte FEL status.  That makes three
    transactions for version, read and write and two for execute. *)
Theorem fel_op_transactions (op : fel_op) (w w' : world) (a : unit) :
  run_fel_op op w = (Ok a, w') ->
  usb_log w' = usb_log w ++ flat_map txn_events (fel_op_txns op)
  /\ (exists req, head (fel_op_txns op) = Some (AwWrite 16 req)
                  /\ length req = 16%nat)
  /\ last (fel_op_txns op) = Some (AwRead 8)
  /\ length (fel_op_txns op) =
       match op with FelExecute _ => 2%nat | _ => 3%nat end.
Proof.
  intros H. split; [| split; [| split]].
  - destruct op; simpl in H.
    + apply bind_inv in H as (v & w1 & H1 & H2). inversion H2; subst.
      apply does_aw_fel_get_version in H1 as [L _]. exact L.
    + apply bind_inv in H as (v & w1 & H1 & H2). inversion H2; subst.
      apply does_aw_fel_read in H1 as [L _]. exact L.
    + apply does_aw_fel_write in H as [L _]. exact L.
    + apply does_aw_fel_execute in H as [L _]. exact L.
  - destruct op; simpl; eexists; (split; [reflexivity | reflexivity]).
  - destruct op; reflexivity.
  - destruct op; reflexivity.
Qed.

(** A read of four bytes at 0x100 from a device that answers. *)
Lemma fel_op_transactions_witness :
  exists w',
    run_fel_op (FelRead 0x100 4) (initial_world None (reply_read [1; 2; 3; 4]))
      = (Ok tt, w')
    /\ usb_log w' = flat_map txn_events (fel_op_txns (FelRead 0x100 4)).
Proof.
  eexists. split; [vm_compute; reflexivity |].
  apply (fel_op_transactions (FelRead 0x100 4)
           (initial_world None (reply_read [1; 2; 3; 4])) _ tt).
  vm_compute. reflexivity.
Defined.

(** C9 as stated fails: a FEL read is three AW-USB transactions, two of
    them AW-USB READ (payload and status), and a FEL write has two AW-USB
    WRITE framing requests (request and payload). *)
Lemma fel_read_is_not_two_transactions :
  (exists d w',
     aw_fel_read 0x100 4 (initial_world None (reply_read [1; 2; 3; 4]))
       = (Ok d, w')
     /\ (count_framing AW_USB_WRITE (usb_log w')
         + count_framing AW_USB_READ (usb_log w') <> 2)%nat
     /\ count_framing AW_USB_READ (usb_log w') <> 1%nat)
  /\ (exists w',
        aw_fel_write [1; 2; 3; 4] 0x100 4 (initial_world None reply_write)
          = (Ok tt, w')
        /\ count_framing AW_USB_WRITE (usb_log w') <> 1%nat).
Proof.
  split.
  - eexists. eexists. split; [vm_compute; reflexivity |].
    split; vm_compute; discriminate.
  - eexists. split; [vm_compute; reflexivity |].
    vm_compute; discriminate.
Qed.

(** ** The overwrite guard of [aw_write_buffer] *)

(** The guard as the code evaluates it. *)
Lemma aw_write_buffer_guard buf offset len progress w :
  0 < uboot_size w ->
  offset <= u32 (uboot_entry w + uboot_size w) ->
  uboot_entry w <= sz (offset + len) ->
  rejected (aw_write_buffer buf offset len progress w) w.
Proof.
  intros H1 H2 H3. unfold aw_write_buffer, bind, get_world.
  apply Z.ltb_lt in H1. apply Z.leb_le in H2, H3.
  rewrite H1, H2, H3. simpl. repeat split.
Qed.

(** As long as the end of the recorded region is below 2^32, a write that
    reaches into the region is rejected. *)
Lemma overwrite_guard_intersecting buf offset len progress w :
  0 < uboot_size w -> 0 <= uboot_entry w ->
  uboot_entry w + uboot_size w < 2 ^ 32 ->
  0 <= offset -> offset + len < 2 ^ 64 ->
  ranges_intersect offset len (uboot_entry w) (uboot_size w) ->
  rejected (aw_write_buffer buf offset len progress w) w.
Proof.
  intros Hs He Hend Ho Hl (x & Hx1 & Hx2).
  apply aw_write_buffer_guard; [assumption | |].
  - unfold u32. rewrite Z.mod_small by lia. lia.
  - unfold sz. rewrite Z.mod_small by lia. lia.
Qed.

(** C10: the guard is closed at both ends as long as the end of the recorded
    region is below 2^32.  With a region recorded, a write that merely
    touches it, ending where the region starts or starting where the
    region ends, has no address in common with it and still ends the
    program with status 1, the message on stderr and nothing on the bus. *)
Theorem overwrite_guard_abutting buf offset len progress w :
  0 < uboot_size w -> 0 <= uboot_entry w ->
  uboot_entry w + uboot_size w < 2 ^ 32 ->
  0 <= offset -> 0 <= len -> offset + len < 2 ^ 64 ->
  offset + len = uboot_entry w \/ offset = uboot_entry w + uboot_size w ->
  ~ ranges_intersect offset len (uboot_entry w) (uboot_size w)
  /\ rejected (aw_write_buffer buf offset len progress w) w.
Proof.
  intros Hs He Hend Ho Hl0 Hl Habut. split.
  - intros (x & Hx1 & Hx2). lia.
  - apply aw_write_buffer_guard; [assumption | |].
    + unfold u32. rewrite Z.mod_small by lia. lia.
    + unfold sz. rewrite Z.mod_small by lia. lia.
Qed.

Lemma overwrite_guard_abutting_witness :
  rejected (aw_write_buffer [1; 2; 3; 4] 0x49FFFFFC 4 false
              (mk_world 0x4A000000 0x80000 false None [] [] [] []))
           (mk_world 0x4A000000 0x80000 false None [] [] [] [])
  /\ rejected (aw_write_buffer [1; 2; 3; 4] 0x4A080000 4 false
                 (mk_world 0x4A000000 0x80000 false None [] [] [] []))
              (mk_world 0x4A000000 0x80000 false None [] [] [] []).
Proof.
  split.
  - refine (proj2 (overwrite_guard_abutting [1; 2; 3; 4] 0x49FFFFFC 4 false
                     (mk_world 0x4A000000 0x80000 false None [] [] [] [])
                     _ _ _ _ _ _ _)); simpl; lia.
  - refine (proj2 (overwrite_guard_abutting [1; 2; 3; 4] 0x4A080000 4 false
                     (mk_world 0x4A000000 0x80000 false None [] [] [] [])
                     _ _ _ _ _ _ _)); simpl; lia.
Defined.

(** C6: the code at the failing input.  A U-Boot image of 16 bytes with
    load address 0xFFFFFFF0 is uploaded and recorded; the region ends at
    2^32, where [uboot_entry + uboot_size] wraps to 0.  The next write, of 4
    bytes at 0xFFFFFFF4, lies inside the region, and is sent to the device
    instead of being rejected. *)
Theorem overwrite_guard_misses_wrapped_region :
  let image := uboot_image 0xFFFFFFF0 (repeat 0xAA 16) in
  exists w1 w2,
    aw_fel_write_uboot_image image 80
      (initial_world None (reply_write ++ reply_write)) = (Ok tt, w1)
    /\ uboot_entry w1 = 0xFFFFFFF0 /\ uboot_size w1 = 16
    /\ ranges_intersect 0xFFFFFFF4 4 (uboot_entry w1) (uboot_size w1)
    /\ aw_write_buffer [1; 2; 3; 4] 0xFFFFFFF4 4 false w1 = (Ok tt, w2)
    /\ usb_log w2 =
         usb_log w1 ++ fel_events (FelWrite [1; 2; 3; 4] 0xFFFFFFF4 4).
Proof.
  eexists. eexists. split; [vm_compute; reflexivity |].
  split; [reflexivity |]. split; [reflexivity |].
  split; [exists 0xFFFFFFF4; simpl; lia |].
  split; vm_compute; reflexivity.
Qed.

(** C10, as stated, fails where the region ends at 2^32.  With the same
    image recorded, a write of 16 bytes at 0xFFFFFFE0 ends exactly where
    the region starts ([offset + len = uboot_entry]); the wrapped
    [uboot_entry + uboot_size] is 0, the first test of the guard fails, and
    the write is sent to the device instead of being rejected. *)
Theorem overwrite_guard_misses_abutting_request :
  let image := uboot_image 0xFFFFFFF0 (repeat 0xAA 16) in
  exists w1 w2,
    aw_fel_write_uboot_image image 80
      (initial_world None (reply_write ++ reply_write)) = (Ok tt, w1)
    /\ 0 < uboot_size w1
    /\ 0xFFFFFFE0 + 16 = uboot_entry w1
    /\ aw_write_buffer (repeat 0x55 16) 0xFFFFFFE0 16 false w1 = (Ok tt, w2)
    /\ usb_log w2 =
         usb_log w1 ++ fel_events (FelWrite (repeat 0x55 16) 0xFFFFFFE0 16).
Proof.
  eexists. eexists. split; [vm_compute; reflexivity |].
  split; [reflexivity |]. split; [reflexivity |].
  split; vm_compute; reflexivity.
Qed.

Lemma testbit_above n p i :
  0 <= n < 2 ^ p -> 0 <= p -> p <= i -> Z.testbit n i = false.
Proof.
  intros Hn Hp Hi. rewrite <- (Z.mod_small n (2 ^ p)) by assumption.
  apply Z.mod_pow2_bits_high. lia.
Qed.

Lemma TEXCB_testbit n : Z.testbit TEXCB n = texcb_bit n.
Proof.
  destruct (Z.lt_ge_cases n 0) as [Hneg | Hpos].
  - rewrite Z.testbit_neg_r by assumption. unfold texcb_bit.
    rewrite !(proj2 (Z.eqb_neq _ _)) by lia. reflexivity.
  - destruct (Z.lt_ge_cases n 15) as [Hlt | Hge].
    + rewrite <- (Z2Nat.id n Hpos).
      assert (Hk : (Z.to_nat n < 15)%nat) by lia.
      generalize dependent (Z.to_nat n). intros k Hk.
      do 15 (destruct k as [| k]; [reflexivity |]). lia.
    + rewrite (testbit_above TEXCB 15 n) by (try (vm_compute; split; congruence); lia).
      unfold texcb_bit.
      rewrite !(proj2 (Z.eqb_neq _ _)) by lia. reflexivity.
Qed.

Lemma not32_testbit x n :
  0 <= n -> Z.testbit (not32 x) n = (n <? 32) && negb (Z.testbit x n).
Proof.
  intros Hn. unfold not32, u32. destruct (Z.ltb_spec n 32).
  - rewrite Z.mod_pow2_bits_low by lia. rewrite Z.lnot_spec by lia. reflexivity.
  - rewrite Z.mod_pow2_bits_high by lia. reflexivity.
Qed.

Lemma land_shiftr_1 e k :
  0 <= k -> Z.land (Z.shiftr e k) 1 = Z.b2z (Z.testbit e k).
Proof.
  intros Hk. change 1 with (Z.ones 1). rewrite Z.land_ones by lia.
  rewrite <- Z.bit0_mod. rewrite Z.shiftr_spec by lia. reflexivity.
Qed.

Lemma section_shape_range i e :
  0 <= i < 4096 -> section_shape i e -> 0 <= e < 2 ^ 32.
Proof.
  intros Hi (_ & _ & H). rewrite Z.shiftr_div_pow2 in H by lia.
  assert (0 < 2 ^ 20) by lia.
  pose proof (Z.div_mod e (2 ^ 20) ltac:(lia)) as D.
  pose proof (Z.mod_pos_bound e (2 ^ 20) ltac:(lia)) as B.
  rewrite H in D. change (2 ^ 32) with (4096 * 2 ^ 20). nia.
Qed.

(** Clearing the TEX, C and B bits and setting some of them again leaves
    all other bits of a 32-bit word alone. *)
Lemma rewrite_entry_testbit e c n :
  0 <= e < 2 ^ 32 -> 0 <= n -> texcb_bit n = false ->
  Z.testbit c n = false ->
  Z.testbit (Z.lor (Z.land e (not32 TEXCB)) c) n = Z.testbit e n.
Proof.
  intros He Hn Hb Hc.
  rewrite Z.lor_spec, Z.land_spec, not32_testbit, TEXCB_testbit, Hb, Hc by lia.
  destruct (Z.ltb_spec n 32).
  - simpl. rewrite orb_false_r, andb_true_r. reflexivity.
  - rewrite (testbit_above e 32 n) by lia. reflexivity.
Qed.

Lemma rewrite_entry_texcb e c :
  Z.land c TEXCB = c ->
  Z.land (Z.lor (Z.land e (not32 TEXCB)) c) TEXCB = c.
Proof.
  intros Hc. apply Z.bits_inj'. intros n Hn.
  rewrite <- Hc at 2.
  rewrite !Z.land_spec, Z.lor_spec, Z.land_spec, not32_testbit by lia.
  destruct (Z.testbit TEXCB n), (Z.testbit e n), (Z.testbit c n), (n <? 32);
    reflexivity.
Qed.

Lemma pow2_testbit_other k n :
  0 <= k -> n <> k -> Z.testbit (Z.shiftl 1 k) n = false.
Proof.
  intros Hk Hne. rewrite Z.shiftl_1_l.
  destruct (Z.lt_ge_cases n 0); [apply Z.testbit_neg_r; assumption |].
  rewrite Z.pow2_bits_eqb by lia. apply Z.eqb_neq. lia.
Qed.

Lemma texcb_bit_false n :
  texcb_bit n = false -> n <> 2 /\ n <> 3 /\ n <> 12 /\ n <> 13 /\ n <> 14.
Proof.
  unfold texcb_bit. rewrite !orb_false_iff, !Z.eqb_neq. tauto.
Qed.

Lemma restore_entry_testbit i e n :
  0 <= e < 2 ^ 32 -> 0 <= n -> texcb_bit n = false ->
  Z.testbit (restore_entry i e) n = Z.testbit e n.
Proof.
  intros He Hn Hb. pose proof (texcb_bit_false n Hb) as (?&?&?&?&?).
  unfold restore_entry, dram_entry, brom_entry.
  destruct (_ && _); [| destruct (_ =? _)]; [| | reflexivity];
    apply rewrite_entry_testbit; try assumption;
    rewrite ?Z.lor_spec, !pow2_testbit_other by lia; reflexivity.
Qed.

Lemma restore_entry_shape i j e :
  0 <= i < 4096 -> section_shape i e -> section_shape i (restore_entry j e).
Proof.
  intros Hi Hs. pose proof (section_shape_range i e Hi Hs) as He.
  destruct Hs as (H1 & H18 & H20).
  rewrite land_shiftr_1 in H1, H18 by lia.
  unfold section_shape. rewrite !land_shiftr_1 by lia.
  rewrite !(restore_entry_testbit j e) by (assumption || lia || reflexivity).
  split; [assumption | split; [assumption |]].
  rewrite <- H20. apply Z.bits_inj'. intros n Hn.
  rewrite !Z.shiftr_spec by lia.
  apply restore_entry_testbit; [assumption | lia |].
  unfold texcb_bit. rewrite !(proj2 (Z.eqb_neq _ _)) by lia. reflexivity.
Qed.

(** ** The restore path, entry by entry *)
Lemma foldl_restore_dram tbl lo n j :
  0 <= lo ->
  foldl restore_dram_entry tbl (seqZ lo (Z.of_nat n)) !! j =
    (if (lo <=? Z.of_nat j) && (Z.of_nat j <? lo + Z.of_nat n)
     then dram_entry <$> tbl !! j else tbl !! j).
Proof.
  intros Hlo. induction n as [| n IH].
  - simpl.
    destruct (Z.leb_spec lo (Z.of_nat j)), (Z.ltb_spec (Z.of_nat j) (lo + Z.of_nat 0));
      simpl; try reflexivity; lia.
  - rewrite seqZ_S, foldl_app. simpl. unfold restore_dram_entry at 1, update.
    destruct (decide (j = Z.to_nat (lo + Z.of_nat n))) as [-> | Hne].
    + rewrite !list_lookup_alter_eq, IH.
      rewrite Z2Nat.id by lia.
      destruct (Z.leb_spec lo (lo + Z.of_nat n)); [| lia].
      destruct (Z.ltb_spec (lo + Z.of_nat n) (lo + Z.of_nat n)); [lia |].
      destruct (Z.ltb_spec (lo + Z.of_nat n) (lo + Z.of_nat (S n))); [| lia].
      simpl. destruct (tbl !! Z.to_nat (lo + Z.of_nat n)); reflexivity.
    + rewrite !list_lookup_alter_ne, IH by congruence.
      destruct (Z.leb_spec lo (Z.of_nat j)); simpl; [| reflexivity].
      destruct (Z.ltb_spec (Z.of_nat j) (lo + Z.of_nat n)),
               (Z.ltb_spec (Z.of_nat j) (lo + Z.of_nat (S n)));
        try reflexivity; lia.
Qed.

Lemma restore_rewrite_lookup tbl j :
  restore_rewrite tbl !! j = restore_entry (Z.of_nat j) <$> tbl !! j.
Proof.
  unfold restore_rewrite, update, range.
  change (Z.shiftr (u32 (DRAM_BASE + DRAM_SIZE)) 20 - Z.shiftr DRAM_BASE 20)
    with (Z.of_nat 2048).
  change (Z.shiftr DRAM_BASE 20) with 0x400.
  unfold restore_entry.
  destruct (decide (j = Z.to_nat 0xFFF)) as [-> | Hne].
  - rewrite !list_lookup_alter_eq, foldl_restore_dram by lia.
    change (Z.of_nat (Z.to_nat 4095)) with 4095. simpl.
    destruct (tbl !! _); reflexivity.
  - rewrite !list_lookup_alter_ne, foldl_restore_dram
      by first [lia | intros E; apply Hne; symmetry; exact E].
    change (1024 + Z.of_nat 2048) with 0xC00.
    replace (Z.of_nat j =? 0xFFF) with false by (symmetry; apply Z.eqb_neq; lia).
    destruct (_ && _); [reflexivity |]. destruct (tbl !! j); reflexivity.
Qed.

Lemma restore_rewrite_length tbl : length (restore_rewrite tbl) = length tbl.
Proof.
  unfold restore_rewrite, update. rewrite !length_alter.
  generalize (range (Z.shiftr DRAM_BASE 20) (Z.shiftr (u32 (DRAM_BASE + DRAM_SIZE)) 20)).
  intros l. revert tbl. induction l as [| i l IH]; intros tbl; [reflexivity |].
  simpl. rewrite IH. unfold restore_dram_entry, update. rewrite !length_alter.
  reflexivity.
Qed.

Lemma restore_rewrite_nth tbl i :
  0 <= i < Z.of_nat (length tbl) ->
  nth (Z.to_nat i) (restore_rewrite tbl) 0 =
    restore_entry i (nth (Z.to_nat i) tbl 0).
Proof.
  intros Hi. rewrite !nth_lookup, restore_rewrite_lookup.
  rewrite Z2Nat.id by lia.
  destruct (tbl !! Z.to_nat i) eqn:E; [reflexivity |].
  apply lookup_ge_None in E. lia.
Qed.

(** C4.  For a table of 4096 entries of the shape the backup path accepts,
    the rewriting done by [aw_restore_and_enable_mmu] keeps the length and
    the shape; in every entry all bits other than TEX (14..12), C (3) and B
    (2) are what they were; the entries 0x400..0xBFF get TEX/C/B = 00100 and
    the entry 0xFFF gets 00111; every other entry is unchanged. *)
Theorem restore_rewrite_frame (tbl : list Z) :
  length tbl = 4096%nat -> table_shape tbl ->
  length (restore_rewrite tbl) = 4096%nat
  /\ table_shape (restore_rewrite tbl)
  /\ forall i, 0 <= i < 4096 ->
       let e := nth (Z.to_nat i) tbl 0 in
       let e' := nth (Z.to_nat i) (restore_rewrite tbl) 0 in
       (forall n, 0 <= n -> texcb_bit n = false ->
                  Z.testbit e' n = Z.testbit e n)
       /\ (0x400 <= i <= 0xBFF -> Z.land e' TEXCB = Z.shiftl 1 12)
       /\ (i = 0xFFF ->
           Z.land e' TEXCB =
             Z.lor (Z.lor (Z.shiftl 1 12) (Z.shiftl 1 3)) (Z.shiftl 1 2))
       /\ (~ (0x400 <= i <= 0xBFF) -> i <> 0xFFF -> e' = e).
Proof.
  intros Hlen Hshape.
  split; [rewrite restore_rewrite_length; assumption |].
  split.
  - intros i Hi. rewrite restore_rewrite_nth by lia.
    apply restore_entry_shape; [assumption | apply Hshape; assumption].
  - intros i Hi e e'. subst e e'. rewrite restore_rewrite_nth by lia.
    pose proof (section_shape_range i _ Hi (Hshape i Hi)) as He.
    split; [| split; [| split]].
    + intros n Hn Hb. apply restore_entry_testbit; assumption.
    + intros Hr. unfold restore_entry.
      replace ((0x400 <=? i) && (i <? 0xC00)) with true
        by (symmetry; apply andb_true_iff; split;
            [apply Z.leb_le | apply Z.ltb_lt]; lia).
      apply rewrite_entry_texcb. reflexivity.
    + intros ->. apply rewrite_entry_texcb. reflexivity.
    + intros Hr Hne. unfold restore_entry.
      replace ((0x400 <=? i) && (i <? 0xC00)) with false.
      * replace (i =? 0xFFF) with false by (symmetry; apply Z.eqb_neq; lia).
        reflexivity.
      * symmetry. apply andb_false_iff.
        destruct (Z.leb_spec 0x400 i); [right; apply Z.ltb_ge; lia | left; reflexivity].
Qed.


Lemma section_shapeb_spec i e : section_shapeb i e = true <-> section_shape i e.
Proof.
  unfold section_shapeb, section_shape.
  rewrite !andb_true_iff, !Z.eqb_eq. tauto.
Qed.

Lemma table_shapeb_spec tbl : table_shapeb tbl = true <-> table_shape tbl.
Proof.
  unfold table_shapeb, table_shape, range. rewrite forallb_forall. split.
  - intros H i Hi. apply section_shapeb_spec, H, list_elem_of_In, elem_of_seqZ. lia.
  - intros H i Hi. apply list_elem_of_In, elem_of_seqZ in Hi.
    apply section_shapeb_spec, H. lia.
Qed.

(** The table the synthesis path builds has the shape the restore path
    expects. *)
Lemma generated_table_shape : table_shape aw_generate_mmu_translation_table.
Proof. apply table_shapeb_spec. vm_compute. reflexivity. Qed.

Lemma restore_rewrite_frame_witness :
  length (restore_rewrite aw_generate_mmu_translation_table) = 4096%nat
  /\ table_shape (restore_rewrite aw_generate_mmu_translation_table).
Proof.
  pose proof (restore_rewrite_frame aw_generate_mmu_translation_table) as H.
  destruct H as (Hlen & Hshape & _).
  - vm_compute. reflexivity.
  - apply table_shapeb_spec. vm_compute. reflexivity.
  - split; assumption.
Defined.

(** The table is what goes to the device: when the restore path runs to
    completion, it has read TTBR0, written the 16 KiB of the rewritten table
    in little-endian words, and run the thunk that turns the MMU on. *)
Lemma aw_restore_and_enable_mmu_uploads soc tbl w w' :
  aw_restore_and_enable_mmu soc tbl w = (Ok tt, w') ->
  exists ttbr0 w1,
    aw_get_ttbr0 soc w = (Ok ttbr0, w1)
    /\ usb_log w' = usb_log w1
         ++ fel_events (FelWrite (words_to_bytes (restore_rewrite tbl)) ttbr0 (16 * 1024))
         ++ fel_events (FelWrite (words_to_bytes mmu_enable_code) (scratch_addr soc) 48)
         ++ fel_events (FelExecute (scratch_addr soc)).
Proof.
  intros H. unfold aw_restore_and_enable_mmu in H.
  apply bind_inv in H as (ttbr0 & w1 & H1 & H2).
  exists ttbr0, w1. split; [assumption |].
  assert (D : does
    (pr_info "Setting write-combine mapping for DRAM." ;;
     pr_info "Setting cached mapping for BROM." ;;
     pr_info "Writing back the MMU translation table." ;;
     aw_fel_write (words_to_bytes (restore_rewrite tbl)) ttbr0 (16 * 1024) ;;
     pr_info "Enabling I-cache, MMU and branch prediction..." ;;
     aw_fel_write (words_to_bytes mmu_enable_code) (scratch_addr soc) 48 ;;
     aw_fel_execute (scratch_addr soc) ;;
     pr_info " done.")
    (fel_events (FelWrite (words_to_bytes (restore_rewrite tbl)) ttbr0 (16 * 1024))
     ++ fel_events (FelWrite (words_to_bytes mmu_enable_code) (scratch_addr soc) 48)
     ++ fel_events (FelExecute (scratch_addr soc)))); [| apply D in H2 as [L _]; exact L].
  do 3 (apply does_bind_nil; [apply does_pr_info | intros _]).
  apply does_bind; [apply does_aw_fel_write | intros _].
  apply does_bind_nil; [apply does_pr_info | intros _].
  apply does_bind; [apply does_aw_fel_write | intros _].
  rewrite <- (app_nil_r (fel_events (FelExecute _))).
  apply does_bind; [apply does_aw_fel_execute | intros _].
  apply does_pr_info.
Qed.

(** ** Coprocessor accesses *)

Lemma returns_ret {A} (v : A) : returns (ret v) v.
Proof. intros w a w' H. inversion H. reflexivity. Qed.

Lemma returns_bind {A B} (p : M A) (k : A -> M B) v :
  (forall a, returns (k a) v) -> returns (bind p k) v.
Proof.
  intros Hk w b w' H. apply bind_inv in H as (a & w1 & _ & H2).
  eapply Hk. eassumption.
Qed.


Lemma does_aw_read_arm_cp_reg soc coproc opc1 crn crm opc2 :
  does (aw_read_arm_cp_reg soc coproc opc1 crn crm opc2)
       (get_cp_events soc coproc opc1 crn crm opc2).
Proof.
  unfold aw_read_arm_cp_reg, get_cp_events.
  apply does_bind; [apply does_aw_fel_write | intros _].
  apply does_bind; [apply does_aw_fel_execute | intros _].
  rewrite <- (app_nil_r (fel_events (FelRead _ _))).
  apply does_bind; [apply does_aw_fel_read | intros; apply does_ret].
Qed.




(** ** The synthesized translation table *)

Lemma generated_table_entries :
  length aw_generate_mmu_translation_table = 4096%nat
  /\ forall i, 0 <= i < 4096 ->
       nth (Z.to_nat i) aw_generate_mmu_translation_table 0 =
         (if (i =? 0) || (i =? 0xFFF) then Z.lor (flat_entry i) (Z.shiftl 1 12)
          else flat_entry i)
       /\ Z.shiftr (flat_entry i) 20 = i
       /\ Z.land (flat_entry i) TEXCB = 0.
Proof.
  split; [vm_compute; reflexivity |].
  assert (forallb (fun i =>
            (nth (Z.to_nat i) aw_generate_mmu_translation_table 0 =?
               (if (i =? 0) || (i =? 0xFFF)
                then Z.lor (flat_entry i) (Z.shiftl 1 12)
                else flat_entry i))
            && (Z.shiftr (flat_entry i) 20 =? i)
            && (Z.land (flat_entry i) TEXCB =? 0))
          (range 0 4096) = true) as H by (vm_compute; reflexivity).
  rewrite forallb_forall in H. intros i Hi.
  specialize (H i). rewrite !andb_true_iff, !Z.eqb_eq in H.
  assert (In i (range 0 4096)) as Hin
    by (apply list_elem_of_In, elem_of_seqZ; lia).
  destruct (H Hin) as [[H1 H2] H3]. auto.
Qed.



(** ** Checks that end in [exit(1)] *)

Lemma guard_pass {B} (c : bool) msg (k : unit -> M B) w :
  c = false ->
  bind (if c then eprintf msg ;; exit 1 else ret tt) k w = k tt w.
Proof. intros ->. reflexivity. Qed.

Lemma guard_fatal {B} (c : bool) msg (k : unit -> M B) w :
  c = true ->
  fatal (bind (if c then eprintf msg ;; exit 1 else ret tt) k w) w.
Proof.
  intros ->. unfold bind, eprintf, exit. simpl.
  repeat split. exists msg. reflexivity.
Qed.

Lemma guard_inv {B} (c : bool) msg (k : unit -> M B) w b w' :
  bind (if c then eprintf msg ;; exit 1 else ret tt) k w = (Ok b, w') ->
  c = false /\ k tt w = (Ok b, w').
Proof.
  destruct c; [| intros H; split; [reflexivity | exact H]].
  unfold bind, eprintf, exit. simpl. discriminate.
Qed.

Lemma fatal_bind {A B} (p : M A) (k : A -> M B) w wref :
  fatal (p w) wref -> fatal (bind p k w) wref.
Proof.
  unfold fatal, bind. destruct (p w) as [[a | c |] w1]; simpl;
    intros (E & H); try discriminate.
  inversion E; subst. split; [reflexivity | exact H].
Qed.

Lemma pr_info_quiet msg w :
  exists w', pr_info msg w = (Ok tt, w')
             /\ usb_log w' = usb_log w /\ dev_in w' = dev_in w
             /\ err_log w' = err_log w.
Proof.
  unfold pr_info, bind, get_world, printf, ret.
  destruct (verbose w); eexists; repeat split.
Qed.

(** ** The sanity check of the translation table *)

Lemma check_tt_entry_ok tbl i w :
  section_shapeb i (nth (Z.to_nat i) tbl 0) = true ->
  check_tt_entry tbl i w = (Ok tt, w).
Proof.
  unfold section_shapeb, check_tt_entry. rewrite !andb_true_iff.
  intros [[H1 H18] H20].
  rewrite guard_pass by (rewrite H1, H18; reflexivity).
  rewrite H20. reflexivity.
Qed.

Lemma check_tt_entry_bad tbl i w :
  section_shapeb i (nth (Z.to_nat i) tbl 0) = false ->
  fatal (check_tt_entry tbl i w) w.
Proof.
  unfold section_shapeb, check_tt_entry. intros H.
  destruct (negb (Z.land (Z.shiftr (nth (Z.to_nat i) tbl 0) 1) 1 =? 1)
            || negb (Z.land (Z.shiftr (nth (Z.to_nat i) tbl 0) 18) 1 =? 0)) eqn:E.
  - apply (guard_fatal true). reflexivity.
  - apply orb_false_iff in E as [E1 E2].
    apply negb_false_iff in E1, E2. rewrite E1, E2, !andb_true_l in H.
    rewrite H. unfold bind, ret, eprintf, exit. simpl.
    repeat split. eexists. reflexivity.
Qed.

Lemma check_loop_ok tbl l w :
  forallb (fun i => section_shapeb i (nth (Z.to_nat i) tbl 0)) l = true ->
  for_each (check_tt_entry tbl) l w = (Ok tt, w).
Proof.
  induction l as [| i l IH]; simpl; [reflexivity |].
  rewrite andb_true_iff. intros [Hi Hl].
  rewrite (bind_ok _ _ _ _ _ (check_tt_entry_ok tbl i w Hi)). apply IH, Hl.
Qed.

Lemma check_loop_bad tbl l w :
  forallb (fun i => section_shapeb i (nth (Z.to_nat i) tbl 0)) l = false ->
  fatal (for_each (check_tt_entry tbl) l w) w.
Proof.
  induction l as [| i l IH]; simpl; [discriminate |].
  destruct (section_shapeb i (nth (Z.to_nat i) tbl 0)) eqn:Hi; simpl.
  - intros Hl. rewrite (bind_ok _ _ _ _ _ (check_tt_entry_ok tbl i w Hi)).
    apply IH, Hl.
  - intros _. apply fatal_bind, check_tt_entry_bad, Hi.
Qed.

Lemma bytes_to_words_length buf n : length (bytes_to_words buf n) = n.
Proof. unfold bytes_to_words. rewrite length_map, length_seq. reflexivity. Qed.

(** ** The backup path *)

(** The SCTLR mask clears the bits 13, 12, 11 (V, I, Z), 6 and 0 (M) of a
    32-bit value and keeps the others. *)
Lemma SCTLR_MASK_bits :
  SCTLR_MASK = 2 ^ 32 - 1 - (2 ^ 13 + 2 ^ 12 + 2 ^ 11 + 2 ^ 6 + 2 ^ 0).
Proof. reflexivity. Qed.

Lemma shape_loop_ok tbl w :
  table_shapeb tbl = true ->
  for_each (check_tt_entry tbl) (range 0 4096) w = (Ok tt, w).
Proof. apply check_loop_ok. Qed.

Lemma shape_loop_bad {B} tbl (k : unit -> M B) w :
  table_shapeb tbl = false ->
  fatal (bind (for_each (check_tt_entry tbl) (range 0 4096)) k w) w.
Proof. intros H. apply fatal_bind, check_loop_bad, H. Qed.

Lemma aw_backup_and_disable_mmu_returns_table soc w w1 sctlr :
  aw_get_sctlr soc w = (Ok sctlr, w1) ->
  forall t w', aw_backup_and_disable_mmu soc w = (Ok (Some t), w') ->
    length t = 4096%nat /\ table_shape t
    /\ Z.land sctlr SCTLR_MASK = 0x00C50038 /\ Z.land sctlr 1 <> 0
    /\ exists w2 w3 ttbr0 w4,
         aw_get_dacr soc w1 = (Ok 0x55555555, w2)
         /\ aw_get_ttbcr soc w2 = (Ok 0, w3)
         /\ aw_get_ttbr0 soc w3 = (Ok ttbr0, w4)
         /\ Z.land ttbr0 0x3FFF = 0.
Proof.
  intros Hs t w' H. unfold aw_backup_and_disable_mmu in H.
  rewrite (bind_ok _ _ _ _ _ Hs) in H.
    apply guard_inv in H as [Hgood H].
    apply negb_false_iff, Z.eqb_eq in Hgood.
    destruct (Z.land sctlr 1 =? 0) eqn:Hon.
    { apply bind_inv in H as (? & ? & _ & H). inversion H. }
    apply Z.eqb_neq in Hon.
    apply bind_inv in H as (dacr & w2 & Hd & H).
    apply guard_inv in H as [Hdacr H].
    apply negb_false_iff, Z.eqb_eq in Hdacr. subst dacr.
    apply bind_inv in H as (ttbcr & w3 & Ht & H).
    apply guard_inv in H as [Httbcr H].
    apply negb_false_iff, Z.eqb_eq in Httbcr. subst ttbcr.
    apply bind_inv in H as (ttbr0 & w4 & Hb & H).
    apply guard_inv in H as [Halign H].
    apply negb_false_iff, Z.eqb_eq in Halign.
    apply bind_inv in H as ([] & w4' & _ & H).
    apply bind_inv in H as (raw & w5 & _ & H).
    destruct (table_shapeb (bytes_to_words raw 4096)) eqn:E.
    + rewrite (bind_ok _ _ _ _ _ (shape_loop_ok _ w5 E)) in H.
      assert (t = bytes_to_words raw 4096) as ->.
      { assert (R : returns
          (pr_info "Disabling I-cache, MMU and branch prediction..." ;;
           aw_fel_write (words_to_bytes mmu_disable_code) (scratch_addr soc) 24 ;;
           aw_fel_execute (scratch_addr soc) ;;
           pr_info " done." ;;
           ret (Some (bytes_to_words raw 4096)))
          (Some (bytes_to_words raw 4096))).
        { do 4 (apply returns_bind; intros _). apply returns_ret. }
        apply R in H. injection H as ->. reflexivity. }
      split; [apply bytes_to_words_length |].
      split; [apply table_shapeb_spec, E |].
      split; [exact Hgood |]. split; [exact Hon |].
      exists w2, w3, ttbr0, w4. auto.
    + exfalso.
      match type of H with
      | bind _ ?k _ = _ => destruct (shape_loop_bad _ k w5 E) as [F _]
      end.
      rewrite H in F. discriminate.
Qed.

(** C3.  Given the value read for SCTLR, what [aw_backup_and_disable_mmu]
    does next is fixed.  If SCTLR without the bits 13, 12, 11, 6 and 0 is
    not 0x00C50038, the run is fatal.  If it is and bit 0 (M) is clear, the
    result is no table and there is no further transfer: neither DACR,
    TTBCR, TTBR0 nor the table is read.  Otherwise DACR is read and the run
    is fatal unless it is 0x55555555; then TTBCR, fatal unless 0; then
    TTBR0, fatal unless its low 14 bits are 0; then the 16 KiB at TTBR0,
    fatal unless every entry has the shape of a section that maps its
    megabyte to itself.  When all of this holds and the thunk that turns
    the MMU off has run, the result is the table read, 4096 entries long;
    and a table is returned only on this path. *)
Theorem aw_backup_and_disable_mmu_checks (soc : soc_info_t) (w w1 : world)
    (sctlr : Z) :
  aw_get_sctlr soc w = (Ok sctlr, w1) ->
  let run := aw_backup_and_disable_mmu soc w in
  (Z.land sctlr SCTLR_MASK <> 0x00C50038 -> fatal run w1)
  /\ (Z.land sctlr SCTLR_MASK = 0x00C50038 -> Z.land sctlr 1 = 0 ->
      fst run = Ok None /\ quiet run w1)
  /\ (Z.land sctlr SCTLR_MASK = 0x00C50038 -> Z.land sctlr 1 <> 0 ->
      forall dacr w2, aw_get_dacr soc w1 = (Ok dacr, w2) ->
      (dacr <> 0x55555555 -> fatal run w2)
      /\ (dacr = 0x55555555 ->
          forall ttbcr w3, aw_get_ttbcr soc w2 = (Ok ttbcr, w3) ->
          (ttbcr <> 0 -> fatal run w3)
          /\ (ttbcr = 0 ->
              forall ttbr0 w4, aw_get_ttbr0 soc w3 = (Ok ttbr0, w4) ->
              (Z.land ttbr0 0x3FFF <> 0 -> fatal run w4)
              /\ (Z.land ttbr0 0x3FFF = 0 ->
                  forall raw w5,
                    (pr_info "Reading the MMU translation table from 0x%08X" ;;
                     aw_fel_read ttbr0 (16 * 1024)) w4 = (Ok raw, w5) ->
                  let tbl := bytes_to_words raw 4096 in
                  length tbl = 4096%nat
                  /\ (~ table_shape tbl -> fatal run w5)
                  /\ (table_shape tbl ->
                      forall w6,
                        (pr_info "Disabling I-cache, MMU and branch prediction..." ;;
                         aw_fel_write (words_to_bytes mmu_disable_code)
                                      (scratch_addr soc) 24 ;;
                         aw_fel_execute (scratch_addr soc) ;;
                         pr_info " done.") w5 = (Ok tt, w6) ->
                      run = (Ok (Some tbl), w6))))))
  /\ (forall t w', run = (Ok (Some t), w') ->
      length t = 4096%nat /\ table_shape t
      /\ Z.land sctlr SCTLR_MASK = 0x00C50038 /\ Z.land sctlr 1 <> 0
      /\ exists w2 w3 ttbr0 w4,
           aw_get_dacr soc w1 = (Ok 0x55555555, w2)
           /\ aw_get_ttbcr soc w2 = (Ok 0, w3)
           /\ aw_get_ttbr0 soc w3 = (Ok ttbr0, w4)
           /\ Z.land ttbr0 0x3FFF = 0).
Proof.
  intros Hs run. subst run.
  split; [| split; [| split]];
    [unfold aw_backup_and_disable_mmu; rewrite (bind_ok _ _ _ _ _ Hs) .. |].
  - intros Hbad. apply guard_fatal.
    apply negb_true_iff, Z.eqb_neq, Hbad.
  - intros Hgood Hoff.
    rewrite guard_pass by (apply negb_false_iff, Z.eqb_eq, Hgood).
    apply Z.eqb_eq in Hoff. rewrite Hoff.
    destruct (pr_info_quiet "MMU is not enabled by BROM" w1)
      as (w1' & E & L & I & _).
    rewrite (bind_ok _ _ _ _ _ E). unfold ret, quiet. simpl. auto.
  - intros Hgood Hon dacr w2 Hd.
    rewrite guard_pass by (apply negb_false_iff, Z.eqb_eq, Hgood).
    apply Z.eqb_neq in Hon. rewrite Hon.
    rewrite (bind_ok _ _ _ _ _ Hd).
    split; [intros Hbad; apply guard_fatal, negb_true_iff, Z.eqb_neq, Hbad |].
    intros Hdacr ttbcr w3 Ht.
    rewrite guard_pass by (apply negb_false_iff, Z.eqb_eq, Hdacr).
    rewrite (bind_ok _ _ _ _ _ Ht).
    split; [intros Hbad; apply guard_fatal, negb_true_iff, Z.eqb_neq, Hbad |].
    intros Httbcr ttbr0 w4 Hb.
    rewrite guard_pass by (apply negb_false_iff, Z.eqb_eq, Httbcr).
    rewrite (bind_ok _ _ _ _ _ Hb).
    split; [intros Hbad; apply guard_fatal, negb_true_iff, Z.eqb_neq, Hbad |].
    intros Halign raw w5 Hr. set (tbl := bytes_to_words raw 4096).
    rewrite guard_pass by (apply negb_false_iff, Z.eqb_eq, Halign).
    rewrite <- bind_assoc. rewrite (bind_ok _ _ _ _ _ Hr). fold tbl.
    split; [apply bytes_to_words_length |].
    split.
    + intros Hshape. apply shape_loop_bad.
      destruct (table_shapeb tbl) eqn:E; [| reflexivity].
      exfalso. apply Hshape, table_shapeb_spec, E.
    + intros Hshape w6 Hthunk.
      apply table_shapeb_spec in Hshape.
      rewrite (bind_ok _ _ _ _ _ (shape_loop_ok tbl w5 Hshape)).
      apply bind_inv in Hthunk as ([] & wa & Ha & Hthunk).
      rewrite (bind_ok _ _ _ _ _ Ha).
      apply bind_inv in Hthunk as ([] & wb & Hb' & Hthunk).
      rewrite (bind_ok _ _ _ _ _ Hb').
      apply bind_inv in Hthunk as ([] & wc & Hc & Hthunk).
      rewrite (bind_ok _ _ _ _ _ Hc).
      rewrite (bind_ok _ _ _ _ _ Hthunk). reflexivity.
  - apply (aw_backup_and_disable_mmu_returns_table soc w w1 sctlr Hs).
Qed.


(** The register reads of [mmu_off_world]: SCTLR passes the check and has
    M clear, so there is no table and nothing else is read. *)
Lemma aw_backup_and_disable_mmu_checks_witness :
  exists w1,
    aw_get_sctlr mmu_off_soc_info mmu_off_world = (Ok 0x00C50038, w1)
    /\ fst (aw_backup_and_disable_mmu mmu_off_soc_info mmu_off_world) = Ok None
    /\ quiet (aw_backup_and_disable_mmu mmu_off_soc_info mmu_off_world) w1.
Proof.
  eexists. split; [vm_compute; reflexivity |].
  refine (proj1 (proj2 (aw_backup_and_disable_mmu_checks mmu_off_soc_info
                          mmu_off_world _ 0x00C50038 _)) _ _).
  - vm_compute. reflexivity.
  - vm_compute. reflexivity.
  - vm_compute. reflexivity.
Defined.

(** With the MMU on and everything as expected, the table comes back. *)
Example backup_of_enabled_mmu :
  fst (aw_backup_and_disable_mmu a10_soc_info mmu_on_world)
    = Ok (Some aw_generate_mmu_translation_table).
Proof. vm_compute. reflexivity. Qed.

(** ** The eGON header *)

Lemma egon_validb_spec buf len : egon_validb buf len = true <-> egon_valid buf len.
Proof.
  unfold egon_validb, egon_valid.
  rewrite !andb_true_iff, !Z.leb_le, !Z.eqb_eq, bool_decide_eq_true. tauto.
Qed.

(** Subtracting the words one by one, modulo 2^32, is subtracting their
    sum. *)
Lemma checksum_fold (f : nat -> Z) (l : list nat) (c : Z) :
  foldl (fun c i => u32 (c - f i)) (u32 c) l
    = u32 (c - fold_right Z.add 0 (map f l)).
Proof.
  revert c. induction l as [| i l IH]; intros c; cbn [foldl fold_right map].
  - rewrite Z.sub_0_r. reflexivity.
  - replace (u32 (u32 c - f i)) with (u32 (c - f i))
      by (unfold u32; rewrite Zminus_mod_idemp_l; reflexivity).
    rewrite IH. f_equal. lia.
Qed.

Lemma spl_check_header_spec buf len w :
  (egon_valid buf len ->
   spl_check_header buf len w = (Ok (le32toh_at buf 4), w))
  /\ (~ egon_valid buf len -> fatal (spl_check_header buf len w) w).
Proof.
  rewrite <- egon_validb_spec. unfold egon_validb, spl_check_header.
  rewrite checksum_fold. fold (bytes_to_words buf (Z.to_nat (le32toh_at buf 4 / 4))).
  fold (sum_words buf (Z.to_nat (le32toh_at buf 4 / 4))).
  unfold u32.
  destruct (Z.leb_spec 32 len) as [H32 | H32].
  2: { split; [discriminate | intros _].
       apply guard_fatal. apply orb_true_iff. left. apply Z.ltb_lt. lia. }
  destruct (bool_decide (take 8 (drop 4 buf) = bytes_of_string "eGON.BT0")) eqn:Htag.
  2: { split; [discriminate | intros _].
       apply guard_fatal. apply orb_true_iff. right. reflexivity. }
  rewrite guard_pass
    by (apply orb_false_iff; split; [apply Z.ltb_ge; lia | reflexivity]).
  destruct (Z.leb_spec (le32toh_at buf 4) len) as [Hlen | Hlen].
  2: { split; [discriminate | intros _].
       apply guard_fatal. apply orb_true_iff. left. apply Z.ltb_lt. lia. }
  destruct (Z.eqb_spec (le32toh_at buf 4 mod 4) 0) as [Hal | Hal].
  2: { split; [discriminate | intros _].
       apply guard_fatal. apply orb_true_iff. right. reflexivity. }
  rewrite guard_pass
    by (apply orb_false_iff; split; [apply Z.ltb_ge; lia | reflexivity]).
  simpl andb.
  destruct (Z.eqb_spec ((2 * le32toh_at buf 3 - 0x5F0A6C39
              - sum_words buf (Z.to_nat (le32toh_at buf 4 / 4))) mod 2 ^ 32) 0)
    as [Hsum | Hsum].
  - split; [intros _ | intros H; exfalso; apply H; reflexivity].
    rewrite guard_pass by reflexivity. reflexivity.
  - split; [discriminate | intros _]. apply guard_fatal. reflexivity.
Qed.

(** C2.  Once the SoC record is there, [aw_fel_write_and_execute_spl] goes
    on with a buffer of [len] bytes only if [len >= 32], the bytes 4..11 are
    "eGON.BT0", the length stored in word 4 is at most [len] and a multiple
    of 4, and twice the checksum stored in word 3, minus 0x5F0A6C39, minus
    the sum of the first [spl_len / 4] little-endian words is 0 modulo 2^32.
    If any of these fails, it prints a diagnostic and exits with status 1,
    and no transfer has taken place after the SoC record was obtained. *)
Theorem spl_header_gate (get_soc_info_from_version : aw_fel_version -> soc_info_t)
    (fel_to_spl_thunk : list Z) (buf : list Z) (len : Z)
    (w w1 : world) (soc : soc_info_t) :
  aw_fel_get_soc_info get_soc_info_from_version w = (Ok soc, w1) ->
  let run :=
    aw_fel_write_and_execute_spl get_soc_info_from_version fel_to_spl_thunk
      buf len w in
  (~ egon_valid buf len -> fatal run w1)
  /\ (fst run = Ok tt -> egon_valid buf len).
Proof.
  intros Hsoc run.
  assert (Hfatal : ~ egon_valid buf len -> fatal run w1).
  { intros Hbad. subst run. unfold aw_fel_write_and_execute_spl.
    rewrite (bind_ok _ _ _ _ _ Hsoc).
    destruct (swap_buffers soc) as [swaps |].
    - apply fatal_bind. apply spl_check_header_spec, Hbad.
    - unfold bind, eprintf, exit. simpl. repeat split. eexists. reflexivity. }
  split; [exact Hfatal |].
  intros Hok. destruct (egon_validb buf len) eqn:E.
  - apply egon_validb_spec, E.
  - exfalso. destruct Hfatal as [F _].
    + intros Hv. apply egon_validb_spec in Hv. congruence.
    + congruence.
Qed.

Lemma spl_header_gate_witness :
  fatal
    (aw_fel_write_and_execute_spl (fun _ => a10_soc_info) [] [] 0
       (initial_world (Some a10_soc_info) []))
    (initial_world (Some a10_soc_info) []).
Proof.
  refine (proj1 (spl_header_gate (fun _ => a10_soc_info) [] [] 0
                   (initial_world (Some a10_soc_info) []) _ a10_soc_info _) _).
  - vm_compute. reflexivity.
  - intros [H _]. lia.
Defined.

(** An image with its checksum in place passes. *)
Example egon_image_valid : egon_valid (egon_image 0x3000 0x5A) 0x3000.
Proof. apply egon_validb_spec. vm_compute. reflexivity. Qed.

(** ** The upload through the swap buffers *)

Lemma fel_write_events_take buf dest n :
  0 < n <= Z.of_nat (length buf) ->
  fel_events (FelWrite buf dest n)
    = plan_events (write_item dest (take (Z.to_nat n) buf)).
Proof.
  intros Hn. unfold write_item.
  destruct (take (Z.to_nat n) buf) as [| b bs] eqn:E.
  - apply (f_equal length) in E. rewrite length_take in E. simpl in E. lia.
  - rewrite <- E. unfold plan_events. simpl. rewrite app_nil_r.
    rewrite length_take.
    replace (Z.of_nat (Z.to_nat n `min` length buf)) with n by lia.
    unfold fel_events, fel_op_txns, flat_map, txn_events.
    rewrite take_take. replace (Z.to_nat n `min` Z.to_nat n)%nat with (Z.to_nat n) by lia.
    reflexivity.
Qed.

(** One write of the loop. *)
Lemma spl_write_ok dest tmp c w c' w' :
  0 < tmp < 2 ^ 32 ->
  0 < cur_len c <= Z.of_nat (length (cur_buf c)) ->
  0 <= cur_addr c -> cur_addr c + Z.min tmp (cur_len c) < 2 ^ 32 ->
  spl_write dest tmp c w = (Ok c', w') ->
  usb_log w' = usb_log w
    ++ plan_events (write_item dest
         (take (Z.to_nat (Z.min tmp (cur_len c))) (cur_buf c)))
  /\ c' = mk_cursor (cur_addr c + Z.min tmp (cur_len c))
                    (drop (Z.to_nat (Z.min tmp (cur_len c))) (cur_buf c))
                    (cur_len c - Z.min tmp (cur_len c))
                    (spl_len_limit c) (swap_i c).
Proof.
  intros Htmp Hlen Hcur Hsum H. unfold spl_write in H.
  assert ((if cur_len c <? tmp then u32 (cur_len c) else tmp)
          = Z.min tmp (cur_len c)) as E.
  { destruct (Z.ltb_spec (cur_len c) tmp).
    - unfold u32. rewrite Z.mod_small by lia. lia.
    - lia. }
  rewrite E in H. clear E.
  apply bind_inv in H as ([] & w1 & H1 & H2).
  apply does_aw_fel_write in H1 as [L _].
  inversion H2; subst. split.
  - rewrite L. f_equal. apply fel_write_events_take. lia.
  - f_equal. unfold u32. apply Z.mod_small. lia.
Qed.

Lemma loop_plan_nil swaps cur :
  exists cur', loop_plan swaps cur [] = ([], (cur', [])).
Proof.
  revert cur. induction swaps as [| sb swaps IH]; intros cur; simpl.
  - eexists. reflexivity.
  - destruct (size sb =? 0); [eexists; reflexivity |].
    rewrite !take_nil, !drop_nil, take_nil. simpl.
    destruct (IH (buf1 sb + Z.of_nat 0)) as [cur' ->]. eexists. reflexivity.
Qed.

Lemma plan_events_app p q : plan_events (p ++ q) = plan_events p ++ plan_events q.
Proof. unfold plan_events. apply flat_map_app. Qed.


Lemma swap_entry_plan sb c lo cur_s w c2 w2 :
  lo <= buf1 sb -> 0 < size sb -> buf1 sb + size sb < 2 ^ 32 ->
  0 <= cur_addr c ->
  0 <= cur_len c <= Z.of_nat (length (cur_buf c)) ->
  (cur_len c = 0 \/ (cur_addr c = cur_s /\ cur_s <= lo)) ->
  swap_entry sb c w = (Ok c2, w2) ->
  let spl := take (Z.to_nat (cur_len c)) (cur_buf c) in
  let head := take (Z.to_nat (buf1 sb - cur_s)) spl in
  let spl1 := drop (Z.to_nat (buf1 sb - cur_s)) spl in
  let swapped := take (Z.to_nat (size sb)) spl1 in
  usb_log w2 = usb_log w
    ++ plan_events (write_item cur_s head ++ write_item (buf2 sb) swapped)
  /\ 0 <= cur_len c2 <= Z.of_nat (length (cur_buf c2))
  /\ take (Z.to_nat (cur_len c2)) (cur_buf c2) = drop (Z.to_nat (size sb)) spl1
  /\ (cur_len c2 = 0 \/ cur_addr c2 = buf1 sb + Z.of_nat (length swapped))
  /\ 0 <= cur_addr c2
  /\ spl_len_limit c2 = spl_len_limit c /\ swap_i c2 = swap_i c.
Proof.
  intros Hlo Hsize Hend Hcur Hlen Hinv H spl head spl1 swapped.
  unfold swap_entry in H.
  destruct (Z.eq_dec (cur_len c) 0) as [HL0 | HL0].
  - (* nothing left to write *)
    rewrite HL0 in H. cbn in H. rewrite HL0 in H. cbn in H.
    injection H as <- <-.
    subst swapped spl1 head spl. rewrite HL0.
    change (Z.to_nat 0) with 0%nat. rewrite take_0.
    repeat (rewrite ?take_nil, ?drop_nil). simpl.
    rewrite app_nil_r. repeat split; lia.
  - destruct Hinv as [? | [Hs Hcs]]; [contradiction |]. subst cur_s.
    assert (0 < cur_len c) as HLpos by lia.
    replace (0 <? cur_len c) with true in H by (symmetry; apply Z.ltb_lt; lia).
    rewrite andb_true_l in H.
    apply bind_inv in H as (c1 & w1 & H1 & H2).
    set (d := buf1 sb - cur_addr c) in *.
    assert (0 <= d) as Hd by (unfold d; lia).
    (* the first write *)
    assert (usb_log w1 = usb_log w
              ++ plan_events (write_item (cur_addr c)
                   (take (Z.to_nat (Z.min d (cur_len c))) (cur_buf c)))
            /\ c1 = mk_cursor (cur_addr c + Z.min d (cur_len c))
                      (drop (Z.to_nat (Z.min d (cur_len c))) (cur_buf c))
                      (cur_len c - Z.min d (cur_len c))
                      (spl_len_limit c) (swap_i c)) as [L1 E1].
    { destruct (Z.ltb_spec (cur_addr c) (buf1 sb)) as [Hlt | Hge].
      - assert (u32 d = d) as Eu
          by (unfold u32; apply Z.mod_small; unfold d; lia).
        rewrite Eu in H1.
        apply spl_write_ok in H1;
          [exact H1 | unfold d; lia | lia | lia | unfold d; lia].
      - injection H1 as <- <-.
        replace (Z.min d (cur_len c)) with 0 by lia.
        change (Z.to_nat 0) with 0%nat. rewrite take_0, drop_0. simpl.
        rewrite app_nil_r, Z.add_0_r, Z.sub_0_r. destruct c; auto. }
    subst c1. cbn [cur_len cur_addr cur_buf spl_len_limit swap_i] in H2.
    (* the bytes up to buf1, in words *)
    assert (head = take (Z.to_nat (Z.min d (cur_len c))) (cur_buf c)) as Ehead.
    { subst head spl. rewrite take_take. f_equal. lia. }
    assert (spl1 = take (Z.to_nat (cur_len c) - Z.to_nat d) (drop (Z.to_nat d) (cur_buf c)))
      as Espl1.
    { subst spl1 spl. apply skipn_firstn_comm. }
    rewrite <- Ehead in L1.
    destruct (Z.le_gt_cases (cur_len c) d) as [Hshort | Hlong].
    + (* the bytes end before buf1 *)
      replace (Z.min d (cur_len c)) with (cur_len c) in H2 by lia.
      rewrite Z.sub_diag in H2. cbn in H2. injection H2 as <- <-.
      cbn [cur_len cur_addr cur_buf spl_len_limit swap_i].
      assert (spl1 = []) as ->.
      { rewrite Espl1. replace (Z.to_nat (cur_len c) - Z.to_nat d)%nat with 0%nat by lia.
        apply take_0. }
      subst swapped. rewrite take_nil, drop_nil. simpl. rewrite app_nil_r.
      change (Z.to_nat 0) with 0%nat. rewrite take_0.
      repeat split; (assumption || lia).
    + (* the cursor reaches buf1 *)
      replace (Z.min d (cur_len c)) with d in H2 by lia.
      replace (cur_addr c + d) with (buf1 sb) in H2 by (unfold d; lia).
      replace (0 <? cur_len c - d) with true in H2 by (symmetry; apply Z.ltb_lt; lia).
      rewrite Z.eqb_refl in H2. cbn [andb] in H2.
      apply spl_write_ok in H2;
        cbn [cur_len cur_addr cur_buf spl_len_limit swap_i];
        [| lia | rewrite length_drop; lia | lia | lia].
      cbn [cur_len cur_addr cur_buf spl_len_limit swap_i] in H2.
      destruct H2 as [L2 ->]. cbn [cur_len cur_addr cur_buf spl_len_limit swap_i].
      assert (swapped = take (Z.to_nat (Z.min (size sb) (cur_len c - d)))
                             (drop (Z.to_nat d) (cur_buf c))) as Eswapped.
      { subst swapped. rewrite Espl1, take_take. f_equal. lia. }
      rewrite <- Eswapped in L2.
      assert (length swapped = Z.to_nat (Z.min (size sb) (cur_len c - d))) as Elen.
      { rewrite Eswapped, length_take, length_drop. lia. }
      split; [rewrite L2, L1, plan_events_app, app_assoc; reflexivity |].
      split; [rewrite !length_drop; lia |].
      split.
      { rewrite Espl1, skipn_firstn_comm, !drop_drop.
        destruct (Z.le_gt_cases (size sb) (cur_len c - d)).
        - replace (Z.min (size sb) (cur_len c - d)) with (size sb) by lia.
          f_equal. lia.
        - replace (Z.min (size sb) (cur_len c - d)) with (cur_len c - d) by lia.
          rewrite Z.sub_diag.
          replace (Z.to_nat (cur_len c) - Z.to_nat d - Z.to_nat (size sb))%nat
            with 0%nat by lia.
          change (Z.to_nat 0) with 0%nat. rewrite !take_0. reflexivity. }
      split; [right; rewrite Elen; lia |].
      split; [lia |]. split; reflexivity.
Qed.




Lemma spl_swap_loop_plan soc swaps :
  forall c lo cur_s w c' w',
  swaps_ascending lo swaps ->
  0 <= cur_addr c ->
  0 <= cur_len c <= Z.of_nat (length (cur_buf c)) ->
  (cur_len c = 0 \/ (cur_addr c = cur_s /\ cur_s <= lo)) ->
  spl_swap_loop soc swaps c w = (Ok c', w') ->
  usb_log w' = usb_log w
    ++ plan_events (fst (loop_plan swaps cur_s
                           (take (Z.to_nat (cur_len c)) (cur_buf c))))
  /\ 0 <= cur_len c' <= Z.of_nat (length (cur_buf c'))
  /\ take (Z.to_nat (cur_len c')) (cur_buf c')
       = snd (snd (loop_plan swaps cur_s
                     (take (Z.to_nat (cur_len c)) (cur_buf c))))
  /\ (cur_len c' = 0
      \/ cur_addr c' = fst (snd (loop_plan swaps cur_s
                              (take (Z.to_nat (cur_len c)) (cur_buf c)))))
  /\ spl_len_limit c' = swap_limit soc swaps (spl_len_limit c).
Proof.
  induction swaps as [| sb swaps IH]; intros c lo cur_s w c' w' Hasc Hcur Hlen Hinv H.
  - simpl in H. inversion H; subst. simpl. rewrite app_nil_r.
    repeat split; lia.
  - cbn [spl_swap_loop] in H. cbn [loop_plan swap_limit].
    destruct (size sb =? 0) eqn:Hsz.
    { inversion H; subst. simpl. rewrite app_nil_r.
      repeat split; lia. }
    apply Z.eqb_neq in Hsz. simpl in Hasc.
    destruct Hasc as [? | (Hlo & Hsize & Hend & Hasc)]; [contradiction |].
    apply bind_inv in H as (c2 & w2 & H1 & H2).
    apply (swap_entry_plan sb _ lo cur_s) in H1;
      cbn [cur_len cur_addr cur_buf spl_len_limit swap_i]; try assumption.
    cbn [cur_len cur_addr cur_buf spl_len_limit swap_i] in H1.
    destruct H1 as (L1 & Hlen2 & Hrest & Hcur2 & Hpos2 & Hlim2 & _).
    set (spl := take (Z.to_nat (cur_len c)) (cur_buf c)) in *.
    set (spl1 := drop (Z.to_nat (buf1 sb - cur_s)) spl) in *.
    set (swapped := take (Z.to_nat (size sb)) spl1) in *.
    apply (IH _ (buf1 sb + size sb) (buf1 sb + Z.of_nat (length swapped))) in H2;
      cbn [cur_len cur_addr cur_buf spl_len_limit swap_i]; try assumption.
    + cbn [cur_len cur_addr cur_buf spl_len_limit swap_i] in H2.
      rewrite Hrest, Hlim2 in H2.
      destruct (loop_plan swaps (buf1 sb + Z.of_nat (length swapped))
                  (drop (Z.to_nat (size sb)) spl1)) as [ws [cur' rest]].
      cbn [fst snd] in *.
      destruct H2 as (L2 & Hlen' & Hrest' & Hcur' & Hlim').
      split; [| auto].
      rewrite L2, L1, !plan_events_app, !app_assoc. reflexivity.
    + destruct Hcur2 as [? | Hc]; [left; assumption | right].
      split; [assumption |].
      subst swapped. rewrite length_take. lia.
Qed.





(** ** Large transfers *)

Lemma u32_range x : 0 <= u32 x < 2 ^ 32.
Proof. unfold u32. apply Z.mod_pos_bound. lia. Qed.

Lemma u32_small x : 0 <= x < 2 ^ 32 -> u32 x = x.
Proof. intros H. unfold u32. apply Z.mod_small, H. Qed.

Lemma u32_add_l x y : u32 (u32 x + y) = u32 (x + y).
Proof. unfold u32. apply Zplus_mod_idemp_l. Qed.

Lemma map_fmap {A B C} (f : B -> C) (g : A -> B) (l : list A) :
  map f (g <$> l) = map (fun x => f (g x)) l.
Proof. induction l as [| x l IH]; [reflexivity |]. cbn. f_equal. exact IH. Qed.

Lemma rounds_zero addr count : count <= 0 -> rounds addr count = [].
Proof.
  intros H. unfold rounds, range, LCODE_MAX_WORDS, LCODE_MAX_TOTAL, LCODE_ARM_WORDS.
  rewrite seqZ_nil; [reflexivity |].
  assert ((count + (256 - 12) - 1) / (256 - 12) < 1); [| lia].
  apply Z.div_lt_upper_bound; lia.
Qed.

Lemma rounds_unfold addr count :
  0 <= addr < 2 ^ 32 -> 0 < count ->
  let n := if LCODE_MAX_WORDS <? count then LCODE_MAX_WORDS else count in
  rounds addr count = (addr, n) :: rounds (u32 (addr + n * 4)) (count - n).
Proof.
  intros Ha Hc n. subst n. unfold rounds, range.
  unfold LCODE_MAX_WORDS, LCODE_MAX_TOTAL, LCODE_ARM_WORDS.
  change (256 - 12) with 244. rewrite !Z.sub_0_r.
  destruct (Z.ltb_spec 244 count) as [Hbig | Hsmall].
  - replace ((count + 244 - 1) / 244) with (1 + (count - 244 + 244 - 1) / 244).
    2: { replace (count + 244 - 1) with (1 * 244 + (count - 244 + 244 - 1)) by lia.
         rewrite Z.div_add_l by lia. reflexivity. }
    assert (0 <= (count - 244 + 244 - 1) / 244) by (apply Z.div_pos; lia).
    rewrite seqZ_cons by lia. cbn [map].
    f_equal.
    + f_equal; [rewrite Z.mul_0_r, Z.add_0_r; apply u32_small, Ha | lia].
    + replace (Z.pred (1 + (count - 244 + 244 - 1) / 244))
        with ((count - 244 + 244 - 1) / 244) by lia.
      change (Z.succ 0) with (1 + 0). rewrite <- (fmap_add_seqZ 1 0).
      rewrite map_fmap. apply map_ext. intros k.
      f_equal; [| lia]. rewrite u32_add_l. f_equal. lia.
  - replace ((count + 244 - 1) / 244) with 1.
    2: { apply Z.div_unique with (r := count - 1); lia. }
    replace ((count - count + 244 - 1) / 244) with 0.
    2: { apply Z.div_unique with (r := 243); lia. }
    rewrite (seqZ_cons 0 1), (seqZ_nil _ (Z.pred 1)), (seqZ_nil 0 0) by lia.
    cbn [map]. f_equal.
    f_equal; [rewrite Z.mul_0_r, Z.add_0_r; apply u32_small, Ha | lia].
Qed.

Lemma round_size (count : Z) :
  (if LCODE_MAX_WORDS <? count then LCODE_MAX_WORDS else count)
    = Z.min LCODE_MAX_WORDS count.
Proof. destruct (Z.ltb_spec LCODE_MAX_WORDS count); lia. Qed.

Lemma fel_readl_n_rounds gsi count :
  forall addr w, 0 <= addr < 2 ^ 32 -> 0 <= count ->
  fel_readl_n gsi addr count w = read_rounds gsi (rounds addr count) w.
Proof.
  pattern count. apply (well_founded_induction (Z.lt_wf 0)).
  clear count. intros count IH addr w Ha Hc.
  rewrite fel_readl_n_equation_1.
  destruct (decide (0 < count)) as [Hpos | Hzero]; cbn [fel_readl_n_unfold_clause_1].
  - rewrite rounds_unfold by assumption. cbn [read_rounds fst snd].
    cbv zeta. unfold bind.
    destruct (aw_fel_readl_n gsi addr _ w) as [[d | c |] w1]; try reflexivity.
    rewrite IH; [reflexivity | | apply u32_range |];
      rewrite round_size; unfold LCODE_MAX_WORDS, LCODE_MAX_TOTAL, LCODE_ARM_WORDS; lia.
  - rewrite rounds_zero by lia. reflexivity.
Qed.

Lemma fel_writel_n_rounds gsi count :
  forall addr src w, 0 <= addr < 2 ^ 32 -> 0 <= count ->
  fel_writel_n gsi addr src count w
    = write_rounds gsi (rounds addr count) src w.
Proof.
  pattern count. apply (well_founded_induction (Z.lt_wf 0)).
  clear count. intros count IH addr src w Ha Hc.
  rewrite fel_writel_n_equation_1.
  destruct (decide (0 < count)) as [Hpos | Hzero]; cbn [fel_writel_n_unfold_clause_1].
  - rewrite rounds_unfold by assumption. cbn [write_rounds fst snd].
    cbv zeta. unfold bind.
    destruct (aw_fel_writel_n gsi addr src _ w) as [[d | c |] w1]; try reflexivity.
    rewrite IH; [reflexivity | | apply u32_range |];
      rewrite round_size; unfold LCODE_MAX_WORDS, LCODE_MAX_TOTAL, LCODE_ARM_WORDS; lia.
  - rewrite rounds_zero by lia. reflexivity.
Qed.

Lemma rounds_sizes addr count :
  Forall (fun r => 0 < snd r <= LCODE_MAX_WORDS) (rounds addr count).
Proof.
  unfold rounds, range. apply Forall_forall. intros r Hin.
  apply list_elem_of_In, in_map_iff in Hin as (k & <- & Hk).
  apply list_elem_of_In, elem_of_seqZ in Hk. cbn [snd].
  unfold LCODE_MAX_WORDS, LCODE_MAX_TOTAL, LCODE_ARM_WORDS in *.
  change (256 - 12) with 244 in *.
  pose proof (Z.mul_div_le (count + 244 - 1) 244 ltac:(lia)). lia.
Qed.

Lemma word_addrs_split addr n count :
  0 <= n <= count ->
  word_addrs addr count
    = word_addrs addr n ++ word_addrs (u32 (addr + n * 4)) (count - n).
Proof.
  intros Hn. unfold word_addrs, range. rewrite !Z.sub_0_r.
  replace count with (n + (count - n)) at 1 by lia.
  rewrite seqZ_app by lia. rewrite map_app. f_equal.
  replace (seqZ (0 + n) (count - n)) with (Z.add n <$> seqZ 0 (count - n))
    by (rewrite fmap_add_seqZ; f_equal; lia).
  rewrite map_fmap. apply map_ext. intros j. rewrite u32_add_l. f_equal. lia.
Qed.

Lemma rounds_addrs count :
  forall addr, 0 <= addr < 2 ^ 32 -> 0 <= count ->
  flat_map round_addrs (rounds addr count) = word_addrs addr count.
Proof.
  pattern count. apply (well_founded_induction (Z.lt_wf 0)).
  clear count. intros count IH addr Ha Hc.
  destruct (Z.eq_dec count 0) as [-> | Hne].
  - rewrite rounds_zero by lia. reflexivity.
  - rewrite rounds_unfold by lia. cbv zeta. rewrite round_size.
    cbn [flat_map]. unfold round_addrs at 1. cbn [fst snd].
    unfold LCODE_MAX_WORDS, LCODE_MAX_TOTAL, LCODE_ARM_WORDS in *.
    rewrite IH by (try apply u32_range; lia).
    symmetry. apply word_addrs_split. lia.
Qed.

Lemma take_plus {A} (n m : nat) (l : list A) :
  take (n + m) l = take n l ++ take m (drop n l).
Proof.
  revert l. induction n as [| n IH]; intros l; [reflexivity |].
  destruct l as [| x l]; [rewrite drop_nil, !take_nil; reflexivity |].
  simpl. rewrite IH. reflexivity.
Qed.

Lemma rounds_data_concat count :
  forall addr src, 0 <= addr < 2 ^ 32 -> 0 <= count ->
  concat (rounds_data (rounds addr count) src) = take (Z.to_nat count) src.
Proof.
  pattern count. apply (well_founded_induction (Z.lt_wf 0)).
  clear count. intros count IH addr src Ha Hc.
  destruct (Z.eq_dec count 0) as [-> | Hne].
  - rewrite rounds_zero by lia. reflexivity.
  - rewrite rounds_unfold by lia. cbv zeta. rewrite round_size.
    cbn [rounds_data concat fst snd].
    unfold LCODE_MAX_WORDS, LCODE_MAX_TOTAL, LCODE_ARM_WORDS in *.
    rewrite IH by (try apply u32_range; lia).
    rewrite <- take_plus. f_equal. lia.
Qed.

(** C8.  For an address and a count of words, [fel_readl_n] is the rounds
    of [aw_fel_readl_n] one after the other, and [fel_writel_n] those of
    [aw_fel_writel_n] with the source pointer moved on by the size of each
    round.  Every round has between 1 and 244 words, round [k] starts at
    word [244 * k], the rounds taken together cover the word addresses
    [addr], [addr + 4], ..., [addr + 4 * (count - 1)] (modulo 2^32) in this
    order, a write takes the first [count] words of the source in this
    order, and a count of 0 has no round. *)
Theorem fel_rounds (get_soc_info_from_version : aw_fel_version -> soc_info_t)
    (addr count : Z) (src : list Z) (w : world) :
  0 <= addr < 2 ^ 32 -> 0 <= count ->
  fel_readl_n get_soc_info_from_version addr count w
    = read_rounds get_soc_info_from_version (rounds addr count) w
  /\ fel_writel_n get_soc_info_from_version addr src count w
       = write_rounds get_soc_info_from_version (rounds addr count) src w
  /\ Forall (fun r => 0 < snd r <= 244) (rounds addr count)
  /\ flat_map round_addrs (rounds addr count)
       = map (fun j => u32 (addr + 4 * j)) (range 0 count)
  /\ concat (rounds_data (rounds addr count) src) = take (Z.to_nat count) src
  /\ (count = 0 -> rounds addr count = []).
Proof.
  intros Ha Hc.
  split; [apply fel_readl_n_rounds; assumption |].
  split; [apply fel_writel_n_rounds; assumption |].
  split; [apply rounds_sizes |].
  split; [apply rounds_addrs; assumption |].
  split; [apply rounds_data_concat; assumption |].
  intros ->. apply rounds_zero. lia.
Qed.

(** 500 words from 0x40000000: rounds of 244, 244 and 12 words. *)
Lemma fel_rounds_witness :
  rounds 0x40000000 500
    = [(0x40000000, 244); (0x400003D0, 244); (0x400007A0, 12)]
  /\ forall src w,
       fel_writel_n (fun _ => a10_soc_info) 0x40000000 src 500 w
         = write_rounds (fun _ => a10_soc_info)
             [(0x40000000, 244); (0x400003D0, 244); (0x400007A0, 12)] src w.
Proof.
  split; [vm_compute; reflexivity |].
  intros src w.
  apply (proj1 (proj2 (fel_rounds (fun _ => a10_soc_info) 0x40000000 500 src w
                         ltac:(lia) ltac:(lia)))).
Defined.

(** ** Exit statuses *)

Lemma oue_ret {A} (a : A) : only_usb_exit (ret a).
Proof. intros w c w' H. discriminate. Qed.

Lemma oue_bind {A B} (p : M A) (k : A -> M B) :
  only_usb_exit p -> (forall a, only_usb_exit (k a)) -> only_usb_exit (bind p k).
Proof.
  intros Hp Hk w c w' H. unfold bind in H.
  destruct (p w) as [[a | c1 |] w1] eqn:E.
  - eapply Hk. eassumption.
  - inversion H; subst. eapply Hp. eassumption.
  - discriminate.
Qed.

Lemma oue_assert b : only_usb_exit (assert b).
Proof. intros w c w' H. unfold assert in H. destruct b; discriminate. Qed.

Lemma oue_eprintf msg : only_usb_exit (eprintf msg).
Proof. intros w c w' H. discriminate. Qed.

Lemma oue_get_world : only_usb_exit get_world.
Proof. intros w c w' H. discriminate. Qed.

Lemma oue_set_soc_cache s : only_usb_exit (set_soc_cache s).
Proof. intros w c w' H. discriminate. Qed.

Lemma oue_libusb_out d : only_usb_exit (libusb_out d).
Proof. intros w c w' H. discriminate. Qed.

Lemma oue_libusb_in n : only_usb_exit (libusb_in n).
Proof.
  intros w c w' H. unfold libusb_in in H. destruct (decide _); discriminate.
Qed.

Lemma oue_usb_error caption : only_usb_exit (usb_error caption 2).
Proof.
  intros w c w' H. unfold usb_error, bind, eprintf, exit in H. simpl in H.
  inversion H. reflexivity.
Qed.

Create HintDb oue.
#[local] Hint Resolve oue_ret oue_assert oue_eprintf oue_get_world
  oue_set_soc_cache oue_libusb_out oue_libusb_in oue_usb_error : oue.

Ltac oue_steps :=
  repeat first
    [ solve [auto with oue]
    | apply oue_bind; [| intros ? ]
    | match goal with
      | |- only_usb_exit (if ?b then _ else _) => destruct b
      | |- only_usb_exit (match ?x with _ => _ end) => destruct x
      end ].

Lemma oue_usb_bulk_send ep data len progress :
  only_usb_exit (usb_bulk_send ep data len progress).
Proof. unfold usb_bulk_send. oue_steps. Qed.

Lemma oue_usb_bulk_recv len : only_usb_exit (usb_bulk_recv len).
Proof. unfold usb_bulk_recv. oue_steps. Qed.
#[local] Hint Resolve oue_usb_bulk_send oue_usb_bulk_recv : oue.

Lemma oue_aw_usb_write data len progress :
  only_usb_exit (aw_usb_write data len progress).
Proof.
  unfold aw_usb_write, aw_send_usb_request, aw_read_usb_response. oue_steps.
Qed.

Lemma oue_aw_usb_read len : only_usb_exit (aw_usb_read len).
Proof.
  unfold aw_usb_read, aw_send_usb_request, aw_read_usb_response. oue_steps.
Qed.
#[local] Hint Resolve oue_aw_usb_write oue_aw_usb_read : oue.

Lemma oue_aw_fel_write buf offset len : only_usb_exit (aw_fel_write buf offset len).
Proof.
  unfold aw_fel_write, aw_send_fel_request, aw_read_fel_status. oue_steps.
Qed.

Lemma oue_aw_fel_read offset len : only_usb_exit (aw_fel_read offset len).
Proof.
  unfold aw_fel_read, aw_send_fel_request, aw_read_fel_status. oue_steps.
Qed.

Lemma oue_aw_fel_execute offset : only_usb_exit (aw_fel_execute offset).
Proof.
  unfold aw_fel_execute, aw_send_fel_request, aw_read_fel_status. oue_steps.
Qed.

Lemma oue_aw_fel_get_version : only_usb_exit aw_fel_get_version.
Proof.
  unfold aw_fel_get_version, aw_send_fel_request, aw_read_fel_status. oue_steps.
Qed.
#[local] Hint Resolve oue_aw_fel_write oue_aw_fel_read oue_aw_fel_execute
  oue_aw_fel_get_version : oue.

Lemma oue_aw_fel_get_soc_info gsi : only_usb_exit (aw_fel_get_soc_info gsi).
Proof. unfold aw_fel_get_soc_info. oue_steps. Qed.

Lemma oue_truncate_count who count : only_usb_exit (truncate_count who count).
Proof. unfold truncate_count. oue_steps. Qed.
#[local] Hint Resolve oue_aw_fel_get_soc_info oue_truncate_count : oue.

Lemma oue_aw_fel_readl_n gsi addr count :
  only_usb_exit (aw_fel_readl_n gsi addr count).
Proof. unfold aw_fel_readl_n. oue_steps. Qed.

Lemma oue_aw_fel_writel_n gsi addr src count :
  only_usb_exit (aw_fel_writel_n gsi addr src count).
Proof. unfold aw_fel_writel_n. oue_steps. Qed.

(** ** Transfers of a run that may fail *)

Lemma upto_nil {A} (p : M A) evs :
  (forall w r w', p w = (r, w') ->
     usb_log w' = usb_log w /\ exists msgs, err_log w' = err_log w ++ msgs) ->
  upto p evs.
Proof.
  intros H w r w' E. apply H in E as [L Er]. split; [| exact Er].
  exists 0%nat. rewrite take_0, app_nil_r. exact L.
Qed.

Lemma upto_ret {A} (a : A) evs : upto (ret a) evs.
Proof.
  apply upto_nil. intros w r w' E. inversion E; subst.
  split; [reflexivity | exists []; rewrite app_nil_r; reflexivity].
Qed.

Lemma upto_assert b evs : upto (assert b) evs.
Proof.
  apply upto_nil. intros w r w' E. unfold assert in E.
  destruct b; inversion E; subst;
    (split; [reflexivity | exists []; rewrite app_nil_r; reflexivity]).
Qed.

Lemma take_app_prefix {A} (k : nat) (l1 l2 : list A) :
  take k l1 = take (k `min` length l1) (l1 ++ l2).
Proof.
  rewrite take_app_le by lia.
  destruct (Nat.le_gt_cases k (length l1)).
  - rewrite Nat.min_l by lia. reflexivity.
  - rewrite Nat.min_r by lia. rewrite !take_ge by lia. reflexivity.
Qed.

Lemma upto_bind {A B} (p : M A) (k : A -> M B) e1 e2 :
  does p e1 -> upto p e1 -> (forall a, upto (k a) e2) ->
  upto (bind p k) (e1 ++ e2).
Proof.
  intros Dp Up Uk w r w' E. unfold bind in E.
  destruct (p w) as [[a | c |] w1] eqn:E1.
  - destruct (Dp _ _ _ E1) as [L1 (_ & _ & _ & _ & R1)].
    destruct (Uk a _ _ _ E) as [[k2 L2] [m2 R2]].
    split.
    + exists (length e1 + k2)%nat. rewrite L2, L1, <- app_assoc.
      rewrite take_app_add. reflexivity.
    + exists m2. rewrite R2, R1. reflexivity.
  - inversion E; subst. destruct (Up _ _ _ E1) as [[k1 L1] R1].
    split; [| exact R1].
    exists (k1 `min` length e1)%nat. rewrite L1. f_equal.
    apply take_app_prefix.
  - inversion E; subst. destruct (Up _ _ _ E1) as [[k1 L1] R1].
    split; [| exact R1].
    exists (k1 `min` length e1)%nat. rewrite L1. f_equal.
    apply take_app_prefix.
Qed.

Lemma upto_bind_nil {A B} (p : M A) (k : A -> M B) e :
  does p [] -> upto p [] -> (forall a, upto (k a) e) -> upto (bind p k) e.
Proof. intros Dp Up Uk. apply (upto_bind p k [] e Dp Up Uk). Qed.

Lemma upto_usb_error {A} caption (k : unit -> M A) evs :
  upto (bind (usb_error caption 2) k) evs.
Proof.
  apply upto_nil. intros w r w' E.
  unfold usb_error, bind, eprintf, exit in E. simpl in E. inversion E; subst.
  simpl. split; [reflexivity | eexists; reflexivity].
Qed.

Lemma upto_libusb_in {A} n (k : option (list Z) -> M A) :
  (forall d evs, upto (k (Some d)) evs) ->
  (forall evs, upto (k None) evs) ->
  upto (bind (libusb_in n) k) [BulkIn n].
Proof.
  intros Hs Hn w r w' E. unfold bind, libusb_in in E.
  destruct (decide _).
  - destruct (Hs _ [] _ _ _ E) as [[k2 L2] R2]. split; [| exact R2].
    exists 1%nat. rewrite L2. simpl. rewrite take_nil, app_nil_r. reflexivity.
  - destruct (Hn [BulkIn n] _ _ _ E) as [L2 R2]. split; assumption.
Qed.

Lemma upto_bulk_out data len progress :
  upto (usb_bulk_send EP_OUT data len progress)
       (if len <=? 0 then [] else [BulkOut (take (Z.to_nat len) data)]).
Proof.
  unfold usb_bulk_send. destruct (len <=? 0); [apply upto_ret|].
  intros w r w' E. unfold bind, libusb_out, ret in E. inversion E; subst.
  simpl. split; [exists 1%nat; reflexivity | exists []; rewrite app_nil_r; reflexivity].
Qed.

Lemma upto_bulk_in data len progress :
  upto (usb_bulk_send EP_IN data len progress)
       (if len <=? 0 then [] else [BulkIn (Z.to_nat len)]).
Proof.
  unfold usb_bulk_send. destruct (len <=? 0); [apply upto_ret|].
  apply upto_libusb_in; intros; [apply upto_ret | apply upto_usb_error].
Qed.

Lemma upto_bulk_recv len :
  upto (usb_bulk_recv len) (if len <=? 0 then [] else [BulkIn (Z.to_nat len)]).
Proof.
  unfold usb_bulk_recv. destruct (len <=? 0); [apply upto_ret|].
  apply upto_libusb_in; intros; [apply upto_ret | apply upto_usb_error].
Qed.

Lemma upto_aw_send_usb_request type len :
  upto (aw_send_usb_request type len) [BulkOut (aw_usb_request type len)].
Proof.
  unfold aw_send_usb_request.
  replace [BulkOut (aw_usb_request type len)]
    with ((if 32 <=? 0 then []
           else [BulkOut (take (Z.to_nat 32) (aw_usb_request type len))]) ++ [])
    by reflexivity.
  apply upto_bind; [apply does_bulk_out | apply upto_bulk_out | intros; apply upto_ret].
Qed.

Lemma upto_aw_read_usb_response : upto aw_read_usb_response [BulkIn 13].
Proof.
  unfold aw_read_usb_response.
  change [BulkIn 13] with ((if 13 <=? 0 then [] else [BulkIn (Z.to_nat 13)]) ++ []).
  apply upto_bind; [apply does_bulk_recv | apply upto_bulk_recv | intros; apply upto_assert].
Qed.

Lemma upto_aw_usb_write data len progress :
  upto (aw_usb_write data len progress) (txn_events (AwWrite len data)).
Proof.
  unfold aw_usb_write, txn_events.
  apply (upto_bind _ _ [_] _ (does_aw_send_usb_request _ _)
           (upto_aw_send_usb_request _ _)); intros _.
  apply upto_bind;
    [apply does_bulk_out | apply upto_bulk_out | intros _; apply upto_aw_read_usb_response].
Qed.

Lemma upto_aw_usb_read len :
  upto (aw_usb_read len) (txn_events (AwRead len)).
Proof.
  unfold aw_usb_read, txn_events.
  apply (upto_bind _ _ [_] _ (does_aw_send_usb_request _ _)
           (upto_aw_send_usb_request _ _)); intros _.
  apply upto_bind; [apply does_bulk_in | apply upto_bulk_in | intros d].
  rewrite <- (app_nil_r [BulkIn 13]).
  apply upto_bind;
    [apply does_aw_read_usb_response | apply upto_aw_read_usb_response
    | intros; apply upto_ret].
Qed.

Lemma upto_aw_send_fel_request type addr len :
  upto (aw_send_fel_request type addr len)
       (txn_events (AwWrite 16 (aw_fel_request type addr len))).
Proof. apply upto_aw_usb_write. Qed.

Lemma upto_aw_read_fel_status : upto aw_read_fel_status (txn_events (AwRead 8)).
Proof.
  unfold aw_read_fel_status. rewrite <- (app_nil_r (txn_events _)).
  apply upto_bind; [apply does_aw_usb_read | apply upto_aw_usb_read | intros; apply upto_ret].
Qed.

Lemma upto_aw_fel_get_version : upto aw_fel_get_version (fel_events FelVersion).
Proof.
  unfold aw_fel_get_version, fel_events, fel_op_txns, flat_map.
  apply upto_bind;
    [apply does_aw_send_fel_request | apply upto_aw_send_fel_request | intros _].
  apply upto_bind; [apply does_aw_usb_read | apply upto_aw_usb_read | intros buf].
  apply upto_bind;
    [apply does_aw_read_fel_status | apply upto_aw_read_fel_status
    | intros; apply upto_ret].
Qed.

Lemma upto_aw_fel_read offset len :
  upto (aw_fel_read offset len) (fel_events (FelRead offset len)).
Proof.
  unfold aw_fel_read, fel_events, fel_op_txns, flat_map.
  apply upto_bind;
    [apply does_aw_send_fel_request | apply upto_aw_send_fel_request | intros _].
  apply upto_bind; [apply does_aw_usb_read | apply upto_aw_usb_read | intros buf].
  apply upto_bind;
    [apply does_aw_read_fel_status | apply upto_aw_read_fel_status
    | intros; apply upto_ret].
Qed.

Lemma upto_aw_fel_write buf offset len :
  upto (aw_fel_write buf offset len) (fel_events (FelWrite buf offset len)).
Proof.
  unfold aw_fel_write, fel_events, fel_op_txns, flat_map.
  apply upto_bind;
    [apply does_aw_send_fel_request | apply upto_aw_send_fel_request | intros _].
  apply upto_bind; [apply does_aw_usb_write | apply upto_aw_usb_write | intros _].
  rewrite app_nil_r. apply upto_aw_read_fel_status.
Qed.

Lemma upto_aw_fel_execute offset :
  upto (aw_fel_execute offset) (fel_events (FelExecute offset)).
Proof.
  unfold aw_fel_execute, fel_events, fel_op_txns, flat_map.
  apply upto_bind;
    [apply does_aw_send_fel_request | apply upto_aw_send_fel_request | intros _].
  rewrite app_nil_r. apply upto_aw_read_fel_status.
Qed.

(** ** Word transfers through the scratch area *)

Lemma truncate_count_run who count w :
  exists w1,
    truncate_count who count w = (Ok (Z.min count LCODE_MAX_WORDS), w1)
    /\ usb_log w1 = usb_log w /\ soc_cache w1 = soc_cache w
    /\ err_log w1 = err_log w ++ truncation count who.
Proof.
  unfold truncate_count, truncation.
  destruct (LCODE_MAX_WORDS <? count) eqn:E.
  - apply Z.ltb_lt in E. rewrite Z.min_r by lia.
    eexists. split; [reflexivity |]. simpl. auto.
  - apply Z.ltb_ge in E. rewrite Z.min_l by lia.
    exists w. rewrite app_nil_r. auto.
Qed.

Lemma aw_fel_get_soc_info_run gsi w r w' :
  aw_fel_get_soc_info gsi w = (r, w') ->
  (exists k, usb_log w' = usb_log w ++ take k (probe_events w))
  /\ (exists msgs, err_log w' = err_log w ++ msgs)
  /\ (forall soc, r = Ok soc ->
        soc_cache w' = Some soc
        /\ usb_log w' = usb_log w ++ probe_events w
        /\ err_log w' = err_log w
        /\ (forall s, soc_cache w = Some s -> soc = s)).
Proof.
  unfold aw_fel_get_soc_info, probe_events. intros E.
  unfold bind at 1, get_world in E.
  destruct (soc_cache w) as [s |] eqn:C.
  - inversion E; subst. rewrite !app_nil_r. repeat split.
    + exists 0%nat. rewrite app_nil_r. reflexivity.
    + exists []. rewrite app_nil_r. reflexivity.
    + inversion H; subst. exact C.
    + inversion H; subst. intros s' Hs'. congruence.
  - unfold bind at 1 in E.
    destruct (aw_fel_get_version w) as [[v | c |] w1] eqn:V.
    + destruct (does_aw_fel_get_version _ _ _ V) as [L (_ & _ & _ & _ & R)].
      unfold bind, set_soc_cache, ret in E. inversion E; subst. simpl.
      repeat split.
      * exists (length (fel_events FelVersion)). rewrite firstn_all. exact L.
      * exists []. rewrite app_nil_r. exact R.
      * inversion H; subst. reflexivity.
      * exact L.
      * exact R.
      * intros s Hs. discriminate.
    + inversion E; subst. destruct (upto_aw_fel_get_version _ _ _ V) as [L R].
      repeat split; [exact L | exact R | discriminate ..].
    + inversion E; subst. destruct (upto_aw_fel_get_version _ _ _ V) as [L R].
      repeat split; [exact L | exact R | discriminate ..].
Qed.

Lemma scratch_run_intro {A} gsi (tail : soc_info_t -> M A)
    (evs : soc_info_t -> list usb_event) warn w w1 r w' :
  usb_log w1 = usb_log w -> soc_cache w1 = soc_cache w ->
  err_log w1 = err_log w ++ warn ->
  (forall soc, does (tail soc) (evs soc)) ->
  (forall soc, upto (tail soc) (evs soc)) ->
  bind (aw_fel_get_soc_info gsi) tail w1 = (r, w') ->
  scratch_run evs warn w r w'.
Proof.
  intros L1 C1 R1 D U E. unfold bind in E.
  assert (P : probe_events w1 = probe_events w)
    by (unfold probe_events; rewrite C1; reflexivity).
  destruct (aw_fel_get_soc_info gsi w1) as [[soc | c |] w2] eqn:G;
    apply aw_fel_get_soc_info_run in G as ([k Lk] & [m Rm] & Hok);
    rewrite P in *.
  - destruct (Hok soc eq_refl) as (C2 & L2 & R2 & Hs).
    destruct (U soc _ _ _ E) as [[k3 L3] [m3 R3]].
    exists soc, (length (probe_events w) + k3)%nat, m3. repeat split.
    + intros s Cs. apply Hs. congruence.
    + rewrite L3, L2, L1, take_app_add, <- app_assoc. reflexivity.
    + rewrite R3, R2, R1, <- app_assoc. reflexivity.
    + destruct (D soc _ _ _ (eq_trans E (f_equal (fun x => (x, w')) H)))
        as [_ (_ & _ & _ & C3 & _)]. congruence.
    + destruct (D soc _ _ _ (eq_trans E (f_equal (fun x => (x, w')) H)))
        as [L4 _]. rewrite L4, L2, L1, <- app_assoc. reflexivity.
    + destruct (D soc _ _ _ (eq_trans E (f_equal (fun x => (x, w')) H)))
        as [_ (_ & _ & _ & _ & R4)].
      rewrite R4 in R3. apply (app_inv_head (err_log w2)).
      rewrite app_nil_r. symmetry. exact R3.
  - inversion E; subst.
    exists (match soc_cache w with Some s => s | None => gsi (decode_version []) end),
      (k `min` length (probe_events w))%nat, m.
    repeat split; try discriminate.
    + intros s Cs. rewrite Cs. reflexivity.
    + rewrite Lk, L1. f_equal. apply take_app_prefix.
    + rewrite Rm, R1, <- app_assoc. reflexivity.
  - inversion E; subst.
    exists (match soc_cache w with Some s => s | None => gsi (decode_version []) end),
      (k `min` length (probe_events w))%nat, m.
    repeat split; try discriminate.
    + intros s Cs. rewrite Cs. reflexivity.
    + rewrite Lk, L1. f_equal. apply take_app_prefix.
    + rewrite Rm, R1, <- app_assoc. reflexivity.
Qed.

Lemma words_to_bytes_length ws :
  length (words_to_bytes ws) = (4 * length ws)%nat.
Proof.
  unfold words_to_bytes. induction ws as [| x ws IH]; [reflexivity |].
  cbn [flat_map]. rewrite length_app, IH. simpl. lia.
Qed.

Lemma words_to_bytes_app a b :
  words_to_bytes (a ++ b) = words_to_bytes a ++ words_to_bytes b.
Proof. apply flat_map_app. Qed.

(** The copy loop over the source buffer fills the words right behind the
    code and leaves the rest of the array zero. *)
Lemma copy_loop code (src : list Z) (m : nat) :
  length code = 12%nat -> (m <= length src)%nat -> (m <= 244)%nat ->
  foldl (fun a i => <[Z.to_nat (LCODE_ARM_WORDS + i) := nth (Z.to_nat i) src 0]> a)
        (code ++ repeat 0 244) (seqZ 0 (Z.of_nat m))
  = code ++ take m src ++ repeat 0 (244 - m).
Proof.
  intros Hc. induction m as [| m IH]; intros Hs Hm.
  - reflexivity.
  - rewrite seqZ_S. rewrite foldl_app. cbn [foldl].
    rewrite IH by lia. rewrite Z.add_0_l.
    replace (Z.to_nat (LCODE_ARM_WORDS + Z.of_nat m)) with (length code + m)%nat
      by (unfold LCODE_ARM_WORDS; lia).
    rewrite Nat2Z.id.
    rewrite insert_app_r.
    replace m with (length (take m src) + 0)%nat at 1
      by (rewrite length_take; lia).
    rewrite insert_app_r.
    replace (244 - m)%nat with (S (244 - S m)) by lia.
    cbn [repeat]. cbn.
    f_equal.
    destruct (lookup_lt_is_Some_2 src m ltac:(lia)) as [x Hx].
    rewrite (take_S_r _ _ _ Hx), <- app_assoc. cbn.
    rewrite (nth_lookup_Some _ _ 0 _ Hx). reflexivity.
Qed.

Lemma writel_buffer_eq addr n src :
  0 <= n <= LCODE_MAX_WORDS -> n <= Z.of_nat (length src) ->
  writel_buffer addr n src
  = (writel_code addr n ++ take (Z.to_nat n) src)
    ++ repeat 0 (Z.to_nat (LCODE_MAX_WORDS - n)).
Proof.
  intros Hn Hs. unfold writel_buffer, range. unfold LCODE_MAX_WORDS in *.
  unfold LCODE_MAX_TOTAL, LCODE_ARM_WORDS in *.
  change (Z.to_nat (256 - 12)) with 244%nat.
  replace (n - 0) with (Z.of_nat (Z.to_nat n)) by lia.
  pose proof (copy_loop (writel_code addr n) src (Z.to_nat n) eq_refl) as C.
  unfold LCODE_ARM_WORDS in C. rewrite C by lia.
  rewrite <- app_assoc. do 3 f_equal. lia.
Qed.

Lemma writel_payload_length addr n src :
  0 <= n -> n <= Z.of_nat (length src) ->
  Z.of_nat (length (writel_payload addr n src)) = 4 * (LCODE_ARM_WORDS + n).
Proof.
  intros Hn Hs. unfold writel_payload.
  rewrite words_to_bytes_length, length_app, length_take.
  unfold LCODE_ARM_WORDS. simpl length. lia.
Qed.

Lemma fel_write_events_ext buf buf' offset len :
  take (Z.to_nat len) buf = take (Z.to_nat len) buf' ->
  fel_events (FelWrite buf offset len) = fel_events (FelWrite buf' offset len).
Proof.
  intros H. unfold fel_events, fel_op_txns, flat_map, txn_events.
  rewrite H. reflexivity.
Qed.

Lemma writel_upload_events addr n src offset :
  0 <= n <= LCODE_MAX_WORDS -> n <= Z.of_nat (length src) ->
  fel_events (FelWrite (words_to_bytes (writel_buffer addr n src)) offset
                       ((LCODE_ARM_WORDS + n) * 4))
  = fel_events (FelWrite (writel_payload addr n src) offset
                         (4 * (LCODE_ARM_WORDS + n))).
Proof.
  intros Hn Hs. rewrite (Z.mul_comm _ 4). apply fel_write_events_ext.
  pose proof (writel_payload_length addr n src ltac:(lia) Hs) as Hl.
  rewrite writel_buffer_eq, words_to_bytes_app by assumption.
  fold (writel_payload addr n src).
  rewrite take_app_le, !take_ge by lia. reflexivity.
Qed.

Lemma does_readl_tail soc addr n :
  does (assert (LCODE_MAX_WORDS <? 256) ;;
        assert (4 * Z.of_nat (length (readl_code addr n)) =? LCODE_ARM_SIZE) ;;
        aw_fel_write (words_to_bytes (readl_code addr n)) (scratch_addr soc)
                     (4 * Z.of_nat (length (readl_code addr n))) ;;
        aw_fel_execute (scratch_addr soc) ;;
        buffer <- aw_fel_read (u32 (scratch_addr soc + LCODE_ARM_SIZE)) (4 * n) ;;
        ret (bytes_to_words buffer (Z.to_nat n)))
       (readl_events soc addr n).
Proof.
  apply does_bind_nil; [apply does_assert | intros _].
  apply does_bind_nil; [apply does_assert | intros _].
  unfold readl_events.
  change (4 * Z.of_nat (length (readl_code addr n))) with LCODE_ARM_SIZE.
  apply does_bind; [apply does_aw_fel_write | intros _].
  apply does_bind; [apply does_aw_fel_execute | intros _].
  rewrite <- (app_nil_r (fel_events (FelRead _ _))).
  apply does_bind; [apply does_aw_fel_read | intros; apply does_ret].
Qed.

Lemma upto_readl_tail soc addr n :
  upto (assert (LCODE_MAX_WORDS <? 256) ;;
        assert (4 * Z.of_nat (length (readl_code addr n)) =? LCODE_ARM_SIZE) ;;
        aw_fel_write (words_to_bytes (readl_code addr n)) (scratch_addr soc)
                     (4 * Z.of_nat (length (readl_code addr n))) ;;
        aw_fel_execute (scratch_addr soc) ;;
        buffer <- aw_fel_read (u32 (scratch_addr soc + LCODE_ARM_SIZE)) (4 * n) ;;
        ret (bytes_to_words buffer (Z.to_nat n)))
       (readl_events soc addr n).
Proof.
  apply upto_bind_nil; [apply does_assert | apply upto_assert | intros _].
  apply upto_bind_nil; [apply does_assert | apply upto_assert | intros _].
  unfold readl_events.
  change (4 * Z.of_nat (length (readl_code addr n))) with LCODE_ARM_SIZE.
  apply upto_bind; [apply does_aw_fel_write | apply upto_aw_fel_write | intros _].
  apply upto_bind; [apply does_aw_fel_execute | apply upto_aw_fel_execute | intros _].
  rewrite <- (app_nil_r (fel_events (FelRead _ _))).
  apply upto_bind; [apply does_aw_fel_read | apply upto_aw_fel_read | intros; apply upto_ret].
Qed.

Lemma does_writel_tail soc addr src n :
  0 <= n <= LCODE_MAX_WORDS -> n <= Z.of_nat (length src) ->
  does (assert (LCODE_MAX_WORDS <? 256) ;;
        aw_fel_write (words_to_bytes (writel_buffer addr n src)) (scratch_addr soc)
                     ((LCODE_ARM_WORDS + n) * 4) ;;
        aw_fel_execute (scratch_addr soc))
       (writel_events soc addr src n).
Proof.
  intros Hn Hs.
  apply does_bind_nil; [apply does_assert | intros _].
  unfold writel_events. rewrite <- writel_upload_events by assumption.
  apply does_bind; [apply does_aw_fel_write | intros _; apply does_aw_fel_execute].
Qed.

Lemma upto_writel_tail soc addr src n :
  0 <= n <= LCODE_MAX_WORDS -> n <= Z.of_nat (length src) ->
  upto (assert (LCODE_MAX_WORDS <? 256) ;;
        aw_fel_write (words_to_bytes (writel_buffer addr n src)) (scratch_addr soc)
                     ((LCODE_ARM_WORDS + n) * 4) ;;
        aw_fel_execute (scratch_addr soc))
       (writel_events soc addr src n).
Proof.
  intros Hn Hs.
  apply upto_bind_nil; [apply does_assert | apply upto_assert | intros _].
  unfold writel_events. rewrite <- writel_upload_events by assumption.
  apply upto_bind;
    [apply does_aw_fel_write | apply upto_aw_fel_write
    | intros _; apply upto_aw_fel_execute].
Qed.

(** C7.  For every call of [aw_fel_readl_n] or [aw_fel_writel_n] with a
    word count [count] (and, for the write, a source buffer that holds the
    words to copy), with [n = min(count, 244)]:
    - a count of 0 returns at once, with no transfer and nothing printed;
    - the scratch image is 12 code words for the read and 12 code words
      plus [n] data words for the write, at most 256 words (1024 bytes);
    - for a count above 0, however the run ends: an exit status is that of
      a failed USB transfer (2, never 1); the transfers on the bus are an
      initial part of the version probe (if the SoC record was not cached)
      followed by the upload of the scratch image to [scratch_addr], the
      execute, and for the read the read of [4 * n] bytes from
      [scratch_addr + 48]; [stderr] receives the truncation warning first,
      exactly when [count > 244]; and a run that returns has performed all
      these transfers, has printed nothing else and, for the read, returns
      [n] words. *)
Theorem aw_fel_words_scratch (get_soc_info_from_version : aw_fel_version -> soc_info_t)
    (addr count : Z) (src : list Z) (w : world) :
  0 <= count ->
  Z.min count LCODE_MAX_WORDS <= Z.of_nat (length src) ->
  let n := Z.min count LCODE_MAX_WORDS in
  (count = 0 ->
     aw_fel_readl_n get_soc_info_from_version addr count w = (Ok [], w)
     /\ aw_fel_writel_n get_soc_info_from_version addr src count w = (Ok tt, w))
  /\ (Z.of_nat (length (words_to_bytes (readl_code addr n))) = 4 * LCODE_ARM_WORDS
      /\ Z.of_nat (length (writel_payload addr n src)) = 4 * (LCODE_ARM_WORDS + n)
      /\ 4 * (LCODE_ARM_WORDS + n) <= 1024)
  /\ (0 < count -> forall r w',
        aw_fel_readl_n get_soc_info_from_version addr count w = (r, w') ->
        (forall c, r = Exit c -> c = 2)
        /\ scratch_run (fun soc => readl_events soc addr n)
                       (truncation count readl_warning) w r w'
        /\ (forall v, r = Ok v -> length v = Z.to_nat n))
  /\ (0 < count -> forall r w',
        aw_fel_writel_n get_soc_info_from_version addr src count w = (r, w') ->
        (forall c, r = Exit c -> c = 2)
        /\ scratch_run (fun soc => writel_events soc addr src n)
                       (truncation count writel_warning) w r w').
Proof.
  intros Hc Hs n.
  assert (Hn : 0 <= n <= LCODE_MAX_WORDS) by (unfold LCODE_MAX_WORDS, LCODE_MAX_TOTAL, LCODE_ARM_WORDS in *; lia).
  split; [| split; [| split]].
  - intros ->. split; reflexivity.
  - split; [reflexivity |]. split.
    + apply writel_payload_length; [lia | exact Hs].
    + unfold LCODE_MAX_WORDS, LCODE_MAX_TOTAL, LCODE_ARM_WORDS in *. lia.
  - intros Hpos r w' E.
    split; [intros c ->; eapply oue_aw_fel_readl_n; exact E |].
    unfold aw_fel_readl_n in E.
    rewrite (proj2 (Z.eqb_neq count 0)) in E by lia.
    destruct (truncate_count_run readl_warning count w) as (w1 & T & L1 & C1 & R1).
    unfold readl_warning in T. rewrite (bind_ok _ _ _ _ _ T) in E.
    fold n in E. cbv zeta in E.
    split.
    + refine (scratch_run_intro get_soc_info_from_version _
                (fun soc => readl_events soc addr n) _ w w1 r w' L1 C1 R1 _ _ E).
      * intros soc. apply does_readl_tail.
      * intros soc. apply upto_readl_tail.
    + intros v ->.
      apply bind_inv in E as (soc & w2 & _ & E).
      apply bind_inv in E as (? & w3 & _ & E).
      apply bind_inv in E as (? & w4 & _ & E).
      apply bind_inv in E as (? & w5 & _ & E).
      apply bind_inv in E as (? & w6 & _ & E).
      apply bind_inv in E as (buffer & w7 & _ & E).
      inversion E; subst. apply bytes_to_words_length.
  - intros Hpos r w' E.
    split; [intros c ->; eapply oue_aw_fel_writel_n; exact E |].
    unfold aw_fel_writel_n in E.
    rewrite (proj2 (Z.eqb_neq count 0)) in E by lia.
    destruct (truncate_count_run writel_warning count w) as (w1 & T & L1 & C1 & R1).
    unfold writel_warning in T. rewrite (bind_ok _ _ _ _ _ T) in E.
    fold n in E. cbv zeta in E.
    refine (scratch_run_intro get_soc_info_from_version _
              (fun soc => writel_events soc addr src n) _ w w1 r w' L1 C1 R1 _ _ E).
    + intros soc. apply does_writel_tail; assumption.
    + intros soc. apply upto_writel_tail; assumption.
Qed.

Lemma aw_fel_words_scratch_witness :
  exists w',
    aw_fel_writel_n (fun _ => a10_soc_info) 0x01C20800 (repeat 7 300%nat) 300
      scratch_write_world = (Ok tt, w')
    /\ usb_log w' = writel_events a10_soc_info 0x01C20800 (repeat 7 300%nat) 244
    /\ err_log w' = [writel_warning].
Proof.
  assert (fst (aw_fel_writel_n (fun _ => a10_soc_info) 0x01C20800
                 (repeat 7 300%nat) 300 scratch_write_world) = Ok tt) as E
    by (vm_compute; reflexivity).
  destruct (aw_fel_writel_n (fun _ => a10_soc_info) 0x01C20800
              (repeat 7 300%nat) 300 scratch_write_world) as [r w'] eqn:Er.
  cbn [fst] in E. subst r. exists w'. split; [reflexivity |].
  assert (Hlen : Z.min 300 LCODE_MAX_WORDS <= Z.of_nat (length (repeat 7 300%nat)))
    by (vm_compute; discriminate).
  destruct (proj2 (proj2 (proj2
              (aw_fel_words_scratch (fun _ => a10_soc_info) 0x01C20800 300
                 (repeat 7 300%nat) scratch_write_world ltac:(lia) Hlen)))
              ltac:(lia) (Ok tt) w' Er)
    as (_ & soc & k & msgs & Hs & _ & Herr & Hok).
  destruct (Hok tt eq_refl) as (_ & L & ->).
  rewrite (Hs a10_soc_info eq_refl) in L.
  split; [exact L | exact Herr].
Defined.

(** * Properties of the commands *)

(** ** What a run leaves alone *)

Lemma steady_step_refl w : steady_step w w.
Proof. repeat split; auto. Qed.

Lemma steady_step_trans w1 w2 w3 :
  steady_step w1 w2 -> steady_step w2 w3 -> steady_step w1 w3.
Proof.
  intros (E1 & S1 & V1 & C1) (E2 & S2 & V2 & C2).
  repeat split; try congruence. intros s Hs. apply C2, C1, Hs.
Qed.

Lemma steady_ret {A} (a : A) : steady (ret a).
Proof. intros w r w' H. inversion H; subst. apply steady_step_refl. Qed.

Lemma steady_exit {A} c : steady (@exit A c).
Proof. intros w r w' H. inversion H; subst. apply steady_step_refl. Qed.

Lemma steady_assert b : steady (assert b).
Proof.
  intros w r w' H. unfold assert in H.
  destruct b; inversion H; subst; apply steady_step_refl.
Qed.

Lemma steady_get_world : steady get_world.
Proof. intros w r w' H. inversion H; subst. apply steady_step_refl. Qed.

Lemma steady_eprintf msg : steady (eprintf msg).
Proof. intros w r w' H. inversion H; subst. repeat split; auto. Qed.

Lemma steady_printf msg : steady (printf msg).
Proof. intros w r w' H. inversion H; subst. repeat split; auto. Qed.

Lemma steady_libusb_out d : steady (libusb_out d).
Proof. intros w r w' H. inversion H; subst. repeat split; auto. Qed.

Lemma steady_libusb_in n : steady (libusb_in n).
Proof.
  intros w r w' H. unfold libusb_in in H.
  destruct (decide _); inversion H; subst; repeat split; auto.
Qed.

Lemma steady_bind {A B} (p : M A) (k : A -> M B) :
  steady p -> (forall a, steady (k a)) -> steady (bind p k).
Proof.
  intros Hp Hk w r w' H. unfold bind in H.
  destruct (p w) as [[a | c |] w1] eqn:E.
  - eapply steady_step_trans; [eapply Hp | eapply Hk]; eassumption.
  - inversion H; subst. eapply Hp. eassumption.
  - inversion H; subst. eapply Hp. eassumption.
Qed.

Lemma steady_for_each {A} (body : A -> M unit) l :
  (forall x, steady (body x)) -> steady (for_each body l).
Proof.
  intros Hb. induction l as [| x l IH]; cbn [for_each].
  - apply steady_ret.
  - apply steady_bind; [apply Hb | intros _; exact IH].
Qed.

Create HintDb steady discriminated.
#[local] Hint Resolve steady_ret steady_exit steady_assert steady_get_world
  steady_eprintf steady_printf steady_libusb_out steady_libusb_in : steady.

Ltac steady_steps :=
  cbv zeta;
  repeat match goal with
    | |- steady (for_each _ _) => apply steady_for_each; intros ?
    | |- steady (bind _ _) => apply steady_bind; [| intros ? ]
    | |- steady (if ?b then _ else _) => destruct b
    | |- steady (match ?x with _ => _ end) => destruct x
    | |- steady _ => solve [auto with steady]
    end.

Lemma steady_pr_info msg : steady (pr_info msg).
Proof. unfold pr_info. apply steady_bind; [auto with steady |]. intros w. steady_steps. Qed.

Lemma steady_usb_bulk_send ep data len progress :
  steady (usb_bulk_send ep data len progress).
Proof. unfold usb_bulk_send, usb_error. steady_steps. Qed.

Lemma steady_usb_bulk_recv len : steady (usb_bulk_recv len).
Proof. unfold usb_bulk_recv, usb_error. steady_steps. Qed.
#[local] Hint Resolve steady_pr_info steady_usb_bulk_send steady_usb_bulk_recv : steady.

Lemma steady_aw_usb_write data len progress :
  steady (aw_usb_write data len progress).
Proof.
  unfold aw_usb_write, aw_send_usb_request, aw_read_usb_response. steady_steps.
Qed.

Lemma steady_aw_usb_read len : steady (aw_usb_read len).
Proof.
  unfold aw_usb_read, aw_send_usb_request, aw_read_usb_response. steady_steps.
Qed.
#[local] Hint Resolve steady_aw_usb_write steady_aw_usb_read : steady.

Lemma steady_aw_fel_write buf offset len : steady (aw_fel_write buf offset len).
Proof.
  unfold aw_fel_write, aw_send_fel_request, aw_read_fel_status. steady_steps.
Qed.

Lemma steady_aw_fel_read offset len : steady (aw_fel_read offset len).
Proof.
  unfold aw_fel_read, aw_send_fel_request, aw_read_fel_status. steady_steps.
Qed.

Lemma steady_aw_fel_execute offset : steady (aw_fel_execute offset).
Proof.
  unfold aw_fel_execute, aw_send_fel_request, aw_read_fel_status. steady_steps.
Qed.

Lemma steady_aw_fel_get_version : steady aw_fel_get_version.
Proof.
  unfold aw_fel_get_version, aw_send_fel_request, aw_read_fel_status. steady_steps.
Qed.

Lemma steady_aw_write_buffer buf offset len progress :
  steady (aw_write_buffer buf offset len progress).
Proof.
  unfold aw_write_buffer, aw_send_fel_request, aw_read_fel_status.
  apply steady_bind; [auto with steady |]. intros w. steady_steps.
Qed.
#[local] Hint Resolve steady_aw_fel_write steady_aw_fel_read steady_aw_fel_execute
  steady_aw_fel_get_version steady_aw_write_buffer : steady.

(** The SoC lookup fills the cache only when it is empty. *)
Lemma steady_aw_fel_get_soc_info gsi : steady (aw_fel_get_soc_info gsi).
Proof.
  intros w r w' H. unfold aw_fel_get_soc_info in H.
  unfold bind at 1, get_world in H.
  destruct (soc_cache w) as [s |] eqn:C.
  - inversion H; subst. apply steady_step_refl.
  - unfold bind at 1 in H.
    destruct (aw_fel_get_version w) as [[v | c |] w1] eqn:V;
      apply steady_aw_fel_get_version in V; destruct V as (E1 & S1 & V1 & C1).
    + unfold bind, set_soc_cache, ret in H. inversion H; subst. simpl.
      repeat split; auto. intros s Hs. congruence.
    + inversion H; subst. repeat split; auto.
    + inversion H; subst. repeat split; auto.
Qed.
#[local] Hint Resolve steady_aw_fel_get_soc_info : steady.

Lemma steady_aw_fel_readl_n gsi addr count :
  steady (aw_fel_readl_n gsi addr count).
Proof. unfold aw_fel_readl_n, truncate_count. steady_steps. Qed.

Lemma steady_aw_fel_writel_n gsi addr src count :
  steady (aw_fel_writel_n gsi addr src count).
Proof. unfold aw_fel_writel_n, truncate_count. steady_steps. Qed.
#[local] Hint Resolve steady_aw_fel_readl_n steady_aw_fel_writel_n : steady.

Lemma chunk_bounds count :
  0 < count ->
  let n := if LCODE_MAX_WORDS <? count then LCODE_MAX_WORDS else count in
  0 <= count - n < count.
Proof.
  intros Hc n. subst n. unfold LCODE_MAX_WORDS, LCODE_MAX_TOTAL, LCODE_ARM_WORDS.
  destruct (_ <? _) eqn:E; [apply Z.ltb_lt in E |]; lia.
Qed.

Lemma steady_fel_readl_n gsi addr count : steady (fel_readl_n gsi addr count).
Proof.
  revert addr. pattern count. apply (well_founded_induction (Z.lt_wf 0)).
  clear count. intros count IH addr w r w' H.
  rewrite fel_readl_n_equation_1 in H.
  destruct (decide (0 < count)) as [Hpos | Hzero];
    cbn [fel_readl_n_unfold_clause_1] in H.
  - revert H. apply steady_bind; [auto with steady | intros d].
    apply steady_bind; [| intros rest; apply steady_ret].
    apply IH. apply chunk_bounds, Hpos.
  - revert H. apply steady_ret.
Qed.

Lemma steady_fel_writel_n gsi addr src count :
  steady (fel_writel_n gsi addr src count).
Proof.
  revert addr src. pattern count. apply (well_founded_induction (Z.lt_wf 0)).
  clear count. intros count IH addr src w r w' H.
  rewrite fel_writel_n_equation_1 in H.
  destruct (decide (0 < count)) as [Hpos | Hzero];
    cbn [fel_writel_n_unfold_clause_1] in H.
  - revert H. apply steady_bind; [auto with steady | intros _].
    apply IH. apply chunk_bounds, Hpos.
  - revert H. apply steady_ret.
Qed.

Lemma steady_aw_read_arm_cp_reg soc coproc opc1 crn crm opc2 :
  steady (aw_read_arm_cp_reg soc coproc opc1 crn crm opc2).
Proof. unfold aw_read_arm_cp_reg. steady_steps. Qed.

Lemma steady_aw_write_arm_cp_reg soc coproc opc1 crn crm opc2 val :
  steady (aw_write_arm_cp_reg soc coproc opc1 crn crm opc2 val).
Proof. unfold aw_write_arm_cp_reg. steady_steps. Qed.
#[local] Hint Resolve steady_aw_read_arm_cp_reg steady_aw_write_arm_cp_reg : steady.

Lemma steady_check_tt_entry tbl i : steady (check_tt_entry tbl i).
Proof. unfold check_tt_entry. steady_steps. Qed.
#[local] Hint Resolve steady_check_tt_entry : steady.

Lemma steady_aw_backup_and_disable_mmu soc : steady (aw_backup_and_disable_mmu soc).
Proof.
  unfold aw_backup_and_disable_mmu, aw_get_sctlr, aw_get_dacr, aw_get_ttbcr,
    aw_get_ttbr0.
  steady_steps.
Qed.

Lemma steady_aw_restore_and_enable_mmu soc tbl :
  steady (aw_restore_and_enable_mmu soc tbl).
Proof. unfold aw_restore_and_enable_mmu, aw_get_ttbr0. steady_steps. Qed.
#[local] Hint Resolve steady_aw_backup_and_disable_mmu
  steady_aw_restore_and_enable_mmu : steady.

Lemma steady_spl_check_header buf len : steady (spl_check_header buf len).
Proof. unfold spl_check_header. steady_steps. Qed.

Lemma steady_spl_mmu_setup soc : steady (spl_mmu_setup soc).
Proof.
  unfold spl_mmu_setup, aw_set_dacr, aw_set_ttbcr, aw_set_ttbr0. steady_steps.
Qed.

Lemma steady_spl_write dest tmp c : steady (spl_write dest tmp c).
Proof. unfold spl_write. steady_steps. Qed.
#[local] Hint Resolve steady_spl_check_header steady_spl_mmu_setup
  steady_spl_write : steady.

Lemma steady_swap_entry sb c : steady (swap_entry sb c).
Proof. unfold swap_entry. steady_steps. Qed.
#[local] Hint Resolve steady_swap_entry : steady.

Lemma steady_spl_swap_loop soc swaps c : steady (spl_swap_loop soc swaps c).
Proof.
  revert c. induction swaps as [| sb swaps IH]; intros c; cbn [spl_swap_loop].
  - apply steady_ret.
  - destruct (size sb =? 0); [apply steady_ret |].
    cbv zeta. apply steady_bind; [auto with steady | intros c'; apply IH].
Qed.
#[local] Hint Resolve steady_spl_swap_loop : steady.

Lemma steady_spl_upload soc swaps buf spl_len :
  steady (spl_upload soc swaps buf spl_len).
Proof. unfold spl_upload. steady_steps. Qed.

Lemma steady_spl_thunk thunk soc swaps i : steady (spl_thunk thunk soc swaps i).
Proof. unfold spl_thunk. steady_steps. Qed.
#[local] Hint Resolve steady_spl_upload steady_spl_thunk : steady.

Lemma steady_aw_fel_write_and_execute_spl gsi thunk buf len :
  steady (aw_fel_write_and_execute_spl gsi thunk buf len).
Proof.
  unfold aw_fel_write_and_execute_spl, aw_enable_l2_cache, aw_get_stackinfo.
  steady_steps.
Qed.

Lemma steady_have_sunxi_spl spl_addr : steady (have_sunxi_spl spl_addr).
Proof. unfold have_sunxi_spl. steady_steps. Qed.
#[local] Hint Resolve steady_have_sunxi_spl : steady.

Lemma steady_pass_fel_information gsi script_address uEnv_length :
  steady (pass_fel_information gsi script_address uEnv_length).
Proof. unfold pass_fel_information. steady_steps. Qed.
#[local] Hint Resolve steady_pass_fel_information : steady.

Lemma steady_aw_rmr_request gsi entry_point aarch64 :
  steady (aw_rmr_request gsi entry_point aarch64).
Proof. unfold aw_rmr_request. steady_steps. Qed.

Lemma steady_aw_fel_print_sid gsi : steady (aw_fel_print_sid gsi).
Proof. unfold aw_fel_print_sid. steady_steps. Qed.

Lemma steady_hexdump_from data offset size :
  forall j, steady (hexdump_from data offset size j).
Proof.
  intros j. remember (Z.to_nat (size - j)) as d eqn:Ed. revert j Ed.
  induction d as [d IH] using lt_wf_ind. intros j Ed w r w' H.
  rewrite hexdump_from_equation_1 in H.
  destruct (decide (j < size)) as [Hlt | Hge];
    cbn [hexdump_from_unfold_clause_1] in H.
  - revert H. apply steady_bind; [auto with steady | intros _].
    apply (IH (Z.to_nat (size - (j + 16)))); [lia | reflexivity].
  - revert H. apply steady_ret.
Qed.

Lemma steady_aw_fel_hexdump offset size : steady (aw_fel_hexdump offset size).
Proof.
  unfold aw_fel_hexdump, hexdump.
  apply steady_bind; [auto with steady | intros buf; apply steady_hexdump_from].
Qed.

Lemma steady_aw_fel_dump offset size : steady (aw_fel_dump offset size).
Proof. unfold aw_fel_dump. steady_steps. Qed.

Lemma steady_aw_fel_print_version : steady aw_fel_print_version.
Proof. unfold aw_fel_print_version. steady_steps. Qed.

Lemma steady_upload_one gsi progress file : steady (upload_one gsi progress file).
Proof. unfold upload_one. steady_steps. Qed.
#[local] Hint Resolve steady_upload_one : steady.

Lemma steady_file_upload gsi count argc files progress :
  steady (file_upload gsi count argc files progress).
Proof. unfold file_upload. steady_steps. Qed.

(** X1.  The recorded U-Boot region changes only when an image is uploaded:
    reading, writing, executing, dumping, filling, word transfers, the SID,
    the version, the warm reset, the SPL loader and the upload of files
    leave [uboot_entry], [uboot_size] and [verbose] as they were and keep a
    cached SoC record, however they end. *)
Theorem recorded_region_is_stable
    (get_soc_info_from_version : aw_fel_version -> soc_info_t)
    (fel_to_spl_thunk : list Z) :
  (forall offset len, steady (aw_fel_read offset len))
  /\ (forall buf offset len progress,
        steady (aw_write_buffer buf offset len progress))
  /\ (forall offset, steady (aw_fel_execute offset))
  /\ (forall offset size, steady (aw_fel_hexdump offset size))
  /\ (forall offset size, steady (aw_fel_dump offset size))
  /\ steady aw_fel_print_version
  /\ (forall offset size value, steady (aw_fel_fill offset size value))
  /\ (forall addr count, steady (fel_readl_n get_soc_info_from_version addr count))
  /\ (forall addr src count,
        steady (fel_writel_n get_soc_info_from_version addr src count))
  /\ steady (aw_fel_print_sid get_soc_info_from_version)
  /\ (forall entry_point aarch64,
        steady (aw_rmr_request get_soc_info_from_version entry_point aarch64))
  /\ (forall buf len,
        steady (aw_fel_write_and_execute_spl get_soc_info_from_version
                  fel_to_spl_thunk buf len))
  /\ (forall count argc files progress,
        steady (file_upload get_soc_info_from_version count argc files progress)).
Proof.
  split; [exact steady_aw_fel_read |].
  split; [exact steady_aw_write_buffer |].
  split; [exact steady_aw_fel_execute |].
  split; [exact steady_aw_fel_hexdump |].
  split; [exact steady_aw_fel_dump |].
  split; [exact steady_aw_fel_print_version |].
  split; [intros offset size value; apply steady_aw_write_buffer |].
  split; [apply steady_fel_readl_n |].
  split; [apply steady_fel_writel_n |].
  split; [apply steady_aw_fel_print_sid |].
  split; [apply steady_aw_rmr_request |].
  split; [apply steady_aw_fel_write_and_execute_spl |].
  apply steady_file_upload.
Qed.

(** ** The SoC record is looked up once *)

(** X2.  Once [aw_fel_get_soc_info] has returned a record, it returns the same
    record again after any command that is steady, and then without a
    transfer and without any other change of state: the device is asked
    for its version at most once. *)
Theorem soc_info_is_probed_once
    (get_soc_info_from_version : aw_fel_version -> soc_info_t)
    {A} (p : M A) (w w1 w2 : world) (soc : soc_info_t) (r : result A) :
  aw_fel_get_soc_info get_soc_info_from_version w = (Ok soc, w1) ->
  steady p ->
  p w1 = (r, w2) ->
  aw_fel_get_soc_info get_soc_info_from_version w2 = (Ok soc, w2).
Proof.
  intros H1 Sp H2.
  apply aw_fel_get_soc_info_run in H1 as (_ & _ & Hok).
  destruct (Hok soc eq_refl) as (C1 & _).
  apply Sp in H2 as (_ & _ & _ & C2).
  unfold aw_fel_get_soc_info, bind, get_world. rewrite (C2 soc C1). reflexivity.
Qed.

Lemma soc_info_is_probed_once_witness :
  exists w1 w2,
    aw_fel_get_soc_info (fun _ => a10_soc_info)
      (initial_world None (reply_read (repeat 0 32) ++ reply_exec)) = (Ok a10_soc_info, w1)
    /\ aw_fel_execute 0x2000 w1 = (Ok tt, w2)
    /\ aw_fel_get_soc_info (fun _ => a10_soc_info) w2 = (Ok a10_soc_info, w2).
Proof.
  assert (fst (aw_fel_get_soc_info (fun _ => a10_soc_info)
                 (initial_world None (reply_read (repeat 0 32) ++ reply_exec)))
          = Ok a10_soc_info) as E1 by (vm_compute; reflexivity).
  destruct (aw_fel_get_soc_info (fun _ => a10_soc_info)
              (initial_world None (reply_read (repeat 0 32) ++ reply_exec)))
    as [r1 w1] eqn:R1.
  cbn [fst] in E1. subst r1.
  assert (fst (aw_fel_execute 0x2000 w1) = Ok tt) as E2.
  { replace w1 with (snd (aw_fel_get_soc_info (fun _ => a10_soc_info)
              (initial_world None (reply_read (repeat 0 32) ++ reply_exec))))
      by (rewrite R1; reflexivity).
    vm_compute. reflexivity. }
  destruct (aw_fel_execute 0x2000 w1) as [r2 w2] eqn:R2.
  cbn [fst] in E2. subst r2.
  exists w1, w2. split; [reflexivity |]. split; [exact R2 |].
  exact (soc_info_is_probed_once (fun _ => a10_soc_info) (aw_fel_execute 0x2000)
           _ w1 w2 a10_soc_info (Ok tt) R1 (steady_aw_fel_execute 0x2000) R2).
Defined.

(** ** The upload of a U-Boot image *)

Lemma does_aw_write_buffer buf offset len progress :
  does (aw_write_buffer buf offset len progress)
       (fel_events (FelWrite buf offset len)).
Proof.
  intros w a w' H. unfold aw_write_buffer in H.
  unfold bind at 1, get_world in H.
  destruct (_ && _).
  - unfold bind, eprintf, exit in H. discriminate.
  - revert H. apply (does_aw_fel_write buf offset len).
Qed.

Lemma get_image_type_firmware buf len :
  HEADER_SIZE < len ->
  get_image_type buf len = IH_TYPE_FIRMWARE
  <-> be32toh_at buf 0 = IH_MAGIC /\ nth 29 buf 0 = IH_ARCH_ARM
      /\ nth 30 buf 0 = IH_TYPE_FIRMWARE.
Proof.
  intros Hlen. unfold get_image_type.
  rewrite (proj2 (Z.leb_gt len HEADER_SIZE)) by exact Hlen.
  destruct (Z.eqb_spec (be32toh_at buf 0) IH_MAGIC) as [Hm | Hm]; cbn [negb].
  - destruct (Z.eqb_spec (nth 29 buf 0) IH_ARCH_ARM) as [Ha | Ha]; cbn [negb].
    + split; [intros H; auto | intros (_ & _ & H); exact H].
    + split; [discriminate | intros (_ & H & _); contradiction].
  - split; [discriminate | intros (H & _); contradiction].
Qed.

(** The checks of [aw_fel_write_uboot_image], taken together. *)
Lemma uboot_image_checks buf len w :
  HEADER_SIZE < len ->
  (firmware_header buf len /\
   aw_fel_write_uboot_image buf len w
   = (pr_info "Writing image, %u bytes @ 0x%08X." ;;
      aw_write_buffer (drop (Z.to_nat HEADER_SIZE) buf) (be32toh_at buf 4)
                      (be32toh_at buf 3) false ;;
      set_uboot (be32toh_at buf 4) (be32toh_at buf 3)) w)
  \/ (~ firmware_header buf len /\
      fatal (aw_fel_write_uboot_image buf len w) w /\
      uboot_entry (snd (aw_fel_write_uboot_image buf len w)) = uboot_entry w /\
      uboot_size (snd (aw_fel_write_uboot_image buf len w)) = uboot_size w).
Proof.
  intros Hlen. unfold aw_fel_write_uboot_image.
  rewrite (proj2 (Z.leb_gt len HEADER_SIZE)) by exact Hlen. cbv zeta.
  pose proof (get_image_type_firmware buf len Hlen) as Hty.
  destruct (Z.eqb_spec (get_image_type buf len) IH_TYPE_FIRMWARE) as [Ef | Ef].
  - rewrite Ef. change (IH_TYPE_FIRMWARE <=? IH_TYPE_INVALID) with false.
    cbn [negb].
    destruct (Z.eqb_spec (be32toh_at buf 3) (sz (len - HEADER_SIZE))) as [Es | Es];
      cbn [negb].
    + left. split; [| reflexivity].
      destruct (proj1 Hty Ef) as (Hm & Ha & Ht). repeat split; assumption.
    + right. split; [intros (_ & _ & _ & H); contradiction |].
      unfold bind, eprintf, exit, ret. simpl.
      repeat split. eexists. reflexivity.
  - right. split.
    { intros (Hm & Ha & Ht & _). apply Ef, Hty. auto. }
    destruct (get_image_type buf len <=? IH_TYPE_INVALID).
    + destruct (get_image_type buf len =? IH_TYPE_INVALID);
        [| destruct (get_image_type buf len =? IH_TYPE_ARCH_MISMATCH)];
        unfold bind, eprintf, exit, ret; simpl; repeat split; eexists; reflexivity.
    + unfold bind, eprintf, exit, ret. simpl.
      repeat split. eexists. reflexivity.
Qed.

(** X3.  A buffer with no room for data behind the header is passed over; a
    buffer whose header is not that of a firmware image of exactly the
    right size ends the program with status 1 and one line on stderr,
    before anything is sent and with the recorded region as it was. *)
Theorem uboot_image_refused (buf : list Z) (len : Z) (w : world) :
  (len <= HEADER_SIZE -> aw_fel_write_uboot_image buf len w = (Ok tt, w))
  /\ (HEADER_SIZE < len -> ~ firmware_header buf len ->
      fatal (aw_fel_write_uboot_image buf len w) w
      /\ uboot_entry (snd (aw_fel_write_uboot_image buf len w)) = uboot_entry w
      /\ uboot_size (snd (aw_fel_write_uboot_image buf len w)) = uboot_size w).
Proof.
  split.
  - intros Hlen. unfold aw_fel_write_uboot_image.
    rewrite (proj2 (Z.leb_le len HEADER_SIZE)) by exact Hlen. reflexivity.
  - intros Hlen Hbad.
    destruct (uboot_image_checks buf len w Hlen) as [[Hok _] | [_ H]];
      [contradiction | exact H].
Qed.

Lemma uboot_image_refused_witness :
  fatal (aw_fel_write_uboot_image (repeat 0 80) 80 (initial_world None []))
        (initial_world None []).
Proof.
  refine (proj1 (proj2 (uboot_image_refused (repeat 0 80) 80 (initial_world None []))
                   _ _)).
  - vm_compute. reflexivity.
  - intros (H & _). vm_compute in H. discriminate.
Defined.

(** What an accepted upload has done. *)
Lemma uboot_image_run buf len w w' :
  HEADER_SIZE < len ->
  aw_fel_write_uboot_image buf len w = (Ok tt, w') ->
  firmware_header buf len
  /\ usb_log w' = usb_log w
       ++ fel_events (FelWrite (drop (Z.to_nat HEADER_SIZE) buf)
                               (be32toh_at buf 4) (be32toh_at buf 3))
  /\ uboot_entry w' = be32toh_at buf 4
  /\ uboot_size w' = be32toh_at buf 3
  /\ err_log w' = err_log w
  /\ soc_cache w' = soc_cache w.
Proof.
  intros Hlen H.
  destruct (uboot_image_checks buf len w Hlen) as [[Hok E] | [_ [[F _] _]]].
  2: { rewrite H in F. discriminate. }
  split; [exact Hok |].
  rewrite E in H.
  apply bind_inv in H as ([] & w1 & H1 & H).
  apply bind_inv in H as ([] & w2 & H2 & H).
  apply does_pr_info in H1 as [L1 (_ & _ & _ & C1 & R1)].
  apply does_aw_write_buffer in H2 as [L2 (_ & _ & _ & C2 & R2)].
  unfold set_uboot in H. inversion H; subst. simpl.
  rewrite L2, L1, app_nil_r. repeat split; congruence.
Qed.

(** X4.  An upload that goes through: the header is that of a firmware image of
    exactly the right size, the data behind the header has been written in
    one FEL write at the load address of the header, and that region is now
    the recorded one. *)
Theorem uboot_image_accepted (buf : list Z) (len : Z) (w w' : world) :
  HEADER_SIZE < len ->
  aw_fel_write_uboot_image buf len w = (Ok tt, w') ->
  firmware_header buf len
  /\ usb_log w' = usb_log w
       ++ fel_events (FelWrite (drop (Z.to_nat HEADER_SIZE) buf)
                               (be32toh_at buf 4) (be32toh_at buf 3))
  /\ uboot_entry w' = be32toh_at buf 4
  /\ uboot_size w' = be32toh_at buf 3.
Proof.
  intros Hlen H.
  destruct (uboot_image_run buf len w w' Hlen H) as (Hh & L & E & S & _).
  repeat split; try assumption; apply Hh.
Qed.

Lemma uboot_image_accepted_witness :
  exists w',
    aw_fel_write_uboot_image small_image 68 small_image_world = (Ok tt, w')
    /\ usb_log w' = fel_events (FelWrite [1; 2; 3; 4] 0x4A000000 4)
    /\ uboot_entry w' = 0x4A000000 /\ uboot_size w' = 4.
Proof.
  assert (fst (aw_fel_write_uboot_image small_image 68 small_image_world) = Ok tt)
    as E by (vm_compute; reflexivity).
  destruct (aw_fel_write_uboot_image small_image 68 small_image_world)
    as [r w'] eqn:Er.
  cbn [fst] in E. subst r. exists w'. split; [reflexivity |].
  destruct (uboot_image_accepted small_image 68 small_image_world w'
              ltac:(vm_compute; reflexivity) Er) as (_ & L & E1 & E2).
  repeat split; [exact L | exact E1 | exact E2].
Defined.

(** X5.  A loaded U-Boot is not replaced: once an image with data has been
    uploaded, uploading it again ends the program with status 1 at the
    overwrite guard, before anything is sent. *)
Theorem uboot_image_not_replaced (buf : list Z) (len : Z) (w w1 : world) :
  HEADER_SIZE < len < 2 ^ 64 ->
  0 <= be32toh_at buf 4 ->
  be32toh_at buf 4 + be32toh_at buf 3 < 2 ^ 32 ->
  aw_fel_write_uboot_image buf len w = (Ok tt, w1) ->
  fst (aw_fel_write_uboot_image buf len w1) = Exit 1
  /\ usb_log (snd (aw_fel_write_uboot_image buf len w1)) = usb_log w1
  /\ err_log (snd (aw_fel_write_uboot_image buf len w1))
     = err_log w1 ++ [overwrite_message]
  /\ uboot_entry (snd (aw_fel_write_uboot_image buf len w1)) = uboot_entry w1
  /\ uboot_size (snd (aw_fel_write_uboot_image buf len w1)) = uboot_size w1.
Proof.
  intros Hlen Hload Hend H.
  destruct (uboot_image_run buf len w w1 (proj1 Hlen) H)
    as (Hh & _ & E1 & S1 & _).
  destruct Hh as (_ & _ & _ & Hsz).
  assert (Hpos : 0 < be32toh_at buf 3).
  { rewrite Hsz. unfold sz, HEADER_SIZE in *. rewrite Z.mod_small; lia. }
  destruct (uboot_image_checks buf len w1 (proj1 Hlen)) as [[_ E] | [Hbad _]].
  2: { exfalso. apply Hbad.
       destruct (uboot_image_run buf len w w1 (proj1 Hlen) H) as (Hh & _).
       exact Hh. }
  destruct (pr_info "Writing image, %u bytes @ 0x%08X." w1) as [r2 w2] eqn:P.
  assert (r2 = Ok tt /\ usb_log w2 = usb_log w1 /\ err_log w2 = err_log w1
          /\ uboot_entry w2 = uboot_entry w1 /\ uboot_size w2 = uboot_size w1
          /\ dev_in w2 = dev_in w1) as (-> & L2 & R2 & E2 & S2 & D2).
  { unfold pr_info, bind, get_world, printf, ret in P.
    destruct (verbose w1); inversion P; subst; repeat split. }
  pose proof (overwrite_guard_intersecting
                (drop (Z.to_nat HEADER_SIZE) buf) (be32toh_at buf 4)
                (be32toh_at buf 3) false w2) as G.
  rewrite E2, S2, E1, S1 in G.
  assert (Hx : ranges_intersect (be32toh_at buf 4) (be32toh_at buf 3)
                 (be32toh_at buf 4) (be32toh_at buf 3))
    by (exists (be32toh_at buf 4); lia).
  specialize (G Hpos Hload Hend Hload ltac:(lia) Hx).
  destruct G as (Gx & Gl & _ & Gr).
  destruct (aw_write_buffer _ _ _ _ w2) as [r3 w3] eqn:W.
  cbn [fst snd] in Gx, Gl, Gr. subst r3.
  pose proof W as W'.
  apply steady_aw_write_buffer in W' as (E3 & S3 & _).
  rewrite E, (bind_ok _ _ _ _ _ P), (bind_exit _ _ _ _ _ W). cbn [fst snd].
  repeat split; congruence.
Qed.

Lemma uboot_image_not_replaced_witness :
  exists w1,
    aw_fel_write_uboot_image small_image 68 small_image_world = (Ok tt, w1)
    /\ fst (aw_fel_write_uboot_image small_image 68 w1) = Exit 1.
Proof.
  assert (fst (aw_fel_write_uboot_image small_image 68 small_image_world) = Ok tt)
    as E by (vm_compute; reflexivity).
  destruct (aw_fel_write_uboot_image small_image 68 small_image_world)
    as [r w1] eqn:Er.
  cbn [fst] in E. subst r. exists w1. split; [reflexivity |].
  refine (proj1 (uboot_image_not_replaced small_image 68 small_image_world w1
                   _ _ _ Er)).
  - vm_compute. split; reflexivity.
  - vm_compute. discriminate.
  - vm_compute. reflexivity.
Defined.

(** ** The overwrite guard, exactly *)

Lemma oue_write_tail buf offset len progress :
  only_usb_exit (aw_send_fel_request AW_FEL_1_WRITE offset len ;;
                 aw_usb_write buf len progress ;;
                 aw_read_fel_status).
Proof.
  apply oue_bind; [apply oue_aw_usb_write | intros _].
  apply oue_bind; [apply oue_aw_usb_write | intros _].
  unfold aw_read_fel_status.
  apply oue_bind; [apply oue_aw_usb_read | intros _; apply oue_ret].
Qed.

(** X6.  While the end of the recorded region is below 2^32, a write ends the
    program with status 1 exactly when a region is recorded and the request
    reaches into it or touches it at either end; any other write is never
    refused. *)
Theorem overwrite_guard_exact (buf : list Z) (offset len : Z) (progress : bool)
    (w : world) :
  0 <= uboot_entry w -> 0 <= uboot_size w ->
  uboot_entry w + uboot_size w < 2 ^ 32 ->
  0 <= offset -> 0 <= len -> offset + len < 2 ^ 64 ->
  fst (aw_write_buffer buf offset len progress w) = Exit 1
  <-> 0 < uboot_size w
      /\ offset <= uboot_entry w + uboot_size w
      /\ uboot_entry w <= offset + len.
Proof.
  intros He Hs Hend Ho Hl Hsum. split.
  - intros H.
    destruct (Z.ltb_spec 0 (uboot_size w)) as [H1 | H1];
      [destruct (Z.leb_spec offset (uboot_entry w + uboot_size w)) as [H2 | H2];
       [destruct (Z.leb_spec (uboot_entry w) (offset + len)) as [H3 | H3] |] |];
      [auto | exfalso ..];
      unfold aw_write_buffer in H; unfold bind at 1, get_world in H;
      unfold u32, sz in H; rewrite !Z.mod_small in H by lia.
    + rewrite (proj2 (Z.leb_gt _ _) H3), andb_false_r in H.
      destruct (bind _ _ w) as [r w'] eqn:R. cbn [fst] in H. subst r.
      apply oue_write_tail in R. discriminate.
    + rewrite (proj2 (Z.leb_gt _ _) H2), andb_false_r, andb_false_l in H.
      destruct (bind _ _ w) as [r w'] eqn:R. cbn [fst] in H. subst r.
      apply oue_write_tail in R. discriminate.
    + rewrite (proj2 (Z.ltb_ge _ _) H1), !andb_false_l in H.
      destruct (bind _ _ w) as [r w'] eqn:R. cbn [fst] in H. subst r.
      apply oue_write_tail in R. discriminate.
  - intros (H1 & H2 & H3).
    apply (aw_write_buffer_guard buf offset len progress w H1).
    + unfold u32. rewrite Z.mod_small by lia. exact H2.
    + unfold sz. rewrite Z.mod_small by lia. exact H3.
Qed.

Lemma overwrite_guard_exact_witness :
  fst (aw_write_buffer [1; 2; 3; 4] 0x4A040000 4 false loaded_world) = Exit 1
  /\ fst (aw_write_buffer [1; 2; 3; 4] 0x4B000000 4 false loaded_world) <> Exit 1.
Proof.
  split.
  - apply (proj2 (overwrite_guard_exact [1; 2; 3; 4] 0x4A040000 4 false loaded_world
                    ltac:(simpl; lia) ltac:(simpl; lia) ltac:(simpl; lia)
                    ltac:(lia) ltac:(lia) ltac:(lia))).
    simpl. lia.
  - intros H.
    apply (proj1 (overwrite_guard_exact [1; 2; 3; 4] 0x4B000000 4 false loaded_world
                    ltac:(simpl; lia) ltac:(simpl; lia) ltac:(simpl; lia)
                    ltac:(lia) ltac:(lia) ltac:(lia))) in H.
    simpl in H. lia.
Defined.

(** ** What the device is asked for *)

Lemma libusb_in_ok n w d rest :
  dev_in w = d ++ rest -> length d = n ->
  libusb_in n w = (Ok (Some d), after_in n w) /\ dev_in (after_in n w) = rest.
Proof.
  intros Hd Hn. unfold libusb_in, after_in.
  destruct (decide _) as [_ | Hbad].
  - rewrite Hd, take_app_length', drop_app_length' by (symmetry; exact Hn).
    split; reflexivity.
  - exfalso. apply Hbad. rewrite Hd, length_app. lia.
Qed.

Lemma aw_read_usb_response_ok w r rest :
  dev_in w = r ++ rest -> awus_ok r ->
  aw_read_usb_response w = (Ok tt, after_in 13 w)
  /\ dev_in (after_in 13 w) = rest.
Proof.
  intros Hd [Hl Ht]. unfold aw_read_usb_response, usb_bulk_recv.
  change (13 <=? 0) with false. cbn iota.
  destruct (libusb_in_ok (Z.to_nat 13) w r rest Hd Hl) as [E D].
  change (Z.to_nat 13) with 13%nat in *.
  rewrite bind_assoc, (bind_ok _ _ _ _ _ E).
  unfold ret, bind, assert. rewrite Ht.
  rewrite bool_decide_eq_true_2 by reflexivity. split; [reflexivity | exact D].
Qed.

(** X7.  The FEL status is read and thrown away: whatever its eight bytes are,
    [aw_read_fel_status] returns. *)
Theorem fel_status_is_not_inspected (w : world) (status r rest : list Z) :
  length status = 8%nat -> awus_ok r ->
  dev_in w = status ++ r ++ rest ->
  exists w',
    aw_read_fel_status w = (Ok tt, w')
    /\ dev_in w' = rest
    /\ usb_log w' = usb_log w ++ txn_events (AwRead 8)
    /\ err_log w' = err_log w.
Proof.
  intros Hs Hr Hd.
  unfold aw_read_fel_status, aw_usb_read, aw_send_usb_request, usb_bulk_send.
  change (32 <=? 0) with false. change (8 <=? 0) with false. cbn iota.
  destruct (libusb_in_ok (Z.to_nat 8) (after_out (take (Z.to_nat 32)
              (aw_usb_request AW_USB_READ 8)) w) status (r ++ rest) Hd Hs)
    as [E D].
  destruct (aw_read_usb_response_ok _ r rest D Hr) as [E2 D2].
  eexists. split.
  - unfold bind at 1. unfold bind at 1. unfold bind at 1. unfold bind at 1.
    unfold libusb_out at 1. fold (after_out (take (Z.to_nat 32)
              (aw_usb_request AW_USB_READ 8)) w).
    cbn [ret]. unfold bind at 1. unfold bind at 1. rewrite E. cbn [ret].
    unfold bind at 1. rewrite E2. reflexivity.
  - split; [exact D2 |]. split; [| reflexivity].
    cbn [usb_log after_in after_out txn_events].
    rewrite <- !app_assoc. reflexivity.
Qed.

Lemma fel_status_is_not_inspected_witness :
  exists w',
    aw_read_fel_status (initial_world None ([1; 2; 3; 4; 5; 6; 7; 8] ++ awus ++ []))
      = (Ok tt, w')
    /\ dev_in w' = [].
Proof.
  destruct (fel_status_is_not_inspected
              (initial_world None ([1; 2; 3; 4; 5; 6; 7; 8] ++ awus ++ []))
              [1; 2; 3; 4; 5; 6; 7; 8] awus [] eq_refl
              (conj eq_refl eq_refl) eq_refl) as (w' & E & D & _).
  exists w'. split; [exact E | exact D].
Defined.

(** ** Boot information for U-Boot *)

(** X8.  [have_sunxi_spl] never ends the program: once the four bytes at
    [spl_addr + 0x14] are read, it answers yes exactly for the tag "SPL"
    followed by version 1, transfers nothing more, and complains on stderr
    only about a version it does not support. *)
Theorem have_sunxi_spl_answer (spl_addr : Z) (w w1 : world) (sig : list Z) :
  aw_fel_read (u32 (spl_addr + 0x14)) 4 w = (Ok sig, w1) ->
  exists b w',
    have_sunxi_spl spl_addr w = (Ok b, w')
    /\ (b = true <-> sunxi_spl_v1 sig)
    /\ usb_log w' = usb_log w1 /\ dev_in w' = dev_in w1
    /\ err_log w' = err_log w1 ++ spl_version_complaint sig
    /\ (b = true -> w' = w1).
Proof.
  intros H. unfold have_sunxi_spl, sunxi_spl_v1, spl_version_complaint.
  rewrite (bind_ok _ _ _ _ _ H).
  destruct (bool_decide (take 3 sig = bytes_of_string "SPL")) eqn:Et; cbn [negb].
  - apply bool_decide_eq_true_1 in Et.
    unfold SPL_MIN_VERSION, SPL_MAX_VERSION.
    destruct (Z.ltb_spec (nth 3 sig 0) 1) as [Hlo | Hlo].
    + eexists. eexists. split; [reflexivity |].
      split; [split; [discriminate | intros [_ E]; lia] |].
      cbn. repeat split; try discriminate; try (rewrite <- app_assoc; reflexivity).
    + destruct (Z.ltb_spec 1 (nth 3 sig 0)) as [Hhi | Hhi].
      * eexists. eexists. split; [reflexivity |].
        split; [split; [discriminate | intros [_ E]; lia] |].
        cbn. repeat split; try discriminate; try (rewrite <- app_assoc; reflexivity).
      * exists true, w1. split; [reflexivity |].
        split; [split; [intros _; split; [exact Et | lia] | reflexivity] |].
        rewrite app_nil_r. repeat split.
  - apply bool_decide_eq_false_1 in Et.
    exists false, w1. split; [reflexivity |].
    split; [split; [discriminate | intros [E _]; contradiction] |].
    rewrite app_nil_r. repeat split; discriminate.
Qed.

Lemma have_sunxi_spl_answer_witness :
  exists w',
    have_sunxi_spl 0
      (initial_world None (reply_read (bytes_of_string "SPL" ++ [1]))) = (Ok true, w').
Proof.
  assert (fst (aw_fel_read (u32 (0 + 0x14)) 4
                 (initial_world None (reply_read (bytes_of_string "SPL" ++ [1]))))
          = Ok (bytes_of_string "SPL" ++ [1])) as E by (vm_compute; reflexivity).
  destruct (aw_fel_read (u32 (0 + 0x14)) 4
              (initial_world None (reply_read (bytes_of_string "SPL" ++ [1]))))
    as [r w1] eqn:Er.
  cbn [fst] in E. subst r.
  destruct (have_sunxi_spl_answer 0 _ w1 _ Er) as (b & w' & Hrun & Hb & _).
  exists w'. rewrite Hrun. f_equal. f_equal.
  apply Hb. split; reflexivity.
Defined.

Lemma have_sunxi_spl_cases (spl_addr : Z) (w w1 : world) (sig : list Z) :
  aw_fel_read (u32 (spl_addr + 0x14)) 4 w = (Ok sig, w1) ->
  (sunxi_spl_v1 sig -> have_sunxi_spl spl_addr w = (Ok true, w1))
  /\ (~ sunxi_spl_v1 sig ->
      exists w', have_sunxi_spl spl_addr w = (Ok false, w')
                 /\ usb_log w' = usb_log w1 /\ dev_in w' = dev_in w1).
Proof.
  intros H. unfold have_sunxi_spl, sunxi_spl_v1.
  rewrite (bind_ok _ _ _ _ _ H).
  destruct (bool_decide (take 3 sig = bytes_of_string "SPL")) eqn:Et; cbn [negb].
  - apply bool_decide_eq_true_1 in Et.
    unfold SPL_MIN_VERSION, SPL_MAX_VERSION.
    destruct (Z.ltb_spec (nth 3 sig 0) 1) as [Hlo | Hlo];
      [| destruct (Z.ltb_spec 1 (nth 3 sig 0)) as [Hhi | Hhi]].
    + split; [intros [_ E]; lia |].
      intros _. eexists. split; [reflexivity |]. cbn. split; reflexivity.
    + split; [intros [_ E]; lia |].
      intros _. eexists. split; [reflexivity |]. cbn. split; reflexivity.
    + split; [intros _; reflexivity |].
      intros Hn. exfalso. apply Hn. split; [exact Et | lia].
  - apply bool_decide_eq_false_1 in Et.
    split; [intros [E _]; contradiction |].
    intros _. exists w1. repeat split.
Qed.

(** X9.  [pass_fel_information] writes to the SPL header only when it has found
    a sunxi SPL of a supported version there: then it writes the two words,
    little-endian, at [spl_addr + 0x18]; otherwise it returns without
    writing anything. *)
Theorem pass_fel_information_writes_to_sunxi_spl_only
    (get_soc_info_from_version : aw_fel_version -> soc_info_t)
    (script_address uEnv_length : Z) (w w1 w2 : world) (soc : soc_info_t)
    (sig : list Z) :
  aw_fel_get_soc_info get_soc_info_from_version w = (Ok soc, w1) ->
  aw_fel_read (u32 (spl_addr soc + 0x14)) 4 w1 = (Ok sig, w2) ->
  (sunxi_spl_v1 sig ->
   forall w',
     pass_fel_information get_soc_info_from_version script_address uEnv_length w
       = (Ok tt, w') ->
     usb_log w' = usb_log w2
       ++ fel_events (FelWrite (htole32 script_address ++ htole32 uEnv_length)
                               (u32 (spl_addr soc + 0x18)) 8))
  /\ (~ sunxi_spl_v1 sig ->
      exists w',
        pass_fel_information get_soc_info_from_version script_address uEnv_length w
          = (Ok tt, w')
        /\ usb_log w' = usb_log w2 /\ dev_in w' = dev_in w2).
Proof.
  intros H1 H2.
  destruct (have_sunxi_spl_cases (spl_addr soc) w1 w2 sig H2) as [Hyes Hno].
  unfold pass_fel_information.
  rewrite (bind_ok _ _ _ _ _ H1).
  split.
  - intros Hsig w' H. rewrite (bind_ok _ _ _ _ _ (Hyes Hsig)) in H.
    apply bind_inv in H as ([] & w4 & H4 & H).
    apply does_pr_info in H4 as [L4 _].
    apply does_aw_fel_write in H as [L _].
    rewrite L, L4, app_nil_r.
    cbn [words_to_bytes flat_map]. rewrite app_nil_r. reflexivity.
  - intros Hsig. destruct (Hno Hsig) as (w3 & Hrun & L3 & D3).
    rewrite (bind_ok _ _ _ _ _ Hrun).
    exists w3. repeat split; assumption.
Qed.

Lemma pass_fel_information_writes_to_sunxi_spl_only_witness :
  (exists w',
     pass_fel_information (fun _ => a10_soc_info) 0x43100000 0 sunxi_spl_world
       = (Ok tt, w'))
  /\ (exists w',
        pass_fel_information (fun _ => a10_soc_info) 0x43100000 0 boot0_world
          = (Ok tt, w')
        /\ dev_in w' = []).
Proof.
  split.
  - assert (fst (pass_fel_information (fun _ => a10_soc_info) 0x43100000 0
                   sunxi_spl_world) = Ok tt) as E by (vm_compute; reflexivity).
    destruct (pass_fel_information (fun _ => a10_soc_info) 0x43100000 0
                sunxi_spl_world) as [r w'] eqn:Er.
    cbn [fst] in E. subst r. exists w'. reflexivity.
  - assert (fst (aw_fel_read (u32 (spl_addr a10_soc_info + 0x14)) 4 boot0_world)
            = Ok [0; 0; 0; 0]) as E by (vm_compute; reflexivity).
    destruct (aw_fel_read (u32 (spl_addr a10_soc_info + 0x14)) 4 boot0_world)
      as [r w2] eqn:Er.
    cbn [fst] in E. subst r.
    assert (dev_in w2 = []) as D2.
    { replace w2 with (snd (aw_fel_read (u32 (spl_addr a10_soc_info + 0x14)) 4
                              boot0_world)) by (rewrite Er; reflexivity).
      vm_compute. reflexivity. }
    destruct (proj2 (pass_fel_information_writes_to_sunxi_spl_only
                       (fun _ => a10_soc_info) 0x43100000 0
                       boot0_world boot0_world w2 a10_soc_info [0; 0; 0; 0]
                       eq_refl Er))
      as (w' & Hrun & _ & D).
    + intros [Ht _]. vm_compute in Ht. discriminate.
    + exists w'. split; [exact Hrun | congruence].
Defined.

(** ** Warm reset *)

(** X10.  On a SoC whose record names no RVBAR register, [aw_rmr_request] prints
    an error and returns, without a transfer and without ending the
    program; otherwise a run that returns has uploaded the 15-word thunk,
    with the register, the entry point and the mode (3 for AArch64, else 2)
    in its last three words, to the scratch area and has executed it. *)
Theorem aw_rmr_request_thunk
    (get_soc_info_from_version : aw_fel_version -> soc_info_t)
    (entry_point : Z) (aarch64 : bool) (w w1 : world) (soc : soc_info_t) :
  aw_fel_get_soc_info get_soc_info_from_version w = (Ok soc, w1) ->
  (rvbar_reg soc = 0 ->
   exists w',
     aw_rmr_request get_soc_info_from_version entry_point aarch64 w = (Ok tt, w')
     /\ usb_log w' = usb_log w1 /\ dev_in w' = dev_in w1
     /\ err_log w' = err_log w1 ++ [rmr_message])
  /\ (rvbar_reg soc <> 0 ->
      forall w',
        aw_rmr_request get_soc_info_from_version entry_point aarch64 w = (Ok tt, w') ->
        usb_log w' = usb_log w1
          ++ fel_events (FelWrite
               (words_to_bytes (rmr_code (rvbar_reg soc) entry_point
                                         (if aarch64 then 3 else 2)))
               (scratch_addr soc) 60)
          ++ fel_events (FelExecute (scratch_addr soc))
        /\ err_log w' = err_log w1).
Proof.
  intros H1. unfold aw_rmr_request. rewrite (bind_ok _ _ _ _ _ H1).
  split.
  - intros Hz. rewrite Hz. cbn. eexists. split; [reflexivity |].
    repeat split.
  - intros Hnz w' H.
    rewrite (proj2 (Z.eqb_neq _ _) Hnz) in H. cbv zeta in H.
    replace (Z.lor (Z.shiftl 1 1) (if aarch64 then 1 else 0))
      with (if aarch64 then 3 else 2) in H by (destruct aarch64; reflexivity).
    change (4 * Z.of_nat (length (rmr_code (rvbar_reg soc) entry_point
                                    (if aarch64 then 3 else 2)))) with 60 in H.
    apply bind_inv in H as ([] & w2 & H2 & H).
    apply bind_inv in H as ([] & w3 & H3 & H).
    apply bind_inv in H as ([] & w4 & H4 & H).
    apply does_aw_fel_write in H2 as [L2 (_ & _ & _ & _ & R2)].
    apply does_pr_info in H3 as [L3 (_ & _ & _ & _ & R3)].
    apply does_aw_fel_execute in H4 as [L4 (_ & _ & _ & _ & R4)].
    apply does_pr_info in H as [L5 (_ & _ & _ & _ & R5)].
    split; [| congruence].
    rewrite L5, L4, L3, L2, !app_nil_r, <- app_assoc. reflexivity.
Qed.

Lemma aw_rmr_request_thunk_witness :
  (exists w',
     aw_rmr_request (fun _ => a10_soc_info) 0x44000 true
       (initial_world (Some a10_soc_info) []) = (Ok tt, w')
     /\ usb_log w' = [] /\ err_log w' = [rmr_message])
  /\ (exists w',
        aw_rmr_request (fun _ => a64_soc_info) 0x44000 true a64_world = (Ok tt, w')
        /\ usb_log w'
           = fel_events (FelWrite
               (words_to_bytes (rmr_code 0x017000A0 0x44000 3)) 0x11000 60)
             ++ fel_events (FelExecute 0x11000)).
Proof.
  split.
  - destruct (proj1 (aw_rmr_request_thunk (fun _ => a10_soc_info) 0x44000 true
                       (initial_world (Some a10_soc_info) [])
                       (initial_world (Some a10_soc_info) []) a10_soc_info eq_refl)
                eq_refl) as (w' & Hrun & L & _ & R).
    exists w'. split; [exact Hrun |]. split; [exact L | exact R].
  - assert (fst (aw_rmr_request (fun _ => a64_soc_info) 0x44000 true a64_world)
            = Ok tt) as E by (vm_compute; reflexivity).
    destruct (aw_rmr_request (fun _ => a64_soc_info) 0x44000 true a64_world)
      as [r w'] eqn:Er.
    cbn [fst] in E. subst r. exists w'. split; [reflexivity |].
    refine (proj1 (proj2 (aw_rmr_request_thunk (fun _ => a64_soc_info) 0x44000 true
                            a64_world a64_world a64_soc_info eq_refl) _ w' Er)).
    vm_compute. discriminate.
Defined.

(** ** Fill *)

(** X11.  A fill that returns has sent one FEL write command for [size] bytes at
    [offset] and, as its payload, [size] copies of the value in one
    transfer, and has then read the status. *)
Theorem aw_fel_fill_transfers (offset size value : Z) (w w' : world) :
  0 < size ->
  aw_fel_fill offset size value w = (Ok tt, w') ->
  usb_log w' = usb_log w ++ fill_events offset size value.
Proof.
  intros Hs H. unfold aw_fel_fill in H.
  apply does_aw_write_buffer in H as [L _]. rewrite L. f_equal.
  unfold fill_events, fel_events, fel_op_txns, flat_map.
  rewrite app_nil_r. f_equal.
  unfold txn_events at 1.
  rewrite (proj2 (Z.leb_gt size 0)) by lia.
  rewrite take_ge by (rewrite repeat_length; lia). reflexivity.
Qed.

Lemma aw_fel_fill_transfers_witness :
  exists w',
    aw_fel_fill 0x2000 4 0xFF (initial_world None reply_write) = (Ok tt, w')
    /\ usb_log w' = fill_events 0x2000 4 0xFF.
Proof.
  assert (fst (aw_fel_fill 0x2000 4 0xFF (initial_world None reply_write)) = Ok tt)
    as E by (vm_compute; reflexivity).
  destruct (aw_fel_fill 0x2000 4 0xFF (initial_world None reply_write))
    as [r w'] eqn:Er.
  cbn [fst] in E. subst r. exists w'. split; [reflexivity |].
  exact (aw_fel_fill_transfers 0x2000 4 0xFF (initial_world None reply_write) w'
           ltac:(lia) Er).
Defined.

(** ** Uploading files *)



Lemma does_upload_one_plain gsi progress file :
  plain_file file -> does (upload_one gsi progress file) (file_events file).
Proof.
  intros [Hs Hu]. unfold upload_one, file_events. cbv zeta.
  destruct (snd file) as [| b bs] eqn:Eb.
  - cbn. apply does_ret.
  - rewrite <- Eb in *.
    assert ((0 <? Z.of_nat (length (snd file))) = true) as ->
      by (apply Z.ltb_lt; rewrite Eb; cbn [length]; lia).
    rewrite (proj2 (Z.eqb_neq _ _) Hs), Hu.
    rewrite <- (app_nil_r (fel_events _)).
    apply does_bind; [apply does_aw_write_buffer | intros _].
    apply does_bind_nil; [apply does_ret | intros _; apply does_ret].
Qed.

Lemma does_for_each_plain gsi progress files :
  Forall plain_file files ->
  does (for_each (upload_one gsi progress) files) (flat_map file_events files).
Proof.
  induction 1 as [| file files Hf _ IH]; cbn [for_each flat_map].
  - apply does_ret.
  - apply does_bind; [apply does_upload_one_plain, Hf | intros _; exact IH].
Qed.

(** X13.  With fewer than [2 * count] arguments [file_upload] ends the program
    with status 1 before anything is sent.  Otherwise, for files that are
    neither boot scripts nor uEnv-style data, a run that returns has
    written every file that is not empty, in the order of the arguments,
    each in one FEL write of the whole file at its address, has sent
    nothing else, and reports [count] files. *)
Theorem file_upload_plain_files
    (get_soc_info_from_version : aw_fel_version -> soc_info_t)
    (count argc : Z) (files : list (Z * list Z)) (progress : bool) (w : world) :
  0 <= count -> count * 2 < 2 ^ 64 ->
  (argc < count * 2 ->
   fatal (file_upload get_soc_info_from_version count argc files progress w) w)
  /\ (count * 2 <= argc -> count < 2 ^ 32 ->
      count <= Z.of_nat (length files) ->
      Forall plain_file (take (Z.to_nat count) files) ->
      forall n w',
        file_upload get_soc_info_from_version count argc files progress w
          = (Ok n, w') ->
        n = count
        /\ usb_log w' = usb_log w
             ++ flat_map file_events (take (Z.to_nat count) files)).
Proof.
  intros Hc Hw. unfold file_upload, sz. rewrite Z.mod_small by lia. split.
  - intros Hargc. rewrite (proj2 (Z.ltb_lt _ _) Hargc).
    unfold bind, eprintf, exit. simpl. repeat split. eexists. reflexivity.
  - intros Hargc _ Hfiles Hplain n w' H.
    rewrite (proj2 (Z.ltb_ge _ _) Hargc) in H.
    apply bind_inv in H as ([] & w1 & H1 & H). inversion H; subst.
    split; [reflexivity |].
    apply (does_for_each_plain get_soc_info_from_version progress _ Hplain) in H1
      as [L _].
    exact L.
Qed.

Lemma file_upload_plain_files_witness :
  fatal (file_upload (fun _ => a10_soc_info) 2 3
           [(0x42000000, [1; 2; 3]); (0x43000000, [])] false (initial_world None []))
        (initial_world None [])
  /\ exists w',
       file_upload (fun _ => a10_soc_info) 2 4
         [(0x42000000, [1; 2; 3]); (0x43000000, [])] false
         (initial_world None reply_write) = (Ok 2, w')
       /\ usb_log w' = fel_events (FelWrite [1; 2; 3] 0x42000000 3).
Proof.
  split.
  - apply (proj1 (file_upload_plain_files (fun _ => a10_soc_info) 2 3
                    [(0x42000000, [1; 2; 3]); (0x43000000, [])] false
                    (initial_world None []) ltac:(lia) ltac:(lia))).
    lia.
  - assert (fst (file_upload (fun _ => a10_soc_info) 2 4
                   [(0x42000000, [1; 2; 3]); (0x43000000, [])] false
                   (initial_world None reply_write)) = Ok 2) as E
      by (vm_compute; reflexivity).
    destruct (file_upload (fun _ => a10_soc_info) 2 4
                [(0x42000000, [1; 2; 3]); (0x43000000, [])] false
                (initial_world None reply_write)) as [r w'] eqn:Er.
    cbn [fst] in E. subst r. exists w'. split; [reflexivity |].
    refine (eq_trans (proj2 (proj2 (file_upload_plain_files (fun _ => a10_soc_info)
              2 4 [(0x42000000, [1; 2; 3]); (0x43000000, [])] false
              (initial_world None reply_write) ltac:(lia) ltac:(lia))
              ltac:(lia) ltac:(lia) ltac:(simpl; lia) _ 2 w' Er)) _).
    + repeat constructor; vm_compute; congruence.
    + vm_compute. reflexivity.
Defined.

(** ** Little-endian words *)

Lemma testbit_255 m : Z.testbit 255 m = (0 <=? m) && (m <? 8).
Proof.
  destruct (Z.leb_spec 0 m) as [Hm | Hm]; cbn [andb].
  - change 255 with (Z.ones 8). apply Z.testbit_ones_nonneg; lia.
  - apply Z.testbit_neg_r. lia.
Qed.

Lemma byte_bit x k n :
  0 <= k -> 0 <= n ->
  Z.testbit (Z.shiftl (Z.land (Z.shiftr x k) 255) k) n
  = Z.testbit x n && ((k <=? n) && (n <? k + 8)).
Proof.
  intros Hk Hn. rewrite Z.shiftl_spec by lia.
  destruct (Z.leb_spec k n) as [Hle | Hlt].
  - rewrite Z.land_spec, Z.shiftr_spec, testbit_255 by lia.
    replace (n - k + k) with n by lia.
    rewrite (proj2 (Z.leb_le 0 (n - k))) by lia. cbn [andb].
    f_equal. destruct (Z.ltb_spec (n - k) 8), (Z.ltb_spec n (k + 8)); lia || reflexivity.
  - rewrite Z.testbit_neg_r by lia. rewrite andb_false_r. reflexivity.
Qed.

Lemma le32toh_htole32 x rest :
  is_word x -> le32toh_at (htole32 x ++ rest) 0 = x.
Proof.
  intros Hx. unfold le32toh_at, htole32. cbn [nth app Nat.mul Nat.add].
  apply Z.bits_inj'. intros n Hn.
  rewrite <- (Z.shiftl_0_r (Z.land x 255)), <- (Z.shiftr_0_r x) at 1.
  rewrite !Z.lor_spec, !byte_bit by lia.
  destruct (Z.ltb_spec n 32) as [Hlt | Hge].
  - destruct (Z.testbit x n); [| reflexivity]. cbn [andb].
    destruct (Z.ltb_spec n 8), (Z.ltb_spec n 16), (Z.ltb_spec n 24),
      (Z.leb_spec 8 n), (Z.leb_spec 16 n), (Z.leb_spec 24 n),
      (Z.leb_spec 0 n);
      cbn; try reflexivity; try lia;
      repeat (rewrite (proj2 (Z.ltb_lt _ _)) by lia);
      repeat (rewrite (proj2 (Z.ltb_ge _ _)) by lia); reflexivity.
  - rewrite (testbit_above x 32 n) by (unfold is_word in Hx; lia).
    reflexivity.
Qed.

Lemma le32toh_at_skip a b c d rest i :
  le32toh_at (a :: b :: c :: d :: rest) (S i) = le32toh_at rest i.
Proof.
  unfold le32toh_at.
  replace (4 * S i + 0)%nat with (S (S (S (S (4 * i + 0))))) by lia.
  replace (4 * S i + 1)%nat with (S (S (S (S (4 * i + 1))))) by lia.
  replace (4 * S i + 2)%nat with (S (S (S (S (4 * i + 2))))) by lia.
  replace (4 * S i + 3)%nat with (S (S (S (S (4 * i + 3))))) by lia.
  reflexivity.
Qed.

Lemma htole32_bytes x : Forall is_byte (htole32 x).
Proof.
  unfold htole32, is_byte. repeat constructor;
    change 255 with (Z.ones 8); rewrite Z.land_ones by lia;
    apply Z.mod_pos_bound; lia.
Qed.

(** X14.  The layout of words in a transfer buffer can be undone: the bytes that
    the copy loop of [aw_fel_writel_n] produces for a list of 32-bit words
    are bytes, four per word, and the loop of [aw_fel_readl_n] reads the
    same words back from them. *)
Theorem words_round_trip (ws : list Z) :
  Forall is_word ws ->
  bytes_to_words (words_to_bytes ws) (length ws) = ws
  /\ Forall is_byte (words_to_bytes ws)
  /\ length (words_to_bytes ws) = (4 * length ws)%nat.
Proof.
  intros Hws. split; [| split].
  - unfold bytes_to_words, words_to_bytes.
    induction Hws as [| x ws Hx Hws IH]; [reflexivity |].
    cbn [length flat_map seq map]. f_equal.
    + apply le32toh_htole32, Hx.
    + rewrite <- seq_shift, map_map. rewrite <- IH at 2.
      apply map_ext. intros i. unfold htole32. apply le32toh_at_skip.
  - unfold words_to_bytes. clear Hws.
    induction ws as [| x ws IH]; [constructor |].
    cbn [flat_map]. apply Forall_app. split; [apply htole32_bytes | exact IH].
  - apply words_to_bytes_length.
Qed.

Lemma words_round_trip_witness :
  bytes_to_words (words_to_bytes [0xDEADBEEF; 0; 0xFFFFFFFF]) 3
  = [0xDEADBEEF; 0; 0xFFFFFFFF].
Proof.
  apply (words_round_trip [0xDEADBEEF; 0; 0xFFFFFFFF]).
  repeat constructor; unfold is_word; lia.
Defined.

(** ** The hex dump *)

Lemma length_append_string (a b : string) :
  String.length (String.append a b) = (String.length a + String.length b)%nat.
Proof. induction a as [| c a IH]; cbn; [reflexivity | rewrite IH; reflexivity]. Qed.

Lemma length_hex_fixed k n : String.length (hex_fixed k n) = k.
Proof.
  revert n. induction k as [| k IH]; intros n; cbn [hex_fixed]; [reflexivity |].
  rewrite length_append_string, IH. cbn. lia.
Qed.

Lemma hex_width_bound k n :
  (1 <= k)%nat -> 0 <= n < 2 ^ (4 * Z.of_nat k) -> (hex_width n <= k)%nat.
Proof.
  intros Hk Hn. unfold hex_width.
  destruct (Z.leb_spec n 0) as [Hz | Hp]; [exact Hk |].
  assert (Z.log2 n < 4 * Z.of_nat k) by (apply Z.log2_lt_pow2; lia).
  assert (Z.log2 n / 4 < Z.of_nat k) by (apply Z.div_lt_upper_bound; lia).
  pose proof (Z.log2_nonneg n). assert (0 <= Z.log2 n / 4) by (apply Z.div_pos; lia).
  lia.
Qed.

Lemma length_hex_min k n :
  (1 <= k)%nat -> 0 <= n < 2 ^ (4 * Z.of_nat k) ->
  String.length (hex_min k n) = k.
Proof.
  intros Hk Hn. unfold hex_min. rewrite length_hex_fixed.
  pose proof (hex_width_bound k n Hk Hn). lia.
Qed.

Lemma length_pieces l :
  String.length (pieces l) = list_sum (map String.length l).
Proof.
  unfold pieces. induction l as [| x [| y l] IH].
  - reflexivity.
  - cbn. lia.
  - change (String.concat EmptyString (x :: y :: l))
      with (String.append x (String.append EmptyString
                                           (String.concat EmptyString (y :: l)))).
    rewrite length_append_string. cbn [String.append].
    rewrite IH. reflexivity.
Qed.

Lemma sum_constant {A} (f : A -> string) (c : nat) (l : list A) :
  (forall x, In x l -> String.length (f x) = c) ->
  list_sum (map String.length (map f l)) = (c * length l)%nat.
Proof.
  induction l as [| x l IH]; intros H; cbn [map list_sum fold_right length]; [lia |].
  rewrite H by (left; reflexivity).
  unfold list_sum in IH. rewrite IH by (intros y Hy; apply H; right; exact Hy).
  lia.
Qed.

Lemma in_range lo hi x : In x (range lo hi) -> lo <= x < hi.
Proof.
  unfold range. intros H. apply list_elem_of_In, elem_of_seqZ in H. lia.
Qed.

Lemma length_hex_slot data size j i :
  (forall k, 0 <= k < size -> is_byte (nth (Z.to_nat k) data 0)) ->
  0 <= j + i ->
  String.length (hex_slot data size j i) = 3%nat.
Proof.
  intros Hb Hji. unfold hex_slot.
  destruct (Z.ltb_spec (j + i) size) as [Hlt | Hge]; [| reflexivity].
  rewrite length_append_string, length_hex_min; [reflexivity | lia |].
  apply (Hb (j + i)). lia.
Qed.

Lemma length_char_slot data size j i :
  String.length (char_slot data size j i) = 1%nat.
Proof.
  unfold char_slot. destruct (size <=? j + i); [reflexivity |].
  destruct (isprint _); reflexivity.
Qed.

Lemma length_hexdump_line data offset size j :
  (forall k, 0 <= k < size -> is_byte (nth (Z.to_nat k) data 0)) ->
  0 <= j -> 0 <= offset + j < 2 ^ 32 ->
  String.length (hexdump_line data offset size j) = 76%nat.
Proof.
  intros Hb Hj Ho. unfold hexdump_line.
  rewrite length_pieces, !map_app, !list_sum_app.
  rewrite (sum_constant (char_slot data size j) 1)
    by (intros; apply length_char_slot).
  rewrite (sum_constant (hex_slot data size j) 3).
  2: { intros i Hi. apply in_range in Hi. apply length_hex_slot; [exact Hb | lia]. }
  cbn [map list_sum fold_right].
  rewrite length_append_string, length_hex_min; [reflexivity | lia |].
  unfold sz. rewrite Z.mod_small by lia. lia.
Qed.

Lemma printed_nil w : printed [] w = w.
Proof. destruct w. unfold printed. cbn. rewrite app_nil_r. reflexivity. Qed.

Lemma printed_app l1 l2 w : printed l2 (printed l1 w) = printed (l1 ++ l2) w.
Proof. unfold printed. cbn. rewrite app_assoc. reflexivity. Qed.

Lemma map_range_succ {A} (f : Z -> A) (m : nat) :
  map f (range 0 (Z.of_nat (S m)))
  = f 0 :: map (fun k => f (k + 1)) (range 0 (Z.of_nat m)).
Proof.
  unfold range. rewrite !Z.sub_0_r. rewrite seqZ_cons by lia.
  cbn [map]. f_equal.
  replace (Z.pred (Z.of_nat (S m))) with (Z.of_nat m) by lia.
  change (Z.succ 0) with (1 + 0). rewrite <- (fmap_add_seqZ 1 0).
  rewrite map_fmap. apply map_ext. intros k. f_equal. lia.
Qed.

Lemma hexdump_from_lines data offset size (m : nat) :
  forall j w,
    m = Z.to_nat ((size - j + 15) / 16) ->
    hexdump_from data offset size j w
    = (Ok tt, printed (map (hexdump_line data offset size)
                           (map (fun k => j + 16 * k) (range 0 (Z.of_nat m)))) w).
Proof.
  induction m as [| m IH]; intros j w Hm; rewrite hexdump_from_equation_1.
  - assert (size <= j).
    { destruct (Z.lt_ge_cases j size) as [Hlt |]; [| assumption].
      assert (1 <= (size - j + 15) / 16) by (apply Z.div_le_lower_bound; lia).
      lia. }
    destruct (decide (j < size)) as [Hlt | Hge]; [lia |].
    cbn [hexdump_from_unfold_clause_1]. cbn [range map].
    change (seqZ 0 (Z.of_nat 0 - 0)) with (@nil Z). cbn [map].
    rewrite printed_nil. reflexivity.
  - assert (j < size).
    { destruct (Z.lt_ge_cases j size) as [| Hge]; [assumption |].
      assert ((size - j + 15) / 16 <= 0).
      { apply Z.lt_succ_r. apply Z.div_lt_upper_bound; lia. }
      lia. }
    destruct (decide (j < size)) as [Hlt | Hge]; [| lia].
    cbn [hexdump_from_unfold_clause_1].
    unfold bind at 1. unfold printf at 1.
    fold (printed [hexdump_line data offset size j] w).
    rewrite (IH (j + 16)).
    2: { replace (size - (j + 16) + 15) with (size - j + 15 + (-1) * 16) by lia.
         rewrite Z.div_add by lia. lia. }
    rewrite printed_app. f_equal. f_equal.
    rewrite (map_range_succ (fun k => j + 16 * k)). cbn [map app].
    rewrite Z.mul_0_r, Z.add_0_r. f_equal.
    rewrite !map_map. apply map_ext. intros k. f_equal. lia.
Qed.

(** X15.  [hexdump] always returns, and it prints one line for every 16 bytes or
    part of them, none for no bytes.  When the dump lies below 2^32 and
    the buffer holds bytes, every line is 76 characters long: the address,
    16 byte slots and 16 character slots, with the slots past the end of
    the data filled in. *)
Theorem hexdump_output (data : list Z) (offset size : Z) (w : world) :
  0 <= size ->
  hexdump data offset size w
  = (Ok tt, printed (map (hexdump_line data offset size) (hexdump_offsets size)) w)
  /\ length (hexdump_offsets size) = Z.to_nat ((size + 15) / 16)
  /\ (0 <= offset -> offset + size <= 2 ^ 32 ->
      (forall k, 0 <= k < size -> is_byte (nth (Z.to_nat k) data 0)) ->
      Forall (fun line => String.length line = 76%nat)
             (map (hexdump_line data offset size) (hexdump_offsets size))).
Proof.
  intros Hs.
  assert (Hc : 0 <= (size + 15) / 16) by (apply Z.div_pos; lia).
  split; [| split].
  - unfold hexdump, hexdump_offsets.
    rewrite (hexdump_from_lines data offset size (Z.to_nat ((size + 15) / 16)))
      by (rewrite Z.sub_0_r; reflexivity).
    rewrite Z2Nat.id by exact Hc. reflexivity.
  - unfold hexdump_offsets, range. rewrite length_map, length_seqZ. f_equal. lia.
  - intros Ho Hend Hb. apply Forall_forall. intros line Hl.
    apply list_elem_of_In in Hl. apply in_map_iff in Hl as (j & <- & Hj).
    unfold hexdump_offsets in Hj. apply in_map_iff in Hj as (k & <- & Hk).
    apply in_range in Hk.
    assert (16 * k < size)
      by (pose proof (Z.mul_div_le (size + 15) 16 ltac:(lia)); lia).
    apply length_hexdump_line; [exact Hb | lia | lia].
Qed.

Lemma hexdump_output_witness :
  out_log (snd (hexdump (bytes_of_string "sunxi-fel 17 bytes") 0x2000 17
                  (initial_world None [])))
  = map (hexdump_line (bytes_of_string "sunxi-fel 17 bytes") 0x2000 17) [0; 16].
Proof.
  rewrite (proj1 (hexdump_output (bytes_of_string "sunxi-fel 17 bytes") 0x2000 17
                    (initial_world None []) ltac:(lia))).
  reflexivity.
Defined.

(** ** The translation table across runs *)

Lemma rewrite_twice e c m :
  Z.lor (Z.land (Z.lor (Z.land e m) c) m) c = Z.lor (Z.land e m) c.
Proof.
  apply Z.bits_inj'. intros n Hn.
  rewrite !Z.lor_spec, !Z.land_spec, !Z.lor_spec, !Z.land_spec.
  destruct (Z.testbit e n), (Z.testbit m n), (Z.testbit c n); reflexivity.
Qed.

Lemma restore_entry_twice i e :
  restore_entry i (restore_entry i e) = restore_entry i e.
Proof.
  unfold restore_entry, dram_entry, brom_entry.
  destruct (_ && _); [apply rewrite_twice |].
  destruct (i =? 0xFFF); [apply rewrite_twice | reflexivity].
Qed.

(** X16.  The rewrite of the restore path is idempotent: a table that has been
    through it once is left as it is by a second pass. *)
Theorem restore_rewrite_idempotent (tbl : list Z) :
  restore_rewrite (restore_rewrite tbl) = restore_rewrite tbl.
Proof.
  apply list_eq. intros j. rewrite !restore_rewrite_lookup.
  destruct (tbl !! j) as [e |]; [| reflexivity].
  cbn [fmap option_fmap option_map]. f_equal. apply restore_entry_twice.
Qed.

Lemma restore_rewrite_shape tbl :
  length tbl = 4096%nat -> table_shape tbl -> table_shape (restore_rewrite tbl).
Proof.
  intros Hlen Hs i Hi. rewrite restore_rewrite_nth by lia.
  apply restore_entry_shape; [exact Hi | apply Hs, Hi].
Qed.

(** X17.  The loader accepts its own work: the table that the restore path
    writes back for an accepted table passes, entry by entry, the checks
    that the backup path applies to the table it reads from the device. *)
Theorem restored_table_passes_checks (tbl : list Z) (w : world) :
  length tbl = 4096%nat -> table_shape tbl ->
  for_each (check_tt_entry (restore_rewrite tbl)) (range 0 4096) w = (Ok tt, w).
Proof.
  intros Hlen Hs. apply shape_loop_ok, table_shapeb_spec.
  apply restore_rewrite_shape; assumption.
Qed.

Lemma restored_table_passes_checks_witness :
  for_each (check_tt_entry (restore_rewrite aw_generate_mmu_translation_table))
           (range 0 4096) (initial_world None [])
  = (Ok tt, initial_world None []).
Proof.
  apply restored_table_passes_checks.
  - apply generated_table_entries.
  - apply generated_table_shape.
Defined.

(** ** The SPL loader *)




Lemma oue_spl_write dest tmp c : only_usb_exit (spl_write dest tmp c).
Proof.
  unfold spl_write. cbv zeta.
  apply oue_bind; [apply oue_aw_fel_write | intros _; apply oue_ret].
Qed.

Lemma oue_swap_entry sb c : only_usb_exit (swap_entry sb c).
Proof.
  unfold swap_entry. apply oue_bind.
  - destruct (_ && _); [apply oue_spl_write | apply oue_ret].
  - intros c'. destruct (_ && _); [apply oue_spl_write | apply oue_ret].
Qed.

Lemma oue_spl_swap_loop soc swaps c : only_usb_exit (spl_swap_loop soc swaps c).
Proof.
  revert c. induction swaps as [| sb swaps IH]; intros c; cbn [spl_swap_loop].
  - apply oue_ret.
  - destruct (size sb =? 0); [apply oue_ret |]. cbv zeta.
    apply oue_bind; [apply oue_swap_entry | intros c'; apply IH].
Qed.

(** X19.  The size check comes after the swap loop: an SPL that is larger than
    the limit is never uploaded in full, and when the program ends with
    status 1 for it, the writes of the loop, all of them, have already
    been made. *)
Theorem oversized_spl_is_refused_late (soc : soc_info_t)
    (swaps : list sram_swap_buffers) (buf : list Z) (spl_len : Z)
    (w w' : world) (r : result spl_cursor) :
  swaps_ascending (spl_addr soc) swaps ->
  0 <= spl_addr soc ->
  0 <= spl_len <= Z.of_nat (length buf) ->
  upload_limit soc swaps < spl_len ->
  spl_upload soc swaps buf spl_len w = (r, w') ->
  (forall c, r <> Ok c)
  /\ (r = Exit 1 ->
      usb_log w' = usb_log w
        ++ plan_events (fst (loop_plan swaps (spl_addr soc)
                               (take (Z.to_nat spl_len) buf)))).
Proof.
  intros Hasc Hspl Hlen Hbig H. unfold spl_upload in H.
  unfold bind at 1 in H.
  destruct (spl_swap_loop soc swaps
              (mk_cursor (spl_addr soc) buf spl_len SPL_LEN_LIMIT 0) w)
    as [[c | e |] w1] eqn:L.
  - apply (spl_swap_loop_plan soc swaps _ (spl_addr soc) (spl_addr soc)) in L;
      cbn [cur_len cur_addr cur_buf spl_len_limit swap_i];
      [| assumption | assumption | assumption | right; split; [reflexivity | lia]].
    cbn [cur_len cur_addr cur_buf spl_len_limit swap_i] in L.
    destruct L as (L1 & _ & _ & _ & Hlim).
    cbv zeta in H. rewrite Hlim in H. fold (upload_limit soc swaps) in H.
    rewrite (proj2 (Z.ltb_lt _ _) Hbig) in H.
    unfold bind, eprintf, exit in H. inversion H; subst.
    split; [discriminate |]. intros _. exact L1.
  - inversion H; subst. split; [discriminate |].
    intros E. inversion E; subst. apply oue_spl_swap_loop in L. discriminate.
  - inversion H; subst. split; discriminate.
Qed.

Lemma oversized_spl_is_refused_late_witness :
  exists w',
    spl_upload one_swap_soc_info one_swap oversized_buf 0x9000 oversized_world
      = (Exit 1, w')
    /\ usb_log w'
       = plan_events [ (0, take (Z.to_nat 0x2000) oversized_buf);
                       (0xA000, take 0x400 (drop (Z.to_nat 0x2000) oversized_buf)) ].
Proof.
  assert (fst (spl_upload one_swap_soc_info one_swap oversized_buf 0x9000
                 oversized_world) = Exit 1) as E by (vm_compute; reflexivity).
  destruct (spl_upload one_swap_soc_info one_swap oversized_buf 0x9000
              oversized_world) as [r w'] eqn:Er.
  cbn [fst] in E. subst r. exists w'. split; [reflexivity |].
  refine (eq_trans
    (proj2 (oversized_spl_is_refused_late one_swap_soc_info one_swap oversized_buf
              0x9000 oversized_world w' (Exit 1) _ _ _ _ Er) eq_refl) _).
  - simpl. lia.
  - simpl. lia.
  - vm_compute. split; discriminate.
  - vm_compute. reflexivity.
  - vm_compute. reflexivity.
Defined.

(** ** The "spl" and "uboot" commands *)

(** X20.  What [aw_fel_process_spl_and_uboot] leaves in the recorded region when
    it returns: nothing new for a file that ends within 0x8000 bytes plus
    an image header; otherwise the file has the header of a firmware image
    at offset 0x8000, and the region is the load address of that header and
    everything behind the header. *)
Theorem spl_command_records_uboot
    (get_soc_info_from_version : aw_fel_version -> soc_info_t)
    (fel_to_spl_thunk : list Z) (buf : list Z) (size : Z) (w w' : world) :
  0 <= size < 2 ^ 64 ->
  aw_fel_process_spl_and_uboot get_soc_info_from_version fel_to_spl_thunk
    buf size w = (Ok tt, w') ->
  (size <= SPL_LEN_LIMIT + HEADER_SIZE ->
   uboot_entry w' = uboot_entry w /\ uboot_size w' = uboot_size w)
  /\ (SPL_LEN_LIMIT + HEADER_SIZE < size ->
      firmware_header (drop (Z.to_nat SPL_LEN_LIMIT) buf) (size - SPL_LEN_LIMIT)
      /\ uboot_entry w' = be32toh_at (drop (Z.to_nat SPL_LEN_LIMIT) buf) 4
      /\ uboot_size w' = size - SPL_LEN_LIMIT - HEADER_SIZE).
Proof.
  intros Hsize H. unfold aw_fel_process_spl_and_uboot in H.
  apply bind_inv in H as ([] & w1 & H1 & H).
  apply steady_aw_fel_write_and_execute_spl in H1 as (E1 & S1 & _).
  unfold SPL_LEN_LIMIT, HEADER_SIZE in *.
  destruct (Z.ltb_spec 0x8000 size) as [Hlong | Hshort].
  - unfold sz in H. rewrite Z.mod_small in H by lia.
    destruct (Z.le_gt_cases (size - 0x8000) (32 + 32)) as [Hle | Hgt].
    + split; [| lia]. intros _.
      unfold aw_fel_write_uboot_image, HEADER_SIZE in H.
      rewrite (proj2 (Z.leb_le _ _) Hle) in H. inversion H; subst.
      split; assumption.
    + split; [lia |]. intros _.
      apply uboot_image_run in H as (Hh & _ & E & S & _);
        [| unfold HEADER_SIZE; lia].
      split; [exact Hh |]. split; [exact E |].
      rewrite S. destruct Hh as (_ & _ & _ & ->).
      unfold sz, HEADER_SIZE. rewrite Z.mod_small by lia. reflexivity.
  - inversion H; subst. split; [intros _; split; assumption | lia].
Qed.

Lemma spl_command_records_uboot_witness :
  exists w',
    aw_fel_process_spl_and_uboot (fun _ => one_swap_soc_info) []
      (egon_image 0x3000 0x5A) 0x3000 spl_run_world = (Ok tt, w')
    /\ uboot_size w' = 0.
Proof.
  assert (fst (aw_fel_process_spl_and_uboot (fun _ => one_swap_soc_info) []
                 (egon_image 0x3000 0x5A) 0x3000 spl_run_world) = Ok tt) as E
    by (vm_compute; reflexivity).
  destruct (aw_fel_process_spl_and_uboot (fun _ => one_swap_soc_info) []
              (egon_image 0x3000 0x5A) 0x3000 spl_run_world) as [r w'] eqn:Er.
  cbn [fst] in E. subst r. exists w'. split; [reflexivity |].
  exact (proj2 (proj1 (spl_command_records_uboot (fun _ => one_swap_soc_info) []
                         (egon_image 0x3000 0x5A) 0x3000 spl_run_world w'
                         ltac:(lia) Er) ltac:(vm_compute; discriminate))).
Defined.

(** ** Nothing on stdout unless asked *)

(** The transfers below are those without progress notifications, the
    [progress] flag being [false]: the notifications are the business of
    the callback, which is not part of these sources. *)

Lemma silent_ret {A} (a : A) : silent (ret a).
Proof. intros w r w' H V. inversion H; subst. auto. Qed.

Lemma silent_exit {A} c : silent (@exit A c).
Proof. intros w r w' H V. inversion H; subst. auto. Qed.

Lemma silent_assert b : silent (assert b).
Proof.
  intros w r w' H V. unfold assert in H. destruct b; inversion H; subst; auto.
Qed.

Lemma silent_get_world : silent get_world.
Proof. intros w r w' H V. inversion H; subst. auto. Qed.

Lemma silent_eprintf msg : silent (eprintf msg).
Proof. intros w r w' H V. inversion H; subst. auto. Qed.

Lemma silent_set_soc_cache s : silent (set_soc_cache s).
Proof. intros w r w' H V. inversion H; subst. auto. Qed.

Lemma silent_set_uboot e s : silent (set_uboot e s).
Proof. intros w r w' H V. inversion H; subst. auto. Qed.

Lemma silent_libusb_out d : silent (libusb_out d).
Proof. intros w r w' H V. inversion H; subst. auto. Qed.

Lemma silent_libusb_in n : silent (libusb_in n).
Proof.
  intros w r w' H V. unfold libusb_in in H.
  destruct (decide _); inversion H; subst; auto.
Qed.

Lemma silent_pr_info msg : silent (pr_info msg).
Proof.
  intros w r w' H V. unfold pr_info, bind, get_world in H. rewrite V in H.
  inversion H; subst. auto.
Qed.

Lemma silent_bind {A B} (p : M A) (k : A -> M B) :
  silent p -> (forall a, silent (k a)) -> silent (bind p k).
Proof.
  intros Hp Hk w r w' H V. unfold bind in H.
  destruct (p w) as [[a | c |] w1] eqn:E.
  - destruct (Hp _ _ _ E V) as [O1 V1]. destruct (Hk a _ _ _ H V1) as [O2 V2].
    split; congruence.
  - inversion H; subst. eapply Hp; eassumption.
  - inversion H; subst. eapply Hp; eassumption.
Qed.

Lemma silent_for_each {A} (body : A -> M unit) l :
  (forall x, silent (body x)) -> silent (for_each body l).
Proof.
  intros Hb. induction l as [| x l IH]; cbn [for_each].
  - apply silent_ret.
  - apply silent_bind; [apply Hb | intros _; exact IH].
Qed.

Create HintDb silent discriminated.
#[local] Hint Resolve silent_ret silent_exit silent_assert silent_get_world
  silent_eprintf silent_set_soc_cache silent_set_uboot silent_libusb_out
  silent_libusb_in silent_pr_info : silent.

Ltac silent_steps :=
  cbv zeta;
  repeat match goal with
    | |- silent (for_each _ _) => apply silent_for_each; intros ?
    | |- silent (bind _ _) => apply silent_bind; [| intros ? ]
    | |- silent (if ?b then _ else _) => destruct b
    | |- silent (match ?x with _ => _ end) => destruct x
    | |- silent _ => solve [auto with silent]
    end.

Lemma silent_usb_bulk_send ep data len :
  silent (usb_bulk_send ep data len false).
Proof. unfold usb_bulk_send, usb_error. silent_steps. Qed.

Lemma silent_usb_bulk_recv len : silent (usb_bulk_recv len).
Proof. unfold usb_bulk_recv, usb_error. silent_steps. Qed.
#[local] Hint Resolve silent_usb_bulk_send silent_usb_bulk_recv : silent.

Lemma silent_aw_usb_write data len :
  silent (aw_usb_write data len false).
Proof.
  unfold aw_usb_write, aw_send_usb_request, aw_read_usb_response. silent_steps.
Qed.

Lemma silent_aw_usb_read len : silent (aw_usb_read len).
Proof.
  unfold aw_usb_read, aw_send_usb_request, aw_read_usb_response. silent_steps.
Qed.
#[local] Hint Resolve silent_aw_usb_write silent_aw_usb_read : silent.

Lemma silent_aw_fel_write buf offset len : silent (aw_fel_write buf offset len).
Proof.
  unfold aw_fel_write, aw_send_fel_request, aw_read_fel_status. silent_steps.
Qed.

Lemma silent_aw_fel_read offset len : silent (aw_fel_read offset len).
Proof.
  unfold aw_fel_read, aw_send_fel_request, aw_read_fel_status. silent_steps.
Qed.

Lemma silent_aw_fel_execute offset : silent (aw_fel_execute offset).
Proof.
  unfold aw_fel_execute, aw_send_fel_request, aw_read_fel_status. silent_steps.
Qed.

Lemma silent_aw_fel_get_version : silent aw_fel_get_version.
Proof.
  unfold aw_fel_get_version, aw_send_fel_request, aw_read_fel_status. silent_steps.
Qed.

Lemma silent_aw_write_buffer buf offset len :
  silent (aw_write_buffer buf offset len false).
Proof.
  unfold aw_write_buffer, aw_send_fel_request, aw_read_fel_status. silent_steps.
Qed.
#[local] Hint Resolve silent_aw_fel_write silent_aw_fel_read silent_aw_fel_execute
  silent_aw_fel_get_version silent_aw_write_buffer : silent.

Lemma silent_aw_fel_get_soc_info gsi : silent (aw_fel_get_soc_info gsi).
Proof. unfold aw_fel_get_soc_info. silent_steps. Qed.
#[local] Hint Resolve silent_aw_fel_get_soc_info : silent.

Lemma silent_aw_fel_readl_n gsi addr count :
  silent (aw_fel_readl_n gsi addr count).
Proof. unfold aw_fel_readl_n, truncate_count. silent_steps. Qed.

Lemma silent_aw_fel_writel_n gsi addr src count :
  silent (aw_fel_writel_n gsi addr src count).
Proof. unfold aw_fel_writel_n, truncate_count. silent_steps. Qed.
#[local] Hint Resolve silent_aw_fel_readl_n silent_aw_fel_writel_n : silent.

Lemma silent_aw_read_arm_cp_reg soc coproc opc1 crn crm opc2 :
  silent (aw_read_arm_cp_reg soc coproc opc1 crn crm opc2).
Proof. unfold aw_read_arm_cp_reg. silent_steps. Qed.

Lemma silent_aw_write_arm_cp_reg soc coproc opc1 crn crm opc2 val :
  silent (aw_write_arm_cp_reg soc coproc opc1 crn crm opc2 val).
Proof. unfold aw_write_arm_cp_reg. silent_steps. Qed.
#[local] Hint Resolve silent_aw_read_arm_cp_reg silent_aw_write_arm_cp_reg : silent.

Lemma silent_check_tt_entry tbl i : silent (check_tt_entry tbl i).
Proof. unfold check_tt_entry. silent_steps. Qed.
#[local] Hint Resolve silent_check_tt_entry : silent.

Lemma silent_aw_backup_and_disable_mmu soc : silent (aw_backup_and_disable_mmu soc).
Proof.
  unfold aw_backup_and_disable_mmu, aw_get_sctlr, aw_get_dacr, aw_get_ttbcr,
    aw_get_ttbr0.
  silent_steps.
Qed.

Lemma silent_aw_restore_and_enable_mmu soc tbl :
  silent (aw_restore_and_enable_mmu soc tbl).
Proof. unfold aw_restore_and_enable_mmu, aw_get_ttbr0. silent_steps. Qed.
#[local] Hint Resolve silent_aw_backup_and_disable_mmu
  silent_aw_restore_and_enable_mmu : silent.

Lemma silent_spl_check_header buf len : silent (spl_check_header buf len).
Proof. unfold spl_check_header. silent_steps. Qed.

Lemma silent_spl_mmu_setup soc : silent (spl_mmu_setup soc).
Proof.
  unfold spl_mmu_setup, aw_set_dacr, aw_set_ttbcr, aw_set_ttbr0. silent_steps.
Qed.

Lemma silent_spl_write dest tmp c : silent (spl_write dest tmp c).
Proof. unfold spl_write. silent_steps. Qed.
#[local] Hint Resolve silent_spl_check_header silent_spl_mmu_setup
  silent_spl_write : silent.

Lemma silent_swap_entry sb c : silent (swap_entry sb c).
Proof. unfold swap_entry. silent_steps. Qed.
#[local] Hint Resolve silent_swap_entry : silent.

Lemma silent_spl_swap_loop soc swaps c : silent (spl_swap_loop soc swaps c).
Proof.
  revert c. induction swaps as [| sb swaps IH]; intros c; cbn [spl_swap_loop].
  - apply silent_ret.
  - destruct (size sb =? 0); [apply silent_ret |].
    cbv zeta. apply silent_bind; [auto with silent | intros c'; apply IH].
Qed.
#[local] Hint Resolve silent_spl_swap_loop : silent.

Lemma silent_spl_upload soc swaps buf spl_len :
  silent (spl_upload soc swaps buf spl_len).
Proof. unfold spl_upload. silent_steps. Qed.

Lemma silent_spl_thunk thunk soc swaps i : silent (spl_thunk thunk soc swaps i).
Proof. unfold spl_thunk. silent_steps. Qed.
#[local] Hint Resolve silent_spl_upload silent_spl_thunk : silent.

Lemma silent_aw_fel_write_and_execute_spl gsi thunk buf len :
  silent (aw_fel_write_and_execute_spl gsi thunk buf len).
Proof.
  unfold aw_fel_write_and_execute_spl, aw_enable_l2_cache, aw_get_stackinfo.
  silent_steps.
Qed.

Lemma silent_aw_fel_write_uboot_image buf len :
  silent (aw_fel_write_uboot_image buf len).
Proof. unfold aw_fel_write_uboot_image. silent_steps. Qed.
#[local] Hint Resolve silent_aw_fel_write_and_execute_spl
  silent_aw_fel_write_uboot_image : silent.

Lemma silent_have_sunxi_spl spl_addr : silent (have_sunxi_spl spl_addr).
Proof. unfold have_sunxi_spl. silent_steps. Qed.
#[local] Hint Resolve silent_have_sunxi_spl : silent.

Lemma silent_pass_fel_information gsi script_address uEnv_length :
  silent (pass_fel_information gsi script_address uEnv_length).
Proof. unfold pass_fel_information. silent_steps. Qed.
#[local] Hint Resolve silent_pass_fel_information : silent.

(** X21.  The tool talks on stdout only when it is asked to: with [verbose] off
    and without progress notifications, loading an SPL and a U-Boot image,
    a guarded write, a fill, the request of a warm reset and the writing
    of words leave stdout as it is, however they end. *)
Theorem quiet_unless_verbose
    (get_soc_info_from_version : aw_fel_version -> soc_info_t)
    (fel_to_spl_thunk : list Z) :
  (forall buf size,
     silent (aw_fel_process_spl_and_uboot get_soc_info_from_version
               fel_to_spl_thunk buf size))
  /\ (forall buf offset len, silent (aw_write_buffer buf offset len false))
  /\ (forall offset size value, silent (aw_fel_fill offset size value))
  /\ (forall entry_point aarch64,
        silent (aw_rmr_request get_soc_info_from_version entry_point aarch64))
  /\ (forall addr src count,
        silent (aw_fel_writel_n get_soc_info_from_version addr src count)).
Proof.
  split; [intros buf size; unfold aw_fel_process_spl_and_uboot; silent_steps |].
  split; [exact silent_aw_write_buffer |].
  split; [intros offset size value; apply silent_aw_write_buffer |].
  split; [intros entry_point aarch64; unfold aw_rmr_request; silent_steps |].
  apply silent_aw_fel_writel_n.
Qed.

(** ** The SID *)

Lemma aw_fel_readl_n_cached gsi soc addr count w v w' :
  soc_cache w = Some soc -> 0 < count <= LCODE_MAX_WORDS ->
  aw_fel_readl_n gsi addr count w = (Ok v, w') ->
  usb_log w' = usb_log w ++ readl_events soc addr count
  /\ length v = Z.to_nat count
  /\ same_host w w'.
Proof.
  intros Hc Hn H. unfold aw_fel_readl_n, truncate_count in H.
  rewrite (proj2 (Z.eqb_neq count 0)) in H by lia.
  rewrite (proj2 (Z.ltb_ge LCODE_MAX_WORDS count)) in H by lia.
  unfold bind at 1, ret at 1 in H.
  unfold aw_fel_get_soc_info in H.
  rewrite bind_assoc in H. unfold bind at 1, get_world in H.
  rewrite Hc in H. unfold bind at 1, ret at 1 in H. cbv zeta in H.
  split; [| split].
  - apply (does_readl_tail soc addr count) in H as [L _]. exact L.
  - apply bind_inv in H as (? & w3 & _ & H).
    apply bind_inv in H as (? & w4 & _ & H).
    apply bind_inv in H as (? & w5 & _ & H).
    apply bind_inv in H as (? & w6 & _ & H).
    apply bind_inv in H as (buffer & w7 & _ & H).
    inversion H; subst. apply bytes_to_words_length.
  - apply (does_readl_tail soc addr count) in H as [_ S]. exact S.
Qed.

(** X22.  On a SoC whose record names no SID registers, [aw_fel_print_sid] says
    so and asks the device for nothing.  Otherwise a run that returns has
    read four words from [sid_addr] in one round and has printed them as
    four pieces: eight or more hexadecimal digits each, a colon after the
    first three and a newline after the last. *)
Theorem aw_fel_print_sid_output
    (get_soc_info_from_version : aw_fel_version -> soc_info_t)
    (w : world) (soc : soc_info_t) :
  soc_cache w = Some soc -> verbose w = false ->
  (sid_addr soc = 0 ->
   aw_fel_print_sid get_soc_info_from_version w
   = (Ok tt, printed [sid_unknown_message] w))
  /\ (sid_addr soc <> 0 ->
      forall w', aw_fel_print_sid get_soc_info_from_version w = (Ok tt, w') ->
        usb_log w' = usb_log w ++ readl_events soc (sid_addr soc) 4
        /\ exists key, length key = 4%nat
                       /\ out_log w' = out_log w ++ sid_pieces key).
Proof.
  intros Hc Hv.
  assert (Hs : aw_fel_get_soc_info get_soc_info_from_version w = (Ok soc, w))
    by (unfold aw_fel_get_soc_info, bind, get_world; rewrite Hc; reflexivity).
  unfold aw_fel_print_sid. rewrite (bind_ok _ _ _ _ _ Hs). split.
  - intros Hz. rewrite Hz. reflexivity.
  - intros Hnz w' H. rewrite (proj2 (Z.eqb_neq _ _) Hnz) in H. cbn [negb] in H.
    assert (Hp : pr_info "SID key (e-fuses) at 0x%08X" w = (Ok tt, w))
      by (unfold pr_info, bind, get_world; rewrite Hv; reflexivity).
    rewrite (bind_ok _ _ _ _ _ Hp) in H.
    apply bind_inv in H as (key & w1 & H1 & H).
    destruct (silent_aw_fel_readl_n _ _ _ _ _ _ H1 Hv) as [O1 _].
    apply (aw_fel_readl_n_cached _ soc) in H1 as (L1 & Hk & _);
      [| exact Hc | unfold LCODE_MAX_WORDS, LCODE_MAX_TOTAL, LCODE_ARM_WORDS; lia].
    change (range 0 4) with [0; 1; 2; 3] in H. cbn [for_each] in H.
    unfold bind, printf, ret in H. cbn in H. inversion H; subst. cbn.
    split; [exact L1 |]. exists key. split; [exact Hk |].
    unfold sid_pieces. rewrite O1, <- !app_assoc. reflexivity.
Qed.

Lemma aw_fel_print_sid_output_witness :
  exists w',
    aw_fel_print_sid (fun _ => a10_soc_info) sid_world = (Ok tt, w')
    /\ usb_log w' = readl_events a10_soc_info 0x01C23800 4.
Proof.
  assert (fst (aw_fel_print_sid (fun _ => a10_soc_info) sid_world) = Ok tt) as E
    by (vm_compute; reflexivity).
  destruct (aw_fel_print_sid (fun _ => a10_soc_info) sid_world) as [r w'] eqn:Er.
  cbn [fst] in E. subst r. exists w'. split; [reflexivity |].
  exact (proj1 (proj2 (aw_fel_print_sid_output (fun _ => a10_soc_info) sid_world
                         a10_soc_info eq_refl eq_refl)
                  ltac:(vm_compute; discriminate) w' Er)).
Defined.

(** ** A device that does not answer *)

Lemma aw_send_fel_request_silence type addr len w :
  dev_in w = [] ->
  aw_send_fel_request type addr len w = (Exit 2, after_silence type addr len w).
Proof.
  intros Hd.
  unfold aw_send_fel_request, aw_usb_write, aw_send_usb_request, usb_bulk_send.
  change (32 <=? 0) with false. change (16 <=? 0) with false. cbn iota.
  unfold aw_read_usb_response, usb_bulk_recv. change (13 <=? 0) with false.
  cbn iota. unfold bind, libusb_out, ret, libusb_in. cbn [dev_in].
  rewrite Hd. cbn [length].
  destruct (decide (Z.to_nat 13 <= 0)%nat) as [Hbad | _]; [lia |].
  unfold usb_error, bind, eprintf, exit. cbn.
  unfold after_silence. rewrite Hd, <- app_assoc. reflexivity.
Qed.

(** X23.  When the device sends nothing, every FEL operation ends the program
    with status 2 as soon as it waits for the first answer: the request has
    gone out, [usb_bulk_recv()] is named on stderr, and nothing else has
    happened. *)
Theorem silent_device_ends_with_status_2 (op : fel_op) (w : world) :
  dev_in w = [] ->
  run_fel_op op w
  = (Exit 2,
     mk_world (uboot_entry w) (uboot_size w) (verbose w) (soc_cache w) (dev_in w)
              (usb_log w ++ [BulkOut (aw_usb_request AW_USB_WRITE 16);
                             BulkOut (fel_op_request op)])
              (err_log w ++ ["usb_bulk_recv()"%string]) (out_log w)).
Proof.
  intros Hd.
  destruct op as [| offset len | buf offset len | offset];
    unfold run_fel_op, aw_fel_get_version, aw_fel_read, aw_fel_write,
      aw_fel_execute;
    rewrite ?bind_assoc;
    rewrite (bind_exit _ _ _ _ _ (aw_send_fel_request_silence _ _ _ w Hd));
    reflexivity.
Qed.

Lemma silent_device_ends_with_status_2_witness :
  fst (run_fel_op (FelRead 0x2000 16) (initial_world None [])) = Exit 2.
Proof.
  rewrite (silent_device_ends_with_status_2 (FelRead 0x2000 16)
             (initial_world None []) eq_refl).
  reflexivity.
Defined.

(** ** The AW-USB status *)

(** X24.  After every transaction the tool reads 13 bytes and insists on the tag
    "AWUS" and the NUL behind it: with them it goes on, and with anything
    else it stops in a failed [assert], having taken the 13 bytes either
    way; the eight bytes behind the NUL are not looked at. *)
Theorem aw_read_usb_response_verdict (w : world) (r rest : list Z) :
  dev_in w = r ++ rest -> length r = 13%nat ->
  aw_read_usb_response w
  = (if bool_decide (take 5 r = bytes_of_string "AWUS" ++ [0])
     then Ok tt else Abort,
     after_in 13 w)
  /\ dev_in (after_in 13 w) = rest.
Proof.
  intros Hd Hl. unfold aw_read_usb_response, usb_bulk_recv.
  change (13 <=? 0) with false. cbn iota.
  destruct (libusb_in_ok (Z.to_nat 13) w r rest Hd Hl) as [E D].
  change (Z.to_nat 13) with 13%nat in *.
  rewrite bind_assoc, (bind_ok _ _ _ _ _ E).
  unfold ret, bind, assert. split; [| exact D].
  destruct (bool_decide _); reflexivity.
Qed.

Lemma aw_read_usb_response_verdict_witness :
  fst (aw_read_usb_response (initial_world None (repeat 0 13 ++ []))) = Abort
  /\ fst (aw_read_usb_response
            (initial_world None ((bytes_of_string "AWUS" ++ repeat 0xFF 9) ++ [])))
     = Abort
  /\ fst (aw_read_usb_response
            (initial_world None ((bytes_of_string "AWUS" ++ 0 :: repeat 0xFF 8) ++ [])))
     = Ok tt.
Proof.
  split; [| split].
  - rewrite (proj1 (aw_read_usb_response_verdict
                      (initial_world None (repeat 0 13 ++ []))
                      (repeat 0 13) [] eq_refl eq_refl)).
    reflexivity.
  - rewrite (proj1 (aw_read_usb_response_verdict
                      (initial_world None ((bytes_of_string "AWUS" ++ repeat 0xFF 9) ++ []))
                      (bytes_of_string "AWUS" ++ repeat 0xFF 9) [] eq_refl eq_refl)).
    reflexivity.
  - rewrite (proj1 (aw_read_usb_response_verdict
                      (initial_world None
                         ((bytes_of_string "AWUS" ++ 0 :: repeat 0xFF 8) ++ []))
                      (bytes_of_string "AWUS" ++ 0 :: repeat 0xFF 8) [] eq_refl
                      eq_refl)).
    reflexivity.
Defined.

(** ** Coprocessor instructions *)

Lemma field_bit x m k n :
  0 <= m -> 0 <= k -> 0 <= n ->
  Z.testbit (Z.shiftl (Z.land x (Z.ones m)) k) n
  = (k <=? n) && (n <? k + m) && Z.testbit x (n - k).
Proof.
  intros Hm Hk Hn. rewrite Z.shiftl_spec by lia.
  destruct (Z.leb_spec k n) as [Hle | Hlt]; cbn [andb].
  - rewrite Z.land_spec, Z.testbit_ones_nonneg by lia.
    rewrite andb_comm. f_equal.
    destruct (Z.ltb_spec (n - k) m), (Z.ltb_spec n (k + m)); lia || reflexivity.
  - apply Z.testbit_neg_r. lia.
Qed.

Lemma cp_opcode_fields_form l coproc opc1 crn crm opc2 :
  0 <= l <= 1 ->
  cp_opcode l coproc opc1 crn crm opc2
  = Z.lor (Z.shiftl 0xEE 24)
      (Z.lor (Z.shiftl (Z.land l (Z.ones 1)) 20)
      (Z.lor (Z.shiftl (Z.land 1 (Z.ones 1)) 4)
      (Z.lor (Z.shiftl (Z.land opc1 (Z.ones 3)) 21)
      (Z.lor (Z.shiftl (Z.land crn (Z.ones 4)) 16)
      (Z.lor (Z.shiftl (Z.land coproc (Z.ones 4)) 8)
      (Z.lor (Z.shiftl (Z.land opc2 (Z.ones 3)) 5)
             (Z.shiftl (Z.land crm (Z.ones 4)) 0))))))).
Proof.
  intros Hl. unfold cp_opcode. rewrite Z.shiftl_0_r.
  assert (l = 0 \/ l = 1) as [-> | ->] by lia; reflexivity.
Qed.

Lemma cp_opcode_testbit l coproc opc1 crn crm opc2 n :
  0 <= l <= 1 -> 0 <= n ->
  Z.testbit (cp_opcode l coproc opc1 crn crm opc2) n
  = Z.testbit 0xEE (n - 24)
    || ((n =? 20) && Z.testbit l 0)
    || (n =? 4)
    || ((21 <=? n) && (n <? 24) && Z.testbit opc1 (n - 21))
    || ((16 <=? n) && (n <? 20) && Z.testbit crn (n - 16))
    || ((8 <=? n) && (n <? 12) && Z.testbit coproc (n - 8))
    || ((5 <=? n) && (n <? 8) && Z.testbit opc2 (n - 5))
    || ((n <? 4) && Z.testbit crm n).
Proof.
  intros Hl Hn. rewrite cp_opcode_fields_form by exact Hl.
  rewrite !Z.lor_spec, !field_bit by lia.
  rewrite Z.shiftl_spec by lia.
  rewrite !orb_assoc. rewrite Z.sub_0_r.
  replace ((0 <=? n) && (n <? 0 + 4)) with (n <? 4)
    by (rewrite (proj2 (Z.leb_le 0 n)) by lia; reflexivity).
  replace ((20 <=? n) && (n <? 20 + 1) && Z.testbit l (n - 20))
    with ((n =? 20) && Z.testbit l 0).
  2: { destruct (Z.eqb_spec n 20) as [-> | Hne]; [reflexivity |].
       destruct (Z.leb_spec 20 n), (Z.ltb_spec n (20 + 1)); cbn; lia || reflexivity. }
  replace ((4 <=? n) && (n <? 4 + 1) && Z.testbit 1 (n - 4)) with (n =? 4).
  2: { destruct (Z.eqb_spec n 4) as [-> | Hne]; [reflexivity |].
       destruct (Z.leb_spec 4 n), (Z.ltb_spec n (4 + 1)); cbn; lia || reflexivity. }
  reflexivity.
Qed.

Ltac decide_comparisons :=
  repeat match goal with
    | |- context [?a <=? ?b] =>
        destruct (Z.leb_spec a b); [| try lia]; try lia
    | |- context [?a <? ?b] =>
        destruct (Z.ltb_spec a b); [| try lia]; try lia
    | |- context [?a =? ?b] =>
        destruct (Z.eqb_spec a b); [try lia |]; try lia
    end.

Lemma bits_at_testbit k m op n :
  0 <= k -> 0 <= m -> 0 <= n ->
  Z.testbit (bits_at k m op) n = (n <? m) && Z.testbit op (n + k).
Proof.
  intros Hk Hm Hn. unfold bits_at.
  rewrite Z.land_spec, Z.shiftr_spec, Z.testbit_ones_nonneg by lia.
  apply andb_comm.
Qed.

Lemma testbit_0xEE_neg n : n < 0 -> Z.testbit 0xEE n = false.
Proof. apply Z.testbit_neg_r. Qed.

Lemma testbit_small x n : 0 <= x <= 1 -> 0 < n -> Z.testbit x n = false.
Proof.
  intros Hx Hn. assert (x = 0 \/ x = 1) as [-> | ->] by lia.
  - apply Z.testbit_0_l.
  - destruct n; try lia. reflexivity.
Qed.

(** X25.  The instruction word that [aw_read_arm_cp_reg] and
    [aw_write_arm_cp_reg] build is an ARM coprocessor register transfer
    with every operand in its own field: the condition "always" and the
    opcode 0xEE on top, then opc1, the direction, CRn, the register r0,
    the coprocessor, opc2, bit 4 set, and CRm; an operand that is too wide
    for its field is cut to it and does not spill into another. *)
Theorem cp_opcode_fields (l coproc opc1 crn crm opc2 : Z) :
  0 <= l <= 1 ->
  let op := cp_opcode l coproc opc1 crn crm opc2 in
  Z.shiftr op 24 = 0xEE
  /\ bits_at 21 3 op = Z.land opc1 7
  /\ bits_at 20 1 op = l
  /\ bits_at 16 4 op = Z.land crn 15
  /\ bits_at 12 4 op = 0
  /\ bits_at 8 4 op = Z.land coproc 15
  /\ bits_at 5 3 op = Z.land opc2 7
  /\ bits_at 4 1 op = 1
  /\ bits_at 0 4 op = Z.land crm 15.
Proof.
  intros Hl op. subst op.
  repeat split; apply Z.bits_inj'; intros n Hn.
  - rewrite Z.shiftr_spec, cp_opcode_testbit by lia.
    replace (n + 24 - 24) with n by lia.
    decide_comparisons; cbn [andb orb]; rewrite ?orb_false_r; reflexivity.
  - rewrite bits_at_testbit, cp_opcode_testbit by lia.
    change 7 with (Z.ones 3). rewrite Z.land_spec, Z.testbit_ones_nonneg by lia.
    destruct (Z.ltb_spec n 3); [| rewrite andb_false_r; reflexivity].
    rewrite testbit_0xEE_neg by lia.
    replace (n + 21 - 21) with n by lia.
    decide_comparisons; cbn [andb orb]; rewrite ?orb_false_r, ?andb_true_r;
      reflexivity.
  - rewrite bits_at_testbit, cp_opcode_testbit by lia.
    destruct (Z.ltb_spec n 1).
    + assert (n = 0) as -> by lia. cbn [Z.add].
      rewrite testbit_0xEE_neg by lia.
      decide_comparisons; cbn [andb orb]; rewrite ?orb_false_r; reflexivity.
    + cbn [andb]. symmetry. apply testbit_small; lia.
  - rewrite bits_at_testbit, cp_opcode_testbit by lia.
    change 15 with (Z.ones 4). rewrite Z.land_spec, Z.testbit_ones_nonneg by lia.
    destruct (Z.ltb_spec n 4); [| rewrite andb_false_r; reflexivity].
    rewrite testbit_0xEE_neg by lia.
    replace (n + 16 - 16) with n by lia.
    decide_comparisons; cbn [andb orb]; rewrite ?orb_false_r, ?andb_true_r;
      reflexivity.
  - rewrite bits_at_testbit, cp_opcode_testbit, Z.testbit_0_l by lia.
    destruct (Z.ltb_spec n 4); [| reflexivity].
    rewrite testbit_0xEE_neg by lia.
    decide_comparisons; cbn [andb orb]; reflexivity.
  - rewrite bits_at_testbit, cp_opcode_testbit by lia.
    change 15 with (Z.ones 4). rewrite Z.land_spec, Z.testbit_ones_nonneg by lia.
    destruct (Z.ltb_spec n 4); [| rewrite andb_false_r; reflexivity].
    rewrite testbit_0xEE_neg by lia.
    replace (n + 8 - 8) with n by lia.
    decide_comparisons; cbn [andb orb]; rewrite ?orb_false_r, ?andb_true_r;
      reflexivity.
  - rewrite bits_at_testbit, cp_opcode_testbit by lia.
    change 7 with (Z.ones 3). rewrite Z.land_spec, Z.testbit_ones_nonneg by lia.
    destruct (Z.ltb_spec n 3); [| rewrite andb_false_r; reflexivity].
    rewrite testbit_0xEE_neg by lia.
    replace (n + 5 - 5) with n by lia.
    decide_comparisons; cbn [andb orb]; rewrite ?orb_false_r, ?andb_true_r;
      reflexivity.
  - rewrite bits_at_testbit, cp_opcode_testbit by lia.
    destruct (Z.ltb_spec n 1).
    + assert (n = 0) as -> by lia. reflexivity.
    + cbn [andb]. symmetry. apply (testbit_small 1); lia.
  - rewrite bits_at_testbit, cp_opcode_testbit by lia.
    change 15 with (Z.ones 4). rewrite Z.land_spec, Z.testbit_ones_nonneg by lia.
    destruct (Z.ltb_spec n 4); [| rewrite andb_false_r; reflexivity].
    rewrite testbit_0xEE_neg by lia.
    rewrite Z.add_0_r.
    decide_comparisons; cbn [andb orb]; rewrite ?orb_false_r, ?andb_true_r;
      reflexivity.
Qed.

Lemma cp_opcode_fields_witness :
  bits_at 16 4 (cp_opcode 1 15 0 1 0 0) = 1
  /\ bits_at 12 4 (cp_opcode 1 15 0 1 0 0) = 0.
Proof.
  pose proof (cp_opcode_fields 1 15 0 1 0 0 ltac:(lia)) as H. cbv zeta in H.
  destruct H as (_ & _ & _ & Hcrn & Hrt & _).
  split; [exact Hcrn | exact Hrt].
Defined.

(** ** The endpoints of the device *)

Lemma foldl_concat {A B} (f : A -> B -> A) (ls : list (list B)) (a : A) :
  foldl (fun a l => foldl f a l) a ls = foldl f a (concat ls).
Proof.
  revert a. induction ls as [| l ls IH]; intros a; cbn [foldl concat].
  - reflexivity.
  - rewrite IH, foldl_app. reflexivity.
Qed.

Lemma last_address_snoc p d l ep :
  last_address p d (l ++ [ep])
  = if p ep then bEndpointAddress ep else last_address p d l.
Proof.
  unfold last_address. rewrite List.filter_app, map_app. cbn [List.filter].
  destruct (p ep) eqn:E; cbn [map].
  - rewrite last_snoc. reflexivity.
  - rewrite app_nil_r. reflexivity.
Qed.

Lemma foldl_visit_endpoint mask bulk dirmask dirin eps l :
  foldl (visit_endpoint mask bulk dirmask dirin) eps l
  = (last_address (fun ep => is_bulk mask bulk ep && is_in dirmask dirin ep)
                  (fst eps) l,
     last_address (fun ep => is_bulk mask bulk ep && negb (is_in dirmask dirin ep))
                  (snd eps) l).
Proof.
  induction l as [| ep l IH] using rev_ind.
  - destruct eps. reflexivity.
  - rewrite foldl_app, IH. cbn [foldl]. rewrite !last_address_snoc.
    unfold visit_endpoint. cbn [fst snd].
    destruct (is_bulk mask bulk ep), (is_in dirmask dirin ep); reflexivity.
Qed.

(** X26.  [aw_fel_get_endpoint] reports success for every configuration it can
    read, with or without bulk endpoints in it: the endpoint it leaves for
    a direction is the last bulk endpoint of that direction among all
    interfaces and settings, and a direction that has none keeps the value
    it had. *)
Theorem aw_fel_get_endpoint_choice
    (LIBUSB_TRANSFER_TYPE_MASK LIBUSB_TRANSFER_TYPE_BULK
     LIBUSB_ENDPOINT_DIR_MASK LIBUSB_ENDPOINT_IN : Z)
    (c : config_descriptor) (ep_in ep_out : Z) :
  let bulk := is_bulk LIBUSB_TRANSFER_TYPE_MASK LIBUSB_TRANSFER_TYPE_BULK in
  let inward := is_in LIBUSB_ENDPOINT_DIR_MASK LIBUSB_ENDPOINT_IN in
  aw_fel_get_endpoint LIBUSB_TRANSFER_TYPE_MASK LIBUSB_TRANSFER_TYPE_BULK
    LIBUSB_ENDPOINT_DIR_MASK LIBUSB_ENDPOINT_IN (inr c) (ep_in, ep_out)
  = (0, (last_address (fun ep => bulk ep && inward ep) ep_in (all_endpoints c),
         last_address (fun ep => bulk ep && negb (inward ep)) ep_out
                      (all_endpoints c))).
Proof.
  intros bulk inward. unfold aw_fel_get_endpoint, all_endpoints. f_equal.
  rewrite (foldl_concat
             (fun eps setting =>
                foldl (visit_endpoint LIBUSB_TRANSFER_TYPE_MASK
                         LIBUSB_TRANSFER_TYPE_BULK LIBUSB_ENDPOINT_DIR_MASK
                         LIBUSB_ENDPOINT_IN) eps setting)).
  rewrite foldl_concat. apply foldl_visit_endpoint.
Qed.
